(** * Link hygiene for the newsletter: a model of [tools/inspect_links.py]

    The script walks the most recent newsletter files, normalises every link
    found in a "strict" section ([parse_url]), and records warnings about
    tracking parameters, simplifiable links and links seen before
    ([inspect_files]).

    Python strings are sequences of Unicode code points, so [str] is a list
    of code points.  The functions of [urllib.parse] the script calls are
    modelled after [Lib/urllib/parse.py] of CPython 3.11 and later.  What
    the installation decides is a field of [Platform]: the standard library
    tables that cannot be written down here (Unicode case mapping and digit
    tables, NFKC normalisation, [ipaddress]), consulted only on non-ASCII
    or bracketed input, and the two places where the releases of
    [urllib.parse] differ, the list [uses_netloc] and the netloc step of
    [urlunsplit].  [Platform] also says whether the attribute
    [urllib.parse] is bound at all: the script imports the package
    [urllib] only, and every call into the submodule looks the attribute
    up. *)

From Stdlib Require Import NArith ZArith Ascii String List Lia.
From stdpp Require Import base decidable option list gmap sorting.

Local Open Scope N_scope.

(** ** Python strings *)

(** A code point, and a string: a list of code points. *)
Abbreviation char := N (only parsing).
Abbreviation str := (list N) (only parsing).

(** An ASCII literal as a Python string. *)
Definition py (x : string) : str := map N_of_ascii (list_ascii_of_string x).
Arguments py x%_string.

(** [c in s] for a one-character [c]. *)
Definition str_contains (c : char) (s : str) : bool := existsb (N.eqb c) s.

(** [s.replace(a, b)] for one-character [a] and [b]. *)
Definition str_replace (a b : char) (s : str) : str :=
  map (fun c => if c =? a then b else c) s.

(** [s.replace(a, "")] for a one-character [a]. *)
Definition str_remove (a : char) (s : str) : str :=
  filter (fun c => c ≠ a) s.

(** [s.find(c)] for a one-character [c]: the first index, or [None] for -1. *)
Fixpoint str_find (c : char) (s : str) : option nat :=
  match s with
  | [] => None
  | x :: t => if x =? c then Some 0%nat else S <$> str_find c t
  end.

(** [s.lstrip(chars)], with [chars] given as a predicate. *)
Fixpoint str_lstrip (p : char -> bool) (s : str) : str :=
  match s with
  | [] => []
  | x :: t => if p x then str_lstrip p t else s
  end.

(** [sep.join(l)]. *)
Fixpoint str_join (sep : str) (l : list str) : str :=
  match l with
  | [] => []
  | [x] => x
  | x :: t => x ++ sep ++ str_join sep t
  end.

(** [s.split(sep)] for a one-character [sep]: never empty. *)
Fixpoint str_split (sep : char) (s : str) : list str :=
  match s with
  | [] => [[]]
  | x :: t =>
      if x =? sep then [] :: str_split sep t
      else match str_split sep t with
           | [] => [[x]]
           | p :: ps => (x :: p) :: ps
           end
  end.

(** [s.split(sep, 1)] for a one-character [sep]: [(s, None)] when [sep]
    does not occur, else the text before and after its first occurrence. *)
Definition str_split1 (sep : char) (s : str) : str * option str :=
  match str_find sep s with
  | None => (s, None)
  | Some i => (take i s, Some (drop (S i) s))
  end.

Definition is_ascii (c : char) : bool := c <? 128.
Definition is_ascii_upper (c : char) : bool := (65 <=? c) && (c <=? 90).
Definition is_ascii_lower (c : char) : bool := (97 <=? c) && (c <=? 122).
Definition is_ascii_alpha (c : char) : bool := is_ascii_upper c || is_ascii_lower c.
Definition is_ascii_digit (c : char) : bool := (48 <=? c) && (c <=? 57).

Definition ascii_lower_char (c : char) : char :=
  if is_ascii_upper c then c + 32 else c.

(** ** Exceptions *)

Inductive exn :=
  | ValueError            (* urlsplit: a netloc it refuses *)
  | AttributeError        (* urllib.parse: the submodule was not loaded *)
  | UnicodeEncodeError    (* str.encode('utf-8') of a lone surrogate *)
  | OSError               (* os.listdir, open *)
  | UnicodeDecodeError    (* file.read() *)
  | NoFilesFound (dir : str)      (* Exception(f'No files found in {dir}') *)
  | NoMatchingFiles (dir : str).  (* Exception(f'No matching files found in {dir}') *)

Inductive result (A : Type) :=
  | Ok (a : A)
  | Raise (e : exn).
Arguments Ok {A} a.
Arguments Raise {A} e.

(** ** The UTF-8 codec, as [quote] and [unquote] use it *)

(** [str.encode('utf-8', 'strict')] of one code point; [None] is the
    UnicodeEncodeError raised for a surrogate. *)
Definition utf8_encode_char (c : char) : option (list N) :=
  if c <? 0x80 then Some [c]
  else if c <? 0x800 then Some [0xC0 + c / 64; 0x80 + c mod 64]
  else if c <? 0x10000 then
    if (0xD800 <=? c) && (c <=? 0xDFFF) then None
    else Some [0xE0 + c / 4096; 0x80 + (c / 64) mod 64; 0x80 + c mod 64]
  else if c <? 0x110000 then
    Some [0xF0 + c / 262144; 0x80 + (c / 4096) mod 64;
          0x80 + (c / 64) mod 64; 0x80 + c mod 64]
  else None.

Fixpoint utf8_encode (s : str) : option (list N) :=
  match s with
  | [] => Some []
  | c :: t =>
      match utf8_encode_char c, utf8_encode t with
      | Some a, Some b => Some (a ++ b)
      | _, _ => None
      end
  end.

Definition in_range (lo hi b : N) : bool := (lo <=? b) && (b <=? hi).

(** The second byte a lead byte [b0] of a 3- or 4-byte sequence accepts. *)
Definition second_ok (b0 b1 : N) : bool :=
  if b0 =? 0xE0 then in_range 0xA0 0xBF b1
  else if b0 =? 0xED then in_range 0x80 0x9F b1
  else if b0 =? 0xF0 then in_range 0x90 0xBF b1
  else if b0 =? 0xF4 then in_range 0x80 0x8F b1
  else in_range 0x80 0xBF b1.

Definition REPLACEMENT : char := 0xFFFD.

(** [bytes.decode('utf-8', 'replace')]: every maximal ill-formed run is
    replaced by U+FFFD and decoding resumes at the offending byte. *)
Fixpoint utf8_decode (bs : list N) : str :=
  match bs with
  | [] => []
  | b0 :: t0 =>
      if b0 <? 0x80 then b0 :: utf8_decode t0
      else if b0 <? 0xC2 then REPLACEMENT :: utf8_decode t0
      else if b0 <? 0xE0 then
        match t0 with
        | [] => [REPLACEMENT]
        | b1 :: t1 =>
            if in_range 0x80 0xBF b1
            then ((b0 - 0xC0) * 64 + (b1 - 0x80)) :: utf8_decode t1
            else REPLACEMENT :: utf8_decode t0
        end
      else if b0 <? 0xF0 then
        match t0 with
        | [] => [REPLACEMENT]
        | b1 :: t1 =>
            if second_ok b0 b1 then
              match t1 with
              | [] => [REPLACEMENT]
              | b2 :: t2 =>
                  if in_range 0x80 0xBF b2
                  then ((b0 - 0xE0) * 4096 + (b1 - 0x80) * 64 + (b2 - 0x80))
                         :: utf8_decode t2
                  else REPLACEMENT :: utf8_decode t1
              end
            else REPLACEMENT :: utf8_decode t0
        end
      else if b0 <? 0xF5 then
        match t0 with
        | [] => [REPLACEMENT]
        | b1 :: t1 =>
            if second_ok b0 b1 then
              match t1 with
              | [] => [REPLACEMENT]
              | b2 :: t2 =>
                  if in_range 0x80 0xBF b2 then
                    match t2 with
                    | [] => [REPLACEMENT]
                    | b3 :: t3 =>
                        if in_range 0x80 0xBF b3
                        then ((b0 - 0xF0) * 262144 + (b1 - 0x80) * 4096
                              + (b2 - 0x80) * 64 + (b3 - 0x80))
                               :: utf8_decode t3
                        else REPLACEMENT :: utf8_decode t2
                    end
                  else REPLACEMENT :: utf8_decode t1
              end
            else REPLACEMENT :: utf8_decode t0
        end
      else REPLACEMENT :: utf8_decode t0
  end.

(** ** [urllib.parse]: quoting *)

Definition PERCENT : char := 37.
Definition PLUS : char := 43.
Definition SPACE : char := 32.

(** The value of a hexadecimal digit of either case ([_hexdig]). *)
Definition hexval (c : char) : option N :=
  if is_ascii_digit c then Some (c - 48)
  else if in_range 65 70 c then Some (c - 55)
  else if in_range 97 102 c then Some (c - 87)
  else None.

(** One digit of ['%{:02X}'.format(b)]. *)
Definition hexdigit (n : N) : char := if n <? 10 then 48 + n else 55 + n.

(** [_unquote_impl] on ASCII text: [%XX] becomes the byte, a [%] that is
    not followed by two hexadecimal digits stays. *)
Fixpoint unquote_to_bytes (s : str) : list N :=
  match s with
  | [] => []
  | c :: t =>
      if c =? PERCENT then
        match t with
        | h1 :: h2 :: t2 =>
            match hexval h1, hexval h2 with
            | Some a, Some b => (16 * a + b) :: unquote_to_bytes t2
            | _, _ => c :: unquote_to_bytes t
            end
        | _ => c :: unquote_to_bytes t
        end
      else c :: unquote_to_bytes t
  end.

(** [_generate_unquoted_parts]: every maximal ASCII run ([run], collected
    so far) is unquoted to bytes and decoded; the text between the runs is
    kept as it is. *)
Fixpoint unquote_parts (s : str) (run : str) : str :=
  match s with
  | [] => utf8_decode (unquote_to_bytes run)
  | c :: t =>
      if is_ascii c then unquote_parts t (run ++ [c])
      else utf8_decode (unquote_to_bytes run) ++ c :: unquote_parts t []
  end.

(** [unquote(string)], with the defaults [encoding='utf-8'] and
    [errors='replace']. *)
Definition unquote (s : str) : str :=
  if negb (str_contains PERCENT s) then s else unquote_parts s [].

(** [_ALWAYS_SAFE]: letters, digits and [_.-~]. *)
Definition always_safe (b : N) : bool :=
  is_ascii_alpha b || is_ascii_digit b
  || (b =? 95) || (b =? 46) || (b =? 45) || (b =? 126).

(** [_Quoter.__missing__]. *)
Definition quote_byte (safe : list N) (b : N) : str :=
  if always_safe b || existsb (N.eqb b) safe then [b]
  else [PERCENT; hexdigit (b / 16); hexdigit (b mod 16)].

(** [quote(string, safe)]; [None] is the UnicodeEncodeError of the strict
    encoder. *)
Definition quote (s : str) (safe : list N) : option str :=
  match s with
  | [] => Some []
  | _ => bs ← utf8_encode s; Some (concat (map (quote_byte safe) bs))
  end.

(** [quote_plus(string)] with [safe='']. *)
Definition quote_plus (s : str) : option str :=
  if negb (str_contains SPACE s) then quote s []
  else str_replace SPACE PLUS <$> quote s [SPACE].

(** ** [urllib.parse]: query strings *)

(** A Python dict of lists, in insertion order. *)
Abbreviation qdict := (list (list N * list (list N))) (only parsing).

(** [parse_qsl(qs)] with the defaults ([keep_blank_values=False],
    [strict_parsing=False], [separator='&']): fields with no [=] or with a
    blank value are dropped. *)
Definition parse_qsl (qs : str) : list (str * str) :=
  flat_map (fun name_value =>
    match name_value with
    | [] => []
    | _ =>
        match str_split1 61 name_value with
        | (_, None) => []
        | (_, Some []) => []
        | (n, Some v) =>
            [(unquote (str_replace PLUS SPACE n), unquote (str_replace PLUS SPACE v))]
        end
    end) (str_split 38 qs).

(** The loop body of [parse_qs]: append to the list of a known name, or
    add the name at the end. *)
Fixpoint dict_add (name value : str) (d : qdict) : qdict :=
  match d with
  | [] => [(name, [value])]
  | (k, vs) :: t =>
      if bool_decide (k = name) then (k, vs ++ [value]) :: t
      else (k, vs) :: dict_add name value t
  end.

Definition parse_qs (qs : str) : qdict :=
  fold_left (fun d nv => dict_add nv.1 nv.2 d) (parse_qsl qs) [].

(** [urlencode(query, doseq=True)] for a dict of lists of strings. *)
Definition urlencode (query : qdict) : option str :=
  l ← mapM (fun kv =>
         k ← quote_plus kv.1;
         mapM (fun elt => e ← quote_plus elt; Some (k ++ py "=" ++ e)) kv.2) query;
  Some (str_join (py "&") (concat l)).

(** ** [urllib.parse]: splitting and joining URLs *)

(** The netloc step of [urlunsplit] has had three forms, named here after
    what becomes of a path without netloc.
    - [SlashesDropped]:
      [if netloc or (scheme and scheme in uses_netloc and url[:2] != '//')],
      so that a path starting with [//] is written as it is;
    - [SlashesKept]:
      [if netloc or (scheme and scheme in uses_netloc) or url[:2] == '//'],
      so that such a path is written after the two slashes of the empty
      netloc;
    - [RelativeKept]: as [SlashesKept], but after a scheme of [uses_netloc]
      only a path that is empty or starts with [/] is given the two
      slashes; the three conditions are [if netloc], [elif url[:2] == '//']
      and [elif scheme and scheme in uses_netloc and (not url or url[:1] == '/')]. *)
Inductive unsplit_rule :=
  | SlashesDropped
  | SlashesKept
  | RelativeKept.

(** What the standard library decides from tables that are not written
    down here.  Each field is consulted only where the ASCII rules of the
    functions below do not settle the answer. *)
Record Platform := {
  (** [re]'s [\d] beyond ASCII: Unicode category Nd. *)
  nd_nonascii : char -> bool;
  (** [str.lower()] of text that is not pure ASCII. *)
  lower_nonascii : str -> str;
  (** [_checknetloc] raises on this non-ASCII netloc (NFKC normalisation
      brings out one of [/?#@:]). *)
  netloc_nfkc_invalid : str -> bool;
  (** The check of a netloc with both brackets raises: in some releases
      [_check_bracketed_host] on the text between the brackets, in others
      [_check_bracketed_netloc] on the whole netloc ([ipaddress] and the
      IPvFuture pattern). *)
  bracketed_netloc_invalid : str -> bool;
  (** The module's list [uses_netloc], to which releases have added
      schemes. *)
  uses_netloc : list str;
  (** The form of the netloc step of [urlunsplit]. *)
  netloc_step : unsplit_rule;
  (** Whether the attribute [urllib.parse] is bound when the script runs.
      The script has [import urllib], which binds the package and not its
      submodule; the submodule is an attribute of the package once some
      import of the process has loaded it, which depends on the releases
      of [bs4] and [markdown] and of the modules they import. *)
  urllib_parse_bound : bool;
}.

(** The named tuple [SplitResult]. *)
Record SplitResult := {
  scheme : str;
  netloc : str;
  path : str;
  query : str;
  fragment : str;
}.

(** [_WHATWG_C0_CONTROL_OR_SPACE]. *)
Definition is_c0_or_space (c : char) : bool := c <=? 32.

(** [_UNSAFE_URL_BYTES_TO_REMOVE]: tab, carriage return, line feed. *)
Definition UNSAFE_URL_BYTES_TO_REMOVE : list char := [9; 13; 10].

(** [scheme_chars]: letters, digits and [+-.]. *)
Definition scheme_char (c : char) : bool :=
  is_ascii_alpha c || is_ascii_digit c || (c =? 43) || (c =? 45) || (c =? 46).

(** [url.find(c, start)]. *)
Definition str_find_from (c : char) (url : str) (start : nat) : option nat :=
  (fun i => (start + i)%nat) <$> str_find c (drop start url).

(** [_splitnetloc(url, start)]: the netloc ends at the earliest of [/], [?]
    and [#], or at the end of the text. *)
Definition splitnetloc (url : str) (start : nat) : str * str :=
  let delim :=
    fold_left (fun delim c =>
                 match str_find_from c url start with
                 | Some wdelim => Nat.min delim wdelim
                 | None => delim
                 end) (py "/?#") (length url) in
  (take (delim - start) (drop start url), drop delim url).

(** The scheme test of [urlsplit]: [(scheme, rest)]. *)
Definition split_scheme (url : str) : str * str :=
  match str_find 58 url, url with
  | Some (S i), c0 :: _ =>
      if is_ascii_alpha c0 && forallb scheme_char (take (S i) url)
      then (map ascii_lower_char (take (S i) url), drop (S (S i)) url)
      else ([], url)
  | _, _ => ([], url)
  end.

(** The checks of [urlsplit] on a netloc that raise ValueError. *)
Definition netloc_brackets_invalid (P : Platform) (netloc : str) : bool :=
  let has_open := str_contains 91 netloc in
  let has_close := str_contains 93 netloc in
  (has_open && negb has_close) || (has_close && negb has_open)
  || (has_open && has_close && bracketed_netloc_invalid P netloc).

(** [_checknetloc] raises. *)
Definition checknetloc_invalid (P : Platform) (netloc : str) : bool :=
  match netloc with
  | [] => false
  | _ => if forallb is_ascii netloc then false else netloc_nfkc_invalid P netloc
  end.

(** The function [urlsplit] of the module [urllib.parse]: [urlsplit(url)]
    for a string. *)
Definition parse_urlsplit (P : Platform) (url : str) : result SplitResult :=
  let url := str_lstrip is_c0_or_space url in
  let url := fold_left (fun u b => str_remove b u) UNSAFE_URL_BYTES_TO_REMOVE url in
  let '(scheme, url) := split_scheme url in
  let '(netloc, url) :=
    if bool_decide (take 2 url = py "//") then splitnetloc url 2 else ([], url) in
  if netloc_brackets_invalid P netloc then Raise ValueError else
  let '(url, fragment) :=
    match str_split1 35 url with
    | (u, Some f) => (u, f)
    | (u, None) => (u, [])
    end in
  let '(url, query) :=
    match str_split1 63 url with
    | (u, Some q) => (u, q)
    | (u, None) => (u, [])
    end in
  if checknetloc_invalid P netloc then Raise ValueError else
  Ok {| scheme := scheme; netloc := netloc; path := url;
        query := query; fragment := fragment |}.

(** An expression [urllib.parse.f(...)] of the script: the attribute
    [urllib.parse] is looked up first, and the look-up raises
    AttributeError when the submodule is not bound. *)
Definition urllib_parse {A} (P : Platform) (call : result A) : result A :=
  if urllib_parse_bound P then call else Raise AttributeError.

(** [urllib.parse.urlsplit(url)], as the script evaluates it. *)
Definition urlsplit (P : Platform) (url : str) : result SplitResult :=
  urllib_parse P (parse_urlsplit P url).

Definition nonempty (s : str) : bool := match s with [] => false | _ => true end.

(** [urlunsplit((scheme, netloc, url, query, fragment))]. *)
Definition urlunsplit (P : Platform) (scheme netloc url query fragment : str) : str :=
  let rooted :=
    if nonempty url && negb (bool_decide (take 1 url = py "/")) then py "/" ++ url else url in
  let scheme_uses_netloc := nonempty scheme && bool_decide (scheme ∈ uses_netloc P) in
  let url :=
    match netloc_step P with
    | SlashesDropped =>
        if nonempty netloc
           || (scheme_uses_netloc && negb (bool_decide (take 2 url = py "//")))
        then py "//" ++ netloc ++ rooted else url
    | SlashesKept =>
        if nonempty netloc || scheme_uses_netloc || bool_decide (take 2 url = py "//")
        then py "//" ++ netloc ++ rooted else url
    | RelativeKept =>
        if nonempty netloc then py "//" ++ netloc ++ rooted
        else if bool_decide (take 2 url = py "//") then py "//" ++ url
        else if scheme_uses_netloc
                && (negb (nonempty url) || bool_decide (take 1 url = py "/"))
        then py "//" ++ url
        else url
    end in
  let url := if nonempty scheme then scheme ++ py ":" ++ url else url in
  let url := if nonempty query then url ++ py "?" ++ query else url in
  let url := if nonempty fragment then url ++ py "#" ++ fragment else url in
  url.

(** [uses_netloc] as it was before schemes were added to it, and the two
    schemes added since. *)
Definition USES_NETLOC : list str :=
  [ py ""; py "ftp"; py "http"; py "gopher"; py "nntp"; py "telnet";
    py "imap"; py "wais"; py "file"; py "mms"; py "https"; py "shttp";
    py "snews"; py "prospero"; py "rtsp"; py "rtspu"; py "rsync";
    py "svn"; py "svn+ssh"; py "sftp"; py "nfs"; py "git"; py "git+ssh";
    py "ws"; py "wss" ].

Definition USES_NETLOC_ADDED : list str := [ py "rtsps"; py "itms-services" ].

(** An installation that is never asked about non-ASCII or bracketed
    text, with a given form of [urlunsplit]: used to run the model on ASCII
    examples. *)
Definition ascii_platform_with (rule : unsplit_rule) (schemes : list str) : Platform :=
  {| nd_nonascii := fun _ => false;
     lower_nonascii := fun s => s;
     netloc_nfkc_invalid := fun _ => false;
     bracketed_netloc_invalid := fun _ => false;
     uses_netloc := schemes;
     netloc_step := rule;
     urllib_parse_bound := true |}.

(** The latest form, and the earliest. *)
Definition ascii_platform : Platform :=
  ascii_platform_with RelativeKept (USES_NETLOC ++ USES_NETLOC_ADDED).

Definition ascii_platform_before : Platform :=
  ascii_platform_with SlashesDropped USES_NETLOC.

(** [ascii_platform] in a process in which no import has loaded
    [urllib.parse]. *)
Definition ascii_platform_unloaded : Platform :=
  {| nd_nonascii := fun _ => false;
     lower_nonascii := fun s => s;
     netloc_nfkc_invalid := fun _ => false;
     bracketed_netloc_invalid := fun _ => false;
     uses_netloc := USES_NETLOC ++ USES_NETLOC_ADDED;
     netloc_step := RelativeKept;
     urllib_parse_bound := false |}.

(** ** [tools/inspect_links.py]: warnings and effects *)

(** What [parse_url] returns: a string, or, for an anchor without [href]
    ([tag.get('href')] is [None]), the bytes object [b''] that [urlunsplit]
    builds from the all-empty bytes result of [urlsplit(None)]. *)
Inductive nlink :=
  | NStr (s : str)
  | NEmptyBytes.

Global Instance nlink_eq_dec : EqDecision nlink.
Proof. solve_decision. Defined.

Global Instance nlink_countable : Countable nlink.
Proof.
  refine (inj_countable' (fun l => match l with NStr s => Some s | NEmptyBytes => None end)
                         (fun o => match o with Some s => NStr s | None => NEmptyBytes end) _).
  intros []; reflexivity.
Defined.

(** The messages handed to [warnings.warn], by the f-string that builds
    them; the fields are the values the f-string interpolates. *)
Inductive warning :=
  (** [f'possibly malformed link: {link}'] *)
  | MalformedLink (link : str)
  (** [f'found tracking parameters on {url}: {found_tracking}'] *)
  | TrackingParameters (url : str) (found_tracking : list str)
  (** [f'link can be simplified: {link} -> {reconstituted}'] *)
  | CanBeSimplified (link reconstituted : str)
  (** [f"possible duplicate link {link} in file {file} (also found in {collision}"] *)
  | DuplicateLink (link : nlink) (file collision : str)
  (** ['possibly malformed link: None'] *)
  | MalformedNone
  (** ["link can be simplified: None -> b''"] *)
  | SimplifiedNone.

(** The records [LOG] emits at level INFO. *)
Inductive log_record :=
  | InspectingFile (filename : str)     (* f'inspecting file {filename}' *)
  | RecentFiles (listing : list str).   (* f'recent files: {listing}' *)

(** The process-wide state: the [Warnings] singleton and what was logged. *)
Record state := {
  warnings : list warning;
  log : list log_record;
}.

Definition initial_state : state := {| warnings := []; log := [] |}.

(** A computation that reads and extends the state and may raise. *)
Definition M (A : Type) : Type := state -> result A * state.

Definition ret {A} (a : A) : M A := fun s => (Ok a, s).
Definition raise {A} (e : exn) : M A := fun s => (Raise e, s).
Definition bind {A B} (m : M A) (k : A -> M B) : M B :=
  fun s => match m s with
           | (Ok a, s') => k a s'
           | (Raise e, s') => (Raise e, s')
           end.
Definition lift {A} (r : result A) : M A := fun s => (r, s).

Notation "'let*' x ':=' m 'in' k" := (bind m (fun x => k))
  (at level 10, x pattern, m at level 100, k at level 200).

(** [Warnings.warn]. *)
Definition warn (msg : warning) : M unit :=
  fun s => (Ok tt, {| warnings := warnings s ++ [msg]; log := log s |}).

(** [LOG.info]. *)
Definition log_info (r : log_record) : M unit :=
  fun s => (Ok tt, {| warnings := warnings s; log := log s ++ [r] |}).

Definition when (b : bool) (m : M unit) : M unit := if b then m else ret tt.

(** ** [tools/inspect_links.py]: the URL normaliser *)

Definition TRACKING_PARAMETERS : list str :=
  [py "utm_source"; py "utm_campaign"; py "utm_medium"; py "utm_content"].

Definition STRICT_TITLES : list str :=
  [py "project/tooling updates"; py "observations/thoughts";
   py "rust walkthroughs"; py "miscellaneous"].

(** [d[k] = v] on a dict in insertion order. *)
Fixpoint dict_set {V} (k : str) (v : V) (d : list (str * V)) : list (str * V) :=
  match d with
  | [] => [(k, v)]
  | (k', v') :: t =>
      if bool_decide (k' = k) then (k', v) :: t else (k', v') :: dict_set k v t
  end.

(** The loop of [scrub_parameters]: [(filtered_dict, found_tracking)]. *)
Definition scrub_loop (query_dict : qdict) : qdict * list str :=
  fold_left (fun acc kv =>
               if bool_decide (kv.1 ∈ TRACKING_PARAMETERS)
               then (acc.1, acc.2 ++ [kv.1])
               else (dict_set kv.1 kv.2 acc.1, acc.2))
            query_dict ([], []).

(** [scrub_parameters(url, query)], as [parse_url] calls it: after the
    first statement of [parse_url] has found [urllib.parse] bound. *)
Definition scrub_parameters (url query : str) : M str :=
  let query_dict := parse_qs query in
  let '(filtered_dict, found_tracking) := scrub_loop query_dict in
  let* _ := when (bool_decide (found_tracking ≠ []))
                 (warn (TrackingParameters url found_tracking)) in
  match filtered_dict with
  | [] => ret []
  | _ =>
      match urlencode filtered_dict with
      | Some q => ret q
      | None => raise UnicodeEncodeError
      end
  end.

(** [parse_url(link)] for a string [link].  Its first statement is the
    first to evaluate [urllib.parse]; the calls after it
    ([scrub_parameters], [urlunsplit]) run only when that look-up
    succeeded.  The two [LOG.debug] calls format [parsed_url.geturl()],
    which is [urlunsplit] again and has no effect. *)
Definition parse_url (P : Platform) (link : str) : M str :=
  let* parsed_url := lift (urlsplit P link) in
  let* _ := when (negb (bool_decide (scheme parsed_url ∈ [py "mailto"; py "http"; py "https"])))
                 (warn (MalformedLink link)) in
  let query := query parsed_url in
  let* query := if nonempty query then scrub_parameters link query else ret query in
  let reconstituted :=
    urlunsplit P (scheme parsed_url) (netloc parsed_url) (path parsed_url)
               query (fragment parsed_url) in
  let* _ := when (bool_decide (reconstituted ≠ link))
                 (warn (CanBeSimplified link reconstituted)) in
  ret reconstituted.

(** [parse_url(None)]: [urlsplit(None)] is the all-empty bytes result, its
    scheme [b''] is no recognised protocol, and [b'' != None]. *)
Definition parse_url_None (P : Platform) : M nlink :=
  let* _ := lift (urllib_parse P (Ok tt)) in
  let* _ := warn MalformedNone in
  let* _ := warn SimplifiedNone in
  ret NEmptyBytes.

(** [parse_url] at what [tag.get('href')] gives. *)
Definition parse_href (P : Platform) (link : option str) : M nlink :=
  match link with
  | Some l => let* r := parse_url P l in ret (NStr r)
  | None => parse_url_None P
  end.

(** ** [tools/inspect_links.py]: the link extractor *)

(** A tag of the parsed document, by what the script reads of it. *)
Record Tag := {
  tag_name : str;             (* tag.name *)
  tag_href : option str;      (* tag.get('href') *)
  tag_string : option str;    (* tag.string *)
}.

(** The document [bs4.BeautifulSoup(html, 'html.parser')] builds, as its
    tags in document order (the order in which [find_all] visits them). *)
Abbreviation html := (list Tag) (only parsing).

(** [soup.find_all(tags)] for a list of tag names. *)
Definition find_all (tags : list str) (doc : html) : list Tag :=
  filter (fun tag => tag_name tag ∈ tags) doc.

(** [str.lower()]. *)
Definition str_lower (P : Platform) (s : str) : str :=
  if forallb is_ascii s then map ascii_lower_char s else lower_nonascii P s.

(** [is_strict_title(title)]; [str(None)] is ['None']. *)
Definition is_strict_title (P : Platform) (title : option str) : bool :=
  let title := match title with Some t => t | None => py "None" end in
  bool_decide (str_lower P title ∈ STRICT_TITLES).

(** The tag names [extract_links] asks [find_all] for. *)
Definition LINK_AND_HEADING_TAGS : list str :=
  [py "a"; py "h1"; py "h2"; py "h3"; py "h4"].

(** The [for tag in ...] loop of [extract_links], from the state
    [(strict_mode, urls)]. *)
Fixpoint extract_links_loop (P : Platform) (tags : list Tag)
    (strict_mode : bool) (urls : list nlink) : M (list nlink) :=
  match tags with
  | [] => ret urls
  | tag :: rest =>
      if bool_decide (tag_name tag = py "a") then
        if strict_mode then
          let* trimmed_url := parse_href P (tag_href tag) in
          extract_links_loop P rest strict_mode (urls ++ [trimmed_url])
        else extract_links_loop P rest strict_mode urls
      else extract_links_loop P rest (is_strict_title P (tag_string tag)) urls
  end.

Definition extract_links (P : Platform) (doc : html) : M (list nlink) :=
  extract_links_loop P (find_all LINK_AND_HEADING_TAGS doc) false [].

(** ** [tools/inspect_links.py]: files *)

(** What the script reads of its surroundings. *)
Record World := {
  listdir : str -> result (list str);   (* os.listdir(path=dir) *)
  open_read : str -> result str;        (* open(filename).read() *)
  markdown : str -> html;               (* markdown.markdown(md_text), parsed *)
}.

Definition inspect_file (P : Platform) (W : World) (filename : str) : M (list nlink) :=
  let* _ := log_info (InspectingFile filename) in
  let* md_text := lift (open_read W filename) in
  let doc := markdown W md_text in
  let* links := extract_links P doc in
  ret links.

(** One position of a compiled pattern. *)
Inductive re_atom :=
  | ReDigit              (* \d *)
  | ReAny                (* . *)
  | ReChar (c : char).

(** [r'\d\d\d\d-\d\d-\d\d-this-week-in-rust.md'] *)
Definition RE_FILENAME : list re_atom :=
  [ReDigit; ReDigit; ReDigit; ReDigit; ReChar 45;
   ReDigit; ReDigit; ReChar 45; ReDigit; ReDigit]
  ++ map ReChar (py "-this-week-in-rust") ++ [ReAny] ++ map ReChar (py "md").

Definition re_atom_matches (P : Platform) (a : re_atom) (c : char) : bool :=
  match a with
  | ReDigit => is_ascii_digit c || (negb (is_ascii c) && nd_nonascii P c)
  | ReAny => negb (c =? 10)
  | ReChar x => c =? x
  end.

(** [pattern.match(s)] is not [None]: the pattern matches a prefix of [s]. *)
Fixpoint re_match (P : Platform) (re : list re_atom) (s : str) : bool :=
  match re, s with
  | [], _ => true
  | a :: re', c :: s' => re_atom_matches P a c && re_match P re' s'
  | _ :: _, [] => false
  end.

(** [s1 <= s2] on strings: lexicographic, by code point. *)
Fixpoint str_leb (s1 s2 : str) : bool :=
  match s1, s2 with
  | [], _ => true
  | _ :: _, [] => false
  | a :: t1, b :: t2 => (a <? b) || ((a =? b) && str_leb t1 t2)
  end.

(** One step of sorting: [x] put in its place in a sorted list. *)
Fixpoint sort_insert (x : str) (l : list str) : list str :=
  match l with
  | [] => [x]
  | y :: t => if str_leb x y then x :: l else y :: sort_insert x t
  end.

(** [listing.sort()]. *)
Definition list_sort (l : list str) : list str := foldr sort_insert [] l.

(** [l[start:]] for a Python index [start]. *)
Definition slice_from {A} (start : Z) (l : list A) : list A :=
  if (start <? 0)%Z then drop (Z.to_nat (Z.max 0 (Z.of_nat (length l) + start))) l
  else drop (Z.to_nat start) l.

(** [os.path.join(a, b)] of [posixpath]. *)
Definition path_join (a b : str) : str :=
  if bool_decide (take 1 b = py "/") then b
  else if negb (nonempty a) || bool_decide (drop (length a - 1) a = py "/") then a ++ b
  else a ++ py "/" ++ b.

Definition get_recent_files (P : Platform) (W : World) (dir : str) (count : Z)
    : M (list str) :=
  let* listing := lift (listdir W dir) in
  if negb (bool_decide (listing ≠ [])) then raise (NoFilesFound dir) else
  let listing := filter (fun f => re_match P RE_FILENAME f = true) listing in
  if negb (bool_decide (listing ≠ [])) then raise (NoMatchingFiles dir) else
  let listing := list_sort listing in
  let listing := slice_from (- count) listing in
  let* _ := log_info (RecentFiles listing) in
  ret (map (path_join dir) listing).

(** ** [tools/inspect_links.py]: the duplicate tracker *)

(** The [for link in links] loop of [inspect_files].  [if collision:] is
    false for a missing entry and for an empty file name. *)
Fixpoint inspect_links_loop (file : str) (links : list nlink)
    (linkset : gmap nlink str) : M (gmap nlink str) :=
  match links with
  | [] => ret linkset
  | link :: rest =>
      match linkset !! link with
      | Some ((_ :: _) as collision) =>
          let* _ := warn (DuplicateLink link file collision) in
          inspect_links_loop file rest linkset
      | _ => inspect_links_loop file rest (<[link := file]> linkset)
      end
  end.

(** The [for file in file_list] loop of [inspect_files]. *)
Fixpoint inspect_files_loop (P : Platform) (W : World) (file_list : list str)
    (linkset : gmap nlink str) : M (gmap nlink str) :=
  match file_list with
  | [] => ret linkset
  | file :: rest =>
      let* links := inspect_file P W file in
      let* linkset := inspect_links_loop file links linkset in
      inspect_files_loop P W rest linkset
  end.

Definition inspect_files (P : Platform) (W : World) (file_list : list str) : M unit :=
  let* _ := inspect_files_loop P W file_list ∅ in
  ret tt.

(** ** [tools/inspect_links.py]: the program *)

(** The parsed command line: [--path], [--num-recent], [--debug]. *)
Record Args := {
  arg_path : str;
  arg_num_recent : Z;
  arg_debug : bool;
}.

Definition default_args : Args :=
  {| arg_path := py "content"; arg_num_recent := 5; arg_debug := false |}.

Definition main (P : Platform) (W : World) (args : Args) : M unit :=
  let* file_list := get_recent_files P W (arg_path args) (arg_num_recent args) in
  inspect_files P W file_list.

(** One call of [print]: the text and a newline. *)
Inductive printed :=
  | PrintText (s : string)
  | PrintWarning (w : warning).

(** How the process ends: its exit status, what it printed on standard
    output, the exception that ended it (if one did), and the state left. *)
Record outcome := {
  exit_code : Z;
  stdout : list printed;
  uncaught : option exn;
  final : state;
}.

(** The [if __name__ == "__main__":] block.  An exception that leaves
    [main] is not caught: the interpreter prints the traceback on standard
    error and exits with status 1. *)
Definition script (P : Platform) (W : World) (args : Args) : outcome :=
  match main P W args initial_state with
  | (Raise e, s) =>
      {| exit_code := 1; stdout := []; uncaught := Some e; final := s |}
  | (Ok _, s) =>
      match warnings s with
      | [] =>
          {| exit_code := 0; stdout := [PrintText "everything is ok!"];
             uncaught := None; final := s |}
      | warns =>
          {| exit_code := 1;
             stdout := PrintText "warnings exist:" :: map PrintWarning warns;
             uncaught := None; final := s |}
      end
  end.

(** * Vocabulary of the statements and proofs *)

(** ** Arithmetic in proofs *)

(** [lia] also reads quotients and remainders by a constant. *)
Ltac Zify.zify_post_hook ::= Z.to_euclidean_division_equations.

(** Boolean comparisons among the hypotheses, as propositions. *)
Ltac bool_to_prop :=
  repeat match goal with
  | H : (_ <? _) = true |- _ => apply N.ltb_lt in H
  | H : (_ <? _) = false |- _ => apply N.ltb_ge in H
  | H : (_ <=? _) = true |- _ => apply N.leb_le in H
  | H : (_ <=? _) = false |- _ => apply N.leb_gt in H
  | H : (_ =? _) = true |- _ => apply N.eqb_eq in H
  | H : (_ =? _) = false |- _ => apply N.eqb_neq in H
  | H : (_ && _) = true |- _ => apply andb_true_iff in H; destruct H
  | H : (_ && _) = false |- _ => apply andb_false_iff in H; destruct H
  | H : (_ || _) = true |- _ => apply orb_true_iff in H; destruct H
  | H : (_ || _) = false |- _ => apply orb_false_iff in H; destruct H
  end.

(** ** The parts of a URL *)

(** The characters that end a netloc: [/], [?] and [#]. *)
Definition is_delim (c : char) : bool := (c =? 47) || (c =? 63) || (c =? 35).

(** [pre] is accepted as a scheme by [urlsplit]: it starts with an ASCII
    letter and consists of [scheme_chars]. *)
Definition is_scheme (pre : str) : bool :=
  match pre with
  | c0 :: _ => is_ascii_alpha c0 && forallb scheme_char pre
  | [] => false
  end.

(** No prefix of [url] before a colon is a scheme. *)
Definition no_scheme (url : str) : Prop :=
  forall pre r, url = pre ++ 58 :: r -> is_scheme pre = false.

(** Case analysis on the comparisons of the goal. *)
Ltac case_cmp :=
  repeat (match goal with
          | |- context [?a <=? ?b] => destruct (N.leb_spec a b)
          | |- context [?a <? ?b] => destruct (N.ltb_spec a b)
          | |- context [?a =? ?b] => destruct (N.eqb_spec a b)
          end; cbn [andb orb negb] in *; try lia);
  try reflexivity; try lia.

(** What follows a path: nothing, or text that starts with [?] or [#]. *)
Definition tail_ok (t : str) : Prop :=
  match t with [] => True | c :: _ => c = 63 \/ c = 35 end.

(** The first two steps of [urlsplit]: leading control characters and
    spaces are stripped, tabs and line ends are removed. *)
Definition url_cleanup (url : str) : str :=
  fold_left (fun u b => str_remove b u) UNSAFE_URL_BYTES_TO_REMOVE
            (str_lstrip is_c0_or_space url).

(** No tab, carriage return or line feed. *)
Definition unsafe_free (s : str) : Prop := Forall (fun c => c <> 9 /\ c <> 13 /\ c <> 10) s.

(** The first character, if there is one, is no control character or
    space. *)
Definition head_visible (s : str) : Prop :=
  match s with [] => True | c :: _ => is_c0_or_space c = false end.

(** The text before the fragment mark, in which [urlsplit] looks for the
    query. *)
Definition before_fragment (u : str) : str := (str_split1 35 u).1.

(** A question mark before any fragment mark. *)
Definition query_marked (u : str) : Prop := exists a b, u = a ++ 63 :: b /\ 35 ∉ a.

(** The rest of [urlsplit], on the cleaned-up text. *)
Definition urlsplit_clean (P : Platform) (url : str) : result SplitResult :=
  let '(scheme, url) := split_scheme url in
  let '(netloc, url) :=
    if bool_decide (take 2 url = py "//") then splitnetloc url 2 else ([], url) in
  if netloc_brackets_invalid P netloc then Raise ValueError else
  let '(url, fragment) :=
    match str_split1 35 url with
    | (u, Some f) => (u, f)
    | (u, None) => (u, [])
    end in
  let '(url, query) :=
    match str_split1 63 url with
    | (u, Some q) => (u, q)
    | (u, None) => (u, [])
    end in
  if checknetloc_invalid P netloc then Raise ValueError else
  Ok {| scheme := scheme; netloc := netloc; path := url;
        query := query; fragment := fragment |}.

(** No [/], [?] or [#] in [s]. *)
Definition no_delim (s : str) : Prop := forallb (fun c => negb (is_delim c)) s = true.

(** [s] is empty or starts with [/], [?] or [#]. *)
Definition delim_head (s : str) : Prop :=
  match s with [] => True | c :: _ => is_delim c = true end.

(** The query as [urlunsplit] writes it, with its [?]. *)
Definition qpart (q : str) : str := if nonempty q then 63 :: q else [].

(** The fragment as [urlunsplit] writes it, with its [#]. *)
Definition fpart (f : str) : str := if nonempty f then 35 :: f else [].

(** How a cleaned-up text is made of the parts [urlsplit] returns. *)
Record split_shape (url0 : str) (p : SplitResult) (url1 url2 : str) : Prop := {
  shape_scheme : split_scheme url0 = (scheme p, url1);
  shape_netloc :
    (take 2 url1 = py "//" /\ url1 = py "//" ++ netloc p ++ url2
     /\ no_delim (netloc p) /\ delim_head url2)
    \/ (take 2 url1 <> py "//" /\ netloc p = [] /\ url2 = url1);
  shape_tail : exists t0, url2 = path p ++ t0 /\ tail_ok t0;
  shape_path : (63 ∉ path p) /\ (35 ∉ path p);
  shape_parts : exists q0 f0, url2 = path p ++ q0 ++ f0
                              /\ (f0 = [] \/ f0 = 35 :: fragment p)
                              /\ (fragment p = [] \/ f0 = 35 :: fragment p);
}.

(** A path that is empty or starts with [/]. *)
Definition path_rooted (pth : str) : Prop := pth = [] \/ exists t, pth = 47 :: t.

(** What holds of every result of [urlsplit], and is enough to split the
    reassembled text into the same parts. *)
Record split_facts (P : Platform) (p : SplitResult) : Prop := {
  fact_scheme :
    scheme p = [] \/
    (is_scheme (scheme p) = true /\ map ascii_lower_char (scheme p) = scheme p);
  fact_netloc : no_delim (netloc p);
  fact_rooted : netloc p <> [] -> path_rooted (path p);
  fact_path : (63 ∉ path p) /\ (35 ∉ path p);
  fact_rest : scheme p = [] -> netloc p = [] ->
              forall t', tail_ok t' -> no_scheme (path p ++ t');
  fact_head : scheme p = [] -> netloc p = [] -> head_visible (path p);
  fact_unsafe : unsafe_free (scheme p) /\ unsafe_free (netloc p)
                /\ unsafe_free (path p) /\ unsafe_free (fragment p);
  fact_brackets : netloc_brackets_invalid P (netloc p) = false;
  fact_checknetloc : checknetloc_invalid P (netloc p) = false;
}.

(** The scheme as [urlunsplit] writes it, with its colon. *)
Definition spart (sch : str) : str := if nonempty sch then sch ++ [58] else [].

(** Whether [urlunsplit] finds the scheme in [uses_netloc]. *)
Definition scheme_uses_netloc (P : Platform) (sch : str) : bool :=
  nonempty sch && bool_decide (sch ∈ uses_netloc P).

(** A path with the slash that [urlunsplit] puts before a relative path. *)
Definition rooted (pth : str) : str :=
  if nonempty pth && negb (bool_decide (take 1 pth = py "/")) then py "/" ++ pth else pth.

(** What [urlunsplit] writes for the netloc and the path. *)
Definition netpath (P : Platform) (sch loc pth : str) : str :=
  match netloc_step P with
  | SlashesDropped =>
      if nonempty loc
         || (scheme_uses_netloc P sch && negb (bool_decide (take 2 pth = py "//")))
      then py "//" ++ loc ++ rooted pth else pth
  | SlashesKept =>
      if nonempty loc || scheme_uses_netloc P sch || bool_decide (take 2 pth = py "//")
      then py "//" ++ loc ++ rooted pth else pth
  | RelativeKept =>
      if nonempty loc then py "//" ++ loc ++ rooted pth
      else if bool_decide (take 2 pth = py "//") then py "//" ++ pth
      else if scheme_uses_netloc P sch
              && (negb (nonempty pth) || bool_decide (take 1 pth = py "/"))
      then py "//" ++ pth
      else pth
  end.

(** What stands between the scheme and the path in a text that splits
    into these parts: the netloc with its two slashes, or two slashes
    alone, or nothing. *)
Definition npart (P : Platform) (sch loc pth : str) : str :=
  if nonempty loc then [47; 47] ++ loc
  else if bool_decide (take 2 pth = py "//") then [47; 47]
  else if scheme_uses_netloc P sch
          && (negb (nonempty pth) || bool_decide (take 1 pth = py "/"))
  then [47; 47]
  else [].

(** The text made of the parts [p] and the query [q]. *)
Definition joined (P : Platform) (p : SplitResult) (q : str) : str :=
  spart (scheme p) ++ npart P (scheme p) (netloc p) (path p) ++ path p
  ++ qpart q ++ fpart (fragment p).

(** The parts as [urlunsplit] writes them: the earlier forms put a slash
    before a relative path that follows a scheme of [uses_netloc]. *)
Definition written (P : Platform) (p : SplitResult) : SplitResult :=
  match netloc_step P with
  | RelativeKept => p
  | _ =>
      if negb (nonempty (netloc p)) && scheme_uses_netloc P (scheme p)
      then {| scheme := scheme p; netloc := netloc p; path := rooted (path p);
              query := query p; fragment := fragment p |}
      else p
  end.

(** The parts whose path [urlunsplit] does not mistake for a netloc: only
    the earliest form writes a path that starts with [//] without the two
    slashes of the empty netloc before it. *)
Definition slashes_safe (P : Platform) (p : SplitResult) : Prop :=
  netloc_step P <> SlashesDropped \/ netloc p <> [] \/ take 2 (path p) <> py "//".

(** No question mark and no fragment mark in [s]. *)
Definition unmarked (s : str) : Prop := Forall (fun c => c <> 63 /\ c <> 35) s.

(** ** Quoted text and query dicts *)

(** [lia] after quotients and remainders were named. *)
Ltac div_lia := zify; Z.to_euclidean_division_equations; lia.

(** What [quote_plus] writes for one byte. *)
Definition qp_byte (b : N) : str :=
  if always_safe b then [b]
  else if b =? 32 then [43]
  else [PERCENT; hexdigit (b / 16); hexdigit (b mod 16)].

(** What [quote_plus] writes for the bytes of a string. *)
Definition quoted (bs : list N) : str := concat (map qp_byte bs).

(** The characters [quote_plus] writes. *)
Definition qchar (c : char) : Prop := always_safe c = true \/ c = 43 \/ c = 37.

(** What [parse_qsl] unquotes for one byte: what [quote_plus] wrote, with
    [+] read as a space. *)
Definition qp_byte' (b : N) : str :=
  if always_safe b then [b]
  else if b =? 32 then [32]
  else [PERCENT; hexdigit (b / 16); hexdigit (b mod 16)].

(** The pairs of a dict of lists, in order. *)
Definition dict_pairs (d : qdict) : list (str * str) :=
  flat_map (fun kv => map (fun v => (kv.1, v)) kv.2) d.

(** One field of a query string. *)
Definition field_of (nv : str * str) (piece : str) : Prop :=
  exists k' v', quote_plus nv.1 = Some k' /\ quote_plus nv.2 = Some v'
                /\ piece = k' ++ py "=" ++ v'.

(** A dict of lists as [parse_qs] builds them: distinct names, no empty
    list, no blank value. *)
Definition wf_dict (d : qdict) : Prop :=
  NoDup (map fst d) /\ Forall (fun kv => kv.2 <> [] /\ Forall (fun v => v <> []) kv.2) d.

(** ** The effects of [parse_url] *)

(** The name of the entry is on the block-list. *)
Definition tracked (kv : str * list str) : Prop := kv.1 ∈ TRACKING_PARAMETERS.

(** The parameters [scrub_parameters] keeps of a query string. *)
Definition kept_parameters (q : str) : qdict := filter (fun kv => ~ tracked kv) (parse_qs q).

(** The names [scrub_parameters] reports for a query string. *)
Definition found_tracking (q : str) : list str := map fst (filter tracked (parse_qs q)).

(** The state after [warnings.warn(w)]. *)
Definition add_warning (w : warning) (s : state) : state :=
  {| warnings := warnings s ++ [w]; log := log s |}.

(** The warning about the scheme, if [parse_url] records one. *)
Definition scheme_warning (link : str) (p : SplitResult) : list warning :=
  if bool_decide (scheme p ∈ [py "mailto"; py "http"; py "https"]) then []
  else [MalformedLink link].

(** The state after the warnings [ws] were recorded, in order. *)
Definition add_warnings (ws : list warning) (s : state) : state :=
  {| warnings := warnings s ++ ws; log := log s |}.

(** A query that a second pass of [parse_url] leaves as it is. *)
Definition stable_query (q' : str) : Prop :=
  unsafe_free q' /\ (35 ∉ q')
  /\ (q' <> [] -> forall url s, scrub_parameters url q' s = (Ok q', s)).

(** ** The effects of a run *)

(** The state after the warnings [ws] were recorded and the records [lg]
    logged. *)
Definition ext (ws : list warning) (lg : list log_record) (s : state) : state :=
  {| warnings := warnings s ++ ws; log := log s ++ lg |}.

(** [m] returns the same result from every state, and leaves the state
    extended by the same warnings (all satisfying [Q]) and log records. *)
Definition appends {A} (Q : warning -> Prop) (m : M A) : Prop :=
  exists r ws lg, Forall Q ws /\ forall s, m s = (r, ext ws lg s).

(** A warning of [parse_url]: not one about duplicates. *)
Definition link_warning (w : warning) : Prop :=
  match w with DuplicateLink _ _ _ => False | _ => True end.

(** The links [inspect_file] returns for a file (they do not depend on the
    state it starts from). *)
Definition extracted (P : Platform) (W : World) (filename : str) : result (list nlink) :=
  (inspect_file P W filename initial_state).1.

(** The warnings and the mapping [inspect_files] ends with, from the
    [(file, link)] pairs in the order it meets them. *)
Fixpoint track_pairs (ps : list (list N * nlink)) (linkset : gmap nlink (list N))
    : list warning * gmap nlink (list N) :=
  match ps with
  | [] => ([], linkset)
  | (file, link) :: rest =>
      match linkset !! link with
      | Some ((_ :: _) as collision) =>
          (DuplicateLink link file collision :: (track_pairs rest linkset).1,
           (track_pairs rest linkset).2)
      | _ => track_pairs rest (<[link := file]> linkset)
      end
  end.

(** A warning that [link] is a duplicate. *)
Definition dup_of (link : nlink) (w : warning) : Prop :=
  match w with DuplicateLink l _ _ => l = link | _ => False end.

(** [dup_of] can be decided. *)
Global Instance dup_of_dec link w : Decision (dup_of link w) :=
  match w with
  | DuplicateLink l _ _ => decide (l = link)
  | _ => right (fun H : False => H)
  end.

(** The files in which [link] is met, in order. *)
Definition occ_files (link : nlink) (ps : list (list N * nlink)) : list (list N) :=
  map fst (filter (fun p => p.2 = link) ps).

(** The warnings about a link met in [files] after it was first seen in
    [first]. *)
Definition dups_after (link : nlink) (first : list N) (files : list (list N)) : list warning :=
  map (fun f => DuplicateLink link f first) files.

(** The warnings about a link met in [files]. *)
Definition dups_of (link : nlink) (files : list (list N)) : list warning :=
  match files with
  | [] => []
  | first :: later => dups_after link first later
  end.

(** Every file name of the mapping is non-empty. *)
Definition files_named (linkset : gmap nlink (list N)) : Prop :=
  forall l f, linkset !! l = Some f -> f <> [].

(** The [(file, link)] pairs of a list of files, in the order in which
    [inspect_files] meets them. *)
Definition occurrences (P : Platform) (W : World) (file_list : list (list N))
    : list (list N * nlink) :=
  flat_map (fun f => match extracted P W f with
                     | Ok links => map (pair f) links
                     | Raise _ => []
                     end) file_list.

(** [inspect_file] returns a list of links for the file. *)
Definition readable (P : Platform) (W : World) (f : list N) : Prop :=
  exists links, extracted P W f = Ok links.

(** ** Example surroundings *)

(** A heading tag with its text. *)
Definition heading (level title : string) : Tag :=
  {| tag_name := py level; tag_href := None; tag_string := Some (py title) |}.

(** A link tag with its target. *)
Definition anchor (target : string) : Tag :=
  {| tag_name := py "a"; tag_href := Some (py target); tag_string := None |}.

(** Surroundings in which the directory holds [listing] and every file
    renders to [doc]. *)
Definition world_of (listing : list str) (doc : html) : World :=
  {| listdir := fun _ => Ok listing;
     open_read := fun _ => Ok [];
     markdown := fun _ => doc |}.

(** ** Sorted file names *)

(** The order of [listing.sort()]. *)
Definition str_le (s1 s2 : str) : Prop := str_leb s1 s2 = true.

(** ** Example runs *)

(** A document with one strict section that links to the same page twice. *)
Definition doc_twice : html :=
  [heading "h1" "Miscellaneous"; anchor "https://example.com/x"; anchor "https://example.com/x"].

(** A document with one strict section and one link. *)
Definition doc_once : html :=
  [heading "h2" "Rust Walkthroughs"; anchor "https://example.com/x"].

(** Three file names of the newsletter. *)
Definition issue_1 : str := py "2024-01-03-this-week-in-rust.md".

Definition issue_2 : str := py "2024-01-10-this-week-in-rust.md".

Definition issue_3 : str := py "2024-01-17-this-week-in-rust.md".


(** ** Encodable text and what [parse_url] returns *)

(** A code point UTF-8 encodes: below 0x110000 and no surrogate.  The
    strings Python reads from a UTF-8 file hold no other. *)
Definition scalar (c : char) : Prop := c < 0xD800 \/ (0xDFFF < c /\ c < 0x110000).

(** Every name and value of the dict is made of such code points. *)
Definition scalar_dict (d : qdict) : Prop :=
  Forall (fun kv => Forall scalar kv.1 /\ Forall (Forall scalar) kv.2) d.

(** The query [parse_url] writes for the parts [p]. *)
Definition scrubbed_query (p : SplitResult) : result str :=
  match kept_parameters (query p) with
  | [] => Ok []
  | d => match urlencode d with
         | Some q' => Ok q'
         | None => Raise UnicodeEncodeError
         end
  end.

(** The removal of tabs and line ends, after the leading characters were
    stripped. *)
Definition remove_unsafe (u : str) : str := str_remove 10 (str_remove 13 (str_remove 9 u)).

(** A warning [parse_url] records for [link]. *)
Definition about_link (link : str) (w : warning) : Prop :=
  match w with
  | MalformedLink l | TrackingParameters l _ | CanBeSimplified l _ => l = link
  | _ => False
  end.

(** ** The sections of a document *)

(** The heading levels that open a section. *)
Definition SECTION_TAGS : list str := [py "h1"; py "h2"; py "h3"; py "h4"].

(** Whether what follows the tags [before] lies in a strict section: the
    nearest heading of level 1 to 4 before it has a strict title. *)
Definition in_strict_section (P : Platform) (before : html) : bool :=
  match last (filter (fun tag => tag_name tag ∈ SECTION_TAGS) before) with
  | Some h => is_strict_title P (tag_string h)
  | None => false
  end.

(** The link tags of [rest] that lie in a strict section, in a document
    that has the tags [before] before them. *)
Fixpoint strict_anchors_after (P : Platform) (before rest : html) : list Tag :=
  match rest with
  | [] => []
  | tag :: rest' =>
      (if bool_decide (tag_name tag = py "a") && in_strict_section P before then [tag] else [])
      ++ strict_anchors_after P (before ++ [tag]) rest'
  end.

(** [parse_url] at the targets of the link tags [anchors], one after the
    other, the results appended to [urls]. *)
Fixpoint parse_anchors (P : Platform) (anchors : list Tag) (urls : list nlink)
    : M (list nlink) :=
  match anchors with
  | [] => ret urls
  | tag :: anchors' =>
      let* trimmed_url := parse_href P (tag_href tag) in
      parse_anchors P anchors' (urls ++ [trimmed_url])
  end.

(** The link tags of a document that lie in a strict section. *)
Definition strict_anchors (P : Platform) (doc : html) : list Tag :=
  strict_anchors_after P [] doc.

(** ** What a run adds to the state *)

(** A warning about a duplicate. *)
Definition duplicate_warning (w : warning) : bool :=
  match w with DuplicateLink _ _ _ => true | _ => false end.

(** [m] logs nothing. *)
Definition keeps_log {A} (m : M A) : Prop := forall s, log (m s).2 = log s.

(** ** Further example surroundings *)

(** Surroundings in which every file renders to [doc], and the file
    [missing] cannot be opened. *)
Definition world_without (missing : str) (doc : html) : World :=
  {| listdir := fun _ => Ok [];
     open_read := fun f => if bool_decide (f = missing) then Raise OSError else Ok [];
     markdown := fun _ => doc |}.

(** * Properties *)

(** ** The model on examples *)

Example quote_plus_ex : quote_plus (py "a b&c=/~") = Some (py "a+b%26c%3D%2F~").
Proof. reflexivity. Qed.

Example unquote_ex : unquote (py "%41%zz%C3%A9%ff%e2%82") = py "A%zz" ++ [233; 0xFFFD; 0xFFFD].
Proof. reflexivity. Qed.

Example parse_qs_ex :
  parse_qs (py "a=1&b=2&&a=3&c=&d&=x") =
    [(py "a", [py "1"; py "3"]); (py "b", [py "2"]); (py "", [py "x"])].
Proof. reflexivity. Qed.

Example urlencode_ex :
  urlencode [(py "a", [py "1"; py "3"]); (py "b c", [py "2"])] = Some (py "a=1&a=3&b+c=2").
Proof. reflexivity. Qed.

Example urlsplit_ex P :
  parse_urlsplit P (py " HTTP://Example.com:80/a/b?x=1&y#frag?z") =
    Ok {| scheme := py "http"; netloc := py "Example.com:80"; path := py "/a/b";
          query := py "x=1&y"; fragment := py "frag?z" |}.
Proof. reflexivity. Qed.

Example urlsplit_mailto P :
  parse_urlsplit P (py "mailto:a@b.org?subject=x") =
    Ok {| scheme := py "mailto"; netloc := []; path := py "a@b.org";
          query := py "subject=x"; fragment := [] |}.
Proof. reflexivity. Qed.

(** The call of the script, where [urllib.parse] is bound and where it is
    not. *)
Example urlsplit_bound_or_not :
  urlsplit ascii_platform (py "mailto:a@b.org")
  = Ok {| scheme := py "mailto"; netloc := []; path := py "a@b.org";
          query := []; fragment := [] |}
  /\ urlsplit ascii_platform_unloaded (py "mailto:a@b.org") = Raise AttributeError.
Proof. split; reflexivity. Qed.

Example urlunsplit_ex :
  urlunsplit ascii_platform (py "http") [] (py "/foo") [] (py "f") = py "http:///foo#f"
  /\ urlunsplit ascii_platform [] [] (py "///path") [] [] = py "/////path"
  /\ urlunsplit ascii_platform (py "mailto") [] (py "a@b.org") (py "s=x") []
     = py "mailto:a@b.org?s=x".
Proof. repeat split; reflexivity. Qed.

(** The three forms of the netloc step, on a path with four slashes and on
    a relative path after [http]. *)
Example urlunsplit_forms :
  map (fun rule => urlunsplit (ascii_platform_with rule USES_NETLOC) [] [] (py "////x") [] [])
      [SlashesDropped; SlashesKept; RelativeKept]
  = [py "////x"; py "//////x"; py "//////x"]
  /\ map (fun rule => urlunsplit (ascii_platform_with rule USES_NETLOC)
                                 (py "http") [] (py "x") [] [])
         [SlashesDropped; SlashesKept; RelativeKept]
     = [py "http:///x"; py "http:///x"; py "http:x"].
Proof. split; reflexivity. Qed.

Lemma ltb_true a b : a < b -> (a <? b) = true.
Proof. apply N.ltb_lt. Qed.
Lemma ltb_false a b : b <= a -> (a <? b) = false.
Proof. apply N.ltb_ge. Qed.

Lemma in_range_true lo hi b : lo <= b <= hi -> in_range lo hi b = true.
Proof. intros. unfold in_range. apply andb_true_iff. split; apply N.leb_le; lia. Qed.

Lemma second_ok_true b0 b1 :
  (b0 = 0xE0 -> 0xA0 <= b1) -> (b0 = 0xED -> b1 <= 0x9F) ->
  (b0 = 0xF0 -> 0x90 <= b1) -> (b0 = 0xF4 -> b1 <= 0x8F) ->
  0x80 <= b1 <= 0xBF -> second_ok b0 b1 = true.
Proof.
  intros HE0 HED HF0 HF4 Hc. unfold second_ok.
  repeat match goal with
         | |- context [?x =? ?y] => destruct (N.eqb_spec x y)
         end; apply in_range_true; lia.
Qed.

Lemma utf8_decode_2 b0 b1 rest :
  0xC2 <= b0 < 0xE0 -> 0x80 <= b1 <= 0xBF ->
  utf8_decode (b0 :: b1 :: rest) = ((b0 - 0xC0) * 64 + (b1 - 0x80)) :: utf8_decode rest.
Proof.
  intros H0 H1. cbn [utf8_decode].
  rewrite (ltb_false b0 128), (ltb_false b0 194), (ltb_true b0 224) by lia.
  rewrite (in_range_true _ _ b1) by lia. reflexivity.
Qed.

Lemma utf8_decode_3 b0 b1 b2 rest :
  0xE0 <= b0 < 0xF0 -> second_ok b0 b1 = true -> 0x80 <= b2 <= 0xBF ->
  utf8_decode (b0 :: b1 :: b2 :: rest) =
    ((b0 - 0xE0) * 4096 + (b1 - 0x80) * 64 + (b2 - 0x80)) :: utf8_decode rest.
Proof.
  intros H0 H1 H2. cbn [utf8_decode].
  rewrite (ltb_false b0 128), (ltb_false b0 194), (ltb_false b0 224),
    (ltb_true b0 240) by lia.
  rewrite H1, (in_range_true _ _ b2) by lia. reflexivity.
Qed.

Lemma utf8_decode_4 b0 b1 b2 b3 rest :
  0xF0 <= b0 < 0xF5 -> second_ok b0 b1 = true ->
  0x80 <= b2 <= 0xBF -> 0x80 <= b3 <= 0xBF ->
  utf8_decode (b0 :: b1 :: b2 :: b3 :: rest) =
    ((b0 - 0xF0) * 262144 + (b1 - 0x80) * 4096 + (b2 - 0x80) * 64 + (b3 - 0x80))
      :: utf8_decode rest.
Proof.
  intros H0 H1 H2 H3. cbn [utf8_decode].
  rewrite (ltb_false b0 128), (ltb_false b0 194), (ltb_false b0 224),
    (ltb_false b0 240), (ltb_true b0 245) by lia.
  rewrite H1, (in_range_true _ _ b2), (in_range_true _ _ b3) by lia. reflexivity.
Qed.

Lemma utf8_decode_encode_char c e rest :
  utf8_encode_char c = Some e -> utf8_decode (e ++ rest) = c :: utf8_decode rest.
Proof.
  unfold utf8_encode_char.
  destruct (c <? 128) eqn:H1.
  { intros [= <-]. simpl. rewrite H1. reflexivity. }
  destruct (c <? 2048) eqn:H2.
  { intros [= <-]. bool_to_prop. cbn [app].
    rewrite utf8_decode_2 by lia. f_equal. lia. }
  destruct (c <? 65536) eqn:H3.
  { destruct ((55296 <=? c) && (c <=? 57343)) eqn:H4; [discriminate|].
    intros [= <-]. bool_to_prop; cbn [app].
    all: rewrite utf8_decode_3; [f_equal; lia | lia | apply second_ok_true; lia | lia]. }
  destruct (c <? 1114112) eqn:H4; [|discriminate].
  intros [= <-]. bool_to_prop. cbn [app].
  rewrite utf8_decode_4; [f_equal; lia | lia | apply second_ok_true; lia | lia | lia].
Qed.

Lemma utf8_decode_encode s bs : utf8_encode s = Some bs -> utf8_decode bs = s.
Proof.
  revert bs. induction s as [|c s IH]; intros bs.
  - intros [= <-]. reflexivity.
  - cbn [utf8_encode]. destruct (utf8_encode_char c) as [e|] eqn:He; [|discriminate].
    destruct (utf8_encode s) as [b|]; [|discriminate].
    intros [= <-]. rewrite (utf8_decode_encode_char _ _ _ He). f_equal. auto.
Qed.

(** *** Searching and splitting *)

Lemma str_find_None c (s : str) : str_find c s = None <-> c ∉ s.
Proof.
  induction s as [|x s IH]; simpl.
  - split; [intros _; apply not_elem_of_nil | done].
  - destruct (N.eqb_spec x c) as [->|Hne].
    + split; [done | intros []; apply elem_of_cons; auto].
    + rewrite not_elem_of_cons. destruct (str_find c s); simpl.
      * split; [done | intros [_ H]; apply IH in H; done].
      * split; [intros _; split; [congruence | apply IH; done] | done].
Qed.

Lemma str_find_app c (a b : str) : c ∉ a -> str_find c (a ++ c :: b) = Some (length a).
Proof.
  induction a as [|x a IH]; simpl; intros Hn.
  - rewrite N.eqb_refl. done.
  - apply not_elem_of_cons in Hn as [Hne Hn].
    destruct (N.eqb_spec x c); [congruence|]. rewrite IH by done. done.
Qed.

Lemma str_find_app_notin c (a b : str) :
  c ∉ a -> str_find c (a ++ b) = (fun i => (length a + i)%nat) <$> str_find c b.
Proof.
  induction a as [|x a IH]; simpl; intros Hn.
  - destruct (str_find c b); done.
  - apply not_elem_of_cons in Hn as [Hne Hn].
    destruct (N.eqb_spec x c); [congruence|]. rewrite IH by done.
    destruct (str_find c b); done.
Qed.

Lemma str_find_Some c (s : str) i :
  str_find c s = Some i -> s = take i s ++ c :: drop (S i) s /\ c ∉ take i s.
Proof.
  revert i. induction s as [|x s IH]; simpl; intros i; [done|].
  destruct (N.eqb_spec x c) as [->|Hne].
  - intros [= <-]. simpl. rewrite drop_0. split; [done | apply not_elem_of_nil].
  - destruct (str_find c s) as [j|] eqn:Hj; simpl; [|done].
    intros [= <-]. destruct (IH j eq_refl) as [He Hn]. simpl. split.
    + f_equal. exact He.
    + apply not_elem_of_cons. split; [congruence | done].
Qed.

Lemma drop_S_app {A} (a : list A) c b : drop (S (length a)) (a ++ c :: b) = b.
Proof. induction a; simpl; auto. Qed.

Lemma str_split1_app c (a b : str) : c ∉ a -> str_split1 c (a ++ c :: b) = (a, Some b).
Proof.
  intros Hn. unfold str_split1. rewrite str_find_app by done.
  rewrite take_app_length, drop_S_app. done.
Qed.

Lemma str_split1_notin c (s : str) : c ∉ s -> str_split1 c s = (s, None).
Proof. intros Hn. unfold str_split1. apply str_find_None in Hn. rewrite Hn. done. Qed.

Lemma str_split1_Some c (s a b : str) :
  str_split1 c s = (a, Some b) -> s = a ++ c :: b /\ c ∉ a.
Proof.
  unfold str_split1. destruct (str_find c s) as [i|] eqn:Hi; [|done].
  intros [= <- <-]. apply str_find_Some. done.
Qed.

Lemma str_split1_None c (s a : str) :
  str_split1 c s = (a, None) -> a = s /\ c ∉ s.
Proof.
  unfold str_split1. destruct (str_find c s) as [i|] eqn:Hi; [done|].
  intros [= <-]. split; [done | apply str_find_None; done].
Qed.

Lemma str_contains_false c (s : str) : str_contains c s = false <-> c ∉ s.
Proof.
  unfold str_contains. induction s as [|x s IH]; simpl.
  - split; [intros _; apply not_elem_of_nil | done].
  - rewrite orb_false_iff, not_elem_of_cons, IH.
    destruct (N.eqb_spec c x) as [->|Hne]; split; intros [H1 H2]; done.
Qed.

Lemma str_contains_true c (s : str) : str_contains c s = true <-> c ∈ s.
Proof.
  destruct (str_contains c s) eqn:E.
  - split; [|done]. intros _. destruct (decide (c ∈ s)); [done|].
    apply str_contains_false in n. congruence.
  - apply str_contains_false in E. split; [done | intros; done].
Qed.

(** A text is its longest prefix free of [p] followed by nothing or by a
    character satisfying [p]. *)
Lemma break_at (p : char -> bool) (s : str) :
  exists a b, s = a ++ b /\ forallb (fun c => negb (p c)) a = true
              /\ match b with [] => True | c :: _ => p c = true end.
Proof.
  induction s as [|x s (a & b & -> & Ha & Hb)].
  - exists [], []. done.
  - destruct (p x) eqn:Hx.
    + exists [], (x :: a ++ b). done.
    + exists (x :: a), b. simpl. rewrite Hx, Ha. done.
Qed.

Lemma no_delim_notin (a : str) :
  forallb (fun c => negb (is_delim c)) a = true -> (47 ∉ a) /\ (63 ∉ a) /\ (35 ∉ a).
Proof.
  induction a as [|x a IH]; simpl.
  - intros _. repeat split; apply not_elem_of_nil.
  - intros [Hx Ha]%andb_true_iff. destruct (IH Ha) as (H1 & H2 & H3).
    unfold is_delim in Hx. rewrite !not_elem_of_cons.
    apply negb_true_iff in Hx. bool_to_prop. done.
Qed.

Lemma notin_no_delim (a : str) :
  47 ∉ a -> 63 ∉ a -> 35 ∉ a -> forallb (fun c => negb (is_delim c)) a = true.
Proof.
  induction a as [|x a IH]; simpl; [done|].
  rewrite !not_elem_of_cons. intros [? ?] [? ?] [? ?].
  rewrite IH by done. unfold is_delim.
  destruct (N.eqb_spec x 47), (N.eqb_spec x 63), (N.eqb_spec x 35); done.
Qed.

Lemma str_find_from_app c (pre a b : str) :
  str_find_from c (pre ++ a ++ b) (length pre) =
    (fun i => (length pre + i)%nat) <$> str_find c (a ++ b).
Proof. unfold str_find_from. rewrite drop_app_length. done. Qed.

Lemma splitnetloc_app (pre loc rest : str) :
  length pre = 2%nat ->
  forallb (fun c => negb (is_delim c)) loc = true ->
  match rest with [] => True | c :: _ => is_delim c = true end ->
  splitnetloc (pre ++ loc ++ rest) 2 = (loc, rest).
Proof.
  intros Hpre Hloc Hrest. unfold splitnetloc.
  destruct (no_delim_notin _ Hloc) as (H1 & H2 & H3).
  assert (Hd : fold_left (fun delim c =>
                 match str_find_from c (pre ++ loc ++ rest) 2 with
                 | Some wdelim => Nat.min delim wdelim
                 | None => delim
                 end) (py "/?#") (length (pre ++ loc ++ rest)) = (2 + length loc)%nat).
  { rewrite <- Hpre. change (py "/?#") with [47; 63; 35]. cbn [fold_left].
    rewrite !str_find_from_app.
    rewrite !str_find_app_notin by done.
    rewrite !length_app.
    destruct rest as [|d rest]; simpl.
    - lia.
    - unfold is_delim in Hrest.
      destruct (N.eqb_spec d 47), (N.eqb_spec d 63), (N.eqb_spec d 35);
        try discriminate; simpl;
        repeat match goal with
               | |- context [str_find ?c ?r] => destruct (str_find c r); simpl
               end; lia. }
  assert (Hdrop : drop 2 (pre ++ loc ++ rest) = loc ++ rest)
    by (rewrite <- Hpre; apply drop_app_length).
  rewrite Hd, <- drop_drop, Hdrop.
  replace (2 + length loc - 2)%nat with (length loc) by lia.
  rewrite take_app_length, drop_app_length. done.
Qed.

Lemma splitnetloc_inv (url loc rest : str) :
  (2 <= length url)%nat ->
  splitnetloc url 2 = (loc, rest) ->
  url = take 2 url ++ loc ++ rest
  /\ forallb (fun c => negb (is_delim c)) loc = true
  /\ match rest with [] => True | c :: _ => is_delim c = true end.
Proof.
  intros Hlen Hs.
  destruct (break_at is_delim (drop 2 url)) as (a & b & Hab & Ha & Hb).
  assert (Hu : url = take 2 url ++ a ++ b) by (rewrite <- Hab, take_drop; done).
  rewrite Hu in Hs. rewrite splitnetloc_app in Hs; [| rewrite length_take; lia | done | done].
  injection Hs as <- <-. done.
Qed.

(** *** The scheme *)

Lemma scheme_char_notin (pre : str) c :
  forallb scheme_char pre = true -> scheme_char c = false -> c ∉ pre.
Proof.
  intros Hall Hc Hin. rewrite forallb_forall in Hall.
  apply list_elem_of_In in Hin. apply Hall in Hin. congruence.
Qed.

Lemma is_scheme_inv pre :
  is_scheme pre = true ->
  exists c0 t, pre = c0 :: t /\ is_ascii_alpha c0 = true /\ forallb scheme_char pre = true.
Proof.
  destruct pre as [|c0 t]; [done|]. unfold is_scheme.
  intros [? ?]%andb_true_iff. eauto.
Qed.

Lemma split_scheme_app pre rest :
  is_scheme pre = true ->
  split_scheme (pre ++ 58 :: rest) = (map ascii_lower_char pre, rest).
Proof.
  intros Hs. destruct (is_scheme_inv _ Hs) as (c0 & t & -> & Ha & Hall).
  unfold split_scheme.
  rewrite str_find_app by (apply scheme_char_notin; done).
  cbn [length app]. rewrite Ha.
  change (c0 :: t ++ 58 :: rest) with ((c0 :: t) ++ 58 :: rest).
  replace (take (S (length t)) ((c0 :: t) ++ 58 :: rest)) with (c0 :: t)
    by (symmetry; apply (take_app_length (c0 :: t))).
  rewrite Hall. cbn [andb].
  rewrite (drop_S_app (c0 :: t)). done.
Qed.

Lemma split_scheme_cases url :
  (exists pre rest, is_scheme pre = true /\ url = pre ++ 58 :: rest)
  \/ (split_scheme url = ([], url) /\ no_scheme url).
Proof.
  unfold split_scheme.
  destruct (str_find 58 url) as [i|] eqn:Hf.
  - destruct (str_find_Some _ _ _ Hf) as [Hu Hn].
    destruct (is_scheme (take i url)) eqn:Hs.
    + left. eauto.
    + right.
      assert (Hno : no_scheme url).
      { intros pre r Hpr. rewrite Hpr in Hf.
        destruct (decide (58 ∈ pre)) as [Hin|Hnin].
        - destruct (is_scheme pre) eqn:Hp; [|done].
          destruct (is_scheme_inv _ Hp) as (c0 & t & -> & Ha & Hall).
          exfalso. revert Hin. apply scheme_char_notin; done.
        - rewrite str_find_app in Hf by done. injection Hf as <-.
          rewrite Hpr, take_app_length in Hs. done. }
      split; [|done].
      destruct i as [|i]; [destruct url; done|].
      destruct url as [|c0 url']; [done|].
      change (is_scheme (take (S i) (c0 :: url'))) with
        (is_ascii_alpha c0 && forallb scheme_char (take (S i) (c0 :: url'))) in Hs.
      rewrite Hs. done.
  - right. split; [destruct url; done|].
    intros pre r ->. apply str_find_None in Hf.
    exfalso. apply Hf. apply elem_of_app. right. apply elem_of_cons. auto.
Qed.

Lemma split_scheme_no url : no_scheme url -> split_scheme url = ([], url).
Proof.
  intros Hno. destruct (split_scheme_cases url) as [(pre & rest & Hs & ->)|[H _]]; [|done].
  rewrite (Hno pre rest eq_refl) in Hs. done.
Qed.

Lemma split_scheme_inv url sch rest :
  split_scheme url = (sch, rest) ->
  (exists pre, is_scheme pre = true /\ url = pre ++ 58 :: rest /\ sch = map ascii_lower_char pre)
  \/ (sch = [] /\ rest = url /\ no_scheme url).
Proof.
  intros H. destruct (split_scheme_cases url) as [(pre & r & Hs & ->)|[H' Hno]].
  - rewrite split_scheme_app in H by done. injection H as <- <-. left. eauto.
  - rewrite H' in H. injection H as <- <-. right. done.
Qed.

Lemma ascii_lower_char_idem c : ascii_lower_char (ascii_lower_char c) = ascii_lower_char c.
Proof. unfold ascii_lower_char, is_ascii_upper. case_cmp. Qed.

Lemma ascii_lower_char_alpha c : is_ascii_alpha (ascii_lower_char c) = is_ascii_alpha c.
Proof.
  unfold ascii_lower_char, is_ascii_alpha, is_ascii_upper, is_ascii_lower. case_cmp.
Qed.

Lemma ascii_lower_char_scheme c : scheme_char (ascii_lower_char c) = scheme_char c.
Proof.
  unfold scheme_char, ascii_lower_char, is_ascii_alpha, is_ascii_upper, is_ascii_lower,
    is_ascii_digit.
  case_cmp.
Qed.

Lemma is_scheme_lower pre : is_scheme pre = true -> is_scheme (map ascii_lower_char pre) = true.
Proof.
  intros Hs. destruct (is_scheme_inv _ Hs) as (c0 & t & -> & Ha & Hall).
  unfold is_scheme. cbn [map]. rewrite ascii_lower_char_alpha, Ha. cbn [andb].
  change (ascii_lower_char c0 :: map ascii_lower_char t) with (map ascii_lower_char (c0 :: t)).
  rewrite forallb_forall in Hall. apply forallb_forall. intros x Hx.
  apply in_map_iff in Hx as (y & <- & Hy). rewrite ascii_lower_char_scheme. auto.
Qed.

Lemma map_lower_idem (s : str) :
  map ascii_lower_char (map ascii_lower_char s) = map ascii_lower_char s.
Proof. rewrite map_map. apply map_ext. intros. apply ascii_lower_char_idem. Qed.

(** *** What precedes the query *)

Lemma prefix_before_tail (a t pre r : str) c :
  a ++ t = pre ++ c :: r ->
  match t with [] => True | x :: _ => (x ∉ pre) /\ x <> c end ->
  exists r', a = pre ++ c :: r'.
Proof.
  revert pre. induction a as [|x a IH]; intros pre Heq Ht.
  - simpl in Heq. subst t. destruct pre as [|y pre]; simpl in Ht.
    + destruct Ht as [_ []]. done.
    + destruct Ht as [Hn _]. exfalso. apply Hn. apply elem_of_cons. auto.
  - destruct pre as [|y pre]; simpl in Heq.
    + injection Heq as -> <-. exists a. done.
    + injection Heq as -> Heq. destruct (IH pre Heq) as [r' ->].
      * destruct t; [done|]. destruct Ht as [Hn Hc]. split; [|done].
        intros Hin. apply Hn. apply elem_of_cons. auto.
      * exists r'. done.
Qed.

Lemma no_scheme_tail (a t t' : str) :
  no_scheme (a ++ t) -> tail_ok t' -> no_scheme (a ++ t').
Proof.
  intros Hno Ht' pre r Heq.
  destruct (is_scheme pre) eqn:Hs; [|done].
  destruct (is_scheme_inv _ Hs) as (c0 & p & Hp & Ha & Hall).
  destruct (prefix_before_tail a t' pre r 58 Heq) as [r' ->].
  { destruct t' as [|x t']; [done|]. simpl in Ht'.
    split; [|destruct Ht'; subst; done].
    apply scheme_char_notin; [done|]. destruct Ht'; subst; done. }
  rewrite <- (Hno pre (r' ++ t)); [done|]. rewrite <- app_assoc. done.
Qed.

Lemma no_scheme_head (s : str) :
  match s with [] => True | c :: _ => is_ascii_alpha c = false end -> no_scheme s.
Proof.
  intros Hs pre r ->. destruct pre as [|c0 pre]; [done|].
  simpl in Hs. unfold is_scheme. rewrite Hs. done.
Qed.

(** *** The clean-up at the start of [urlsplit] *)

Lemma str_remove_id a (s : str) : Forall (fun c => c <> a) s -> str_remove a s = s.
Proof.
  unfold str_remove. induction 1 as [|x s Hx Hs IH]; [done|].
  rewrite filter_cons_True by done. f_equal. done.
Qed.

Lemma str_remove_Forall a (s : str) : Forall (fun c => c <> a) (str_remove a s).
Proof. unfold str_remove. apply Forall_forall. intros x [? ?]%list_elem_of_filter. done. Qed.

Lemma str_remove_keeps a (P : char -> Prop) (s : str) : Forall P s -> Forall P (str_remove a s).
Proof.
  unfold str_remove. rewrite !Forall_forall. intros H x [? ?]%list_elem_of_filter. auto.
Qed.

Lemma url_cleanup_unsafe_free u : unsafe_free (url_cleanup u).
Proof.
  unfold url_cleanup, unsafe_free, UNSAFE_URL_BYTES_TO_REMOVE. cbn [fold_left].
  set (s0 := str_lstrip is_c0_or_space u).
  pose proof (str_remove_Forall 10 (str_remove 13 (str_remove 9 s0))) as H10.
  pose proof (str_remove_keeps 10 _ _ (str_remove_Forall 13 (str_remove 9 s0))) as H13.
  pose proof (str_remove_keeps 10 _ _ (str_remove_keeps 13 _ _ (str_remove_Forall 9 s0))) as H9.
  rewrite Forall_forall in *. intros x Hx. auto.
Qed.

Lemma str_lstrip_head p (s : str) :
  match str_lstrip p s with [] => True | c :: _ => p c = false end.
Proof.
  induction s as [|x s IH]; simpl; [done|]. destruct (p x) eqn:E; [done|]. simpl. done.
Qed.

Lemma str_remove_head a (s : str) :
  is_c0_or_space a = true -> head_visible s -> head_visible (str_remove a s).
Proof.
  intros Ha. destruct s as [|c s]; [done|]. simpl. intros Hc.
  unfold str_remove. rewrite filter_cons_True by congruence. done.
Qed.

Lemma url_cleanup_head u : head_visible (url_cleanup u).
Proof.
  unfold url_cleanup, UNSAFE_URL_BYTES_TO_REMOVE. cbn [fold_left].
  repeat apply str_remove_head; try done. apply (str_lstrip_head is_c0_or_space).
Qed.

Lemma url_cleanup_id s : unsafe_free s -> head_visible s -> url_cleanup s = s.
Proof.
  intros Hu Hh. unfold url_cleanup, UNSAFE_URL_BYTES_TO_REMOVE. cbn [fold_left].
  assert (Hl : str_lstrip is_c0_or_space s = s).
  { destruct s as [|c s]; [done|]. simpl in *. rewrite Hh. done. }
  rewrite Hl. unfold unsafe_free in Hu.
  rewrite (str_remove_id 9) by (eapply Forall_impl; [exact Hu|]; simpl; tauto).
  rewrite (str_remove_id 13) by (eapply Forall_impl; [exact Hu|]; simpl; tauto).
  rewrite (str_remove_id 10) by (eapply Forall_impl; [exact Hu|]; simpl; tauto).
  done.
Qed.

(** *** [urlsplit] after the clean-up *)

Lemma parse_urlsplit_unfold P url : parse_urlsplit P url = urlsplit_clean P (url_cleanup url).
Proof. reflexivity. Qed.

Lemma urlsplit_unfold P url :
  urlsplit P url = urllib_parse P (urlsplit_clean P (url_cleanup url)).
Proof. reflexivity. Qed.

(** A call into [urllib.parse] that returned found the attribute bound. *)
Lemma urllib_parse_Ok {A} P (call : result A) a :
  urllib_parse P call = Ok a -> urllib_parse_bound P = true /\ call = Ok a.
Proof. unfold urllib_parse. destruct (urllib_parse_bound P); done. Qed.

Lemma urllib_parse_bound_eq {A} P (call : result A) :
  urllib_parse_bound P = true -> urllib_parse P call = call.
Proof. unfold urllib_parse. intros ->. done. Qed.

Lemma urlsplit_bound P url p : urlsplit P url = Ok p -> urllib_parse_bound P = true.
Proof. intros [? _]%urllib_parse_Ok. done. Qed.

Lemma take2_length (url : str) : take 2 url = py "//" -> (2 <= length url)%nat.
Proof. destruct url as [|? [|? ?]]; try done. simpl. lia. Qed.

Lemma urlsplit_clean_inv P url0 p :
  urlsplit_clean P url0 = Ok p ->
  exists url1 url2,
    split_shape url0 p url1 url2
    /\ netloc_brackets_invalid P (netloc p) = false
    /\ checknetloc_invalid P (netloc p) = false.
Proof.
  unfold urlsplit_clean.
  destruct (split_scheme url0) as [sch url1] eqn:Hsch.
  destruct (if bool_decide (take 2 url1 = py "//") then splitnetloc url1 2 else ([], url1))
    as [loc url2] eqn:Hloc.
  destruct (netloc_brackets_invalid P loc) eqn:Hbr; [done|].
  destruct (str_split1 35 url2) as [url3 [f|]] eqn:Hf.
  - apply str_split1_Some in Hf as [-> Hn35].
    destruct (str_split1 63 url3) as [pth [q|]] eqn:Hq.
    + apply str_split1_Some in Hq as [-> Hn63].
      destruct (checknetloc_invalid P loc) eqn:Hck; [done|].
      intros [= <-]. exists url1, ((pth ++ 63 :: q) ++ 35 :: f). split; [|done].
      apply not_elem_of_app in Hn35 as [Hp35 _].
      split; cbn [scheme netloc path query fragment]; try done.
      * case_bool_decide as Ht.
        -- left. apply splitnetloc_inv in Hloc as (Hu & ? & ?).
           ++ rewrite Ht in Hu. done.
           ++ apply take2_length. done.
        -- right. injection Hloc as <- <-. done.
      * exists (63 :: q ++ 35 :: f). split; [|simpl; auto].
        rewrite <- app_assoc. done.
      * exists (63 :: q), (35 :: f). rewrite <- !app_assoc. auto.
    + apply str_split1_None in Hq as [-> Hn63].
      destruct (checknetloc_invalid P loc) eqn:Hck; [done|].
      intros [= <-]. exists url1, (url3 ++ 35 :: f). split; [|done].
      split; cbn [scheme netloc path query fragment]; try done.
      * case_bool_decide as Ht.
        -- left. apply splitnetloc_inv in Hloc as (Hu & ? & ?).
           ++ rewrite Ht in Hu. done.
           ++ apply take2_length. done.
        -- right. injection Hloc as <- <-. done.
      * exists (35 :: f). simpl; auto.
      * exists [], (35 :: f). auto.
  - apply str_split1_None in Hf as [-> Hn35].
    destruct (str_split1 63 url2) as [pth [q|]] eqn:Hq.
    + apply str_split1_Some in Hq as [-> Hn63].
      destruct (checknetloc_invalid P loc) eqn:Hck; [done|].
      intros [= <-]. exists url1, (pth ++ 63 :: q). split; [|done].
      apply not_elem_of_app in Hn35 as [Hp35 _].
      split; cbn [scheme netloc path query fragment]; try done.
      * case_bool_decide as Ht.
        -- left. apply splitnetloc_inv in Hloc as (Hu & ? & ?).
           ++ rewrite Ht in Hu. done.
           ++ apply take2_length. done.
        -- right. injection Hloc as <- <-. done.
      * exists (63 :: q). simpl; auto.
      * exists (63 :: q), []. rewrite app_nil_r. auto.
    + apply str_split1_None in Hq as [-> Hn63].
      destruct (checknetloc_invalid P loc) eqn:Hck; [done|].
      intros [= <-]. exists url1, url2. split; [|done].
      split; cbn [scheme netloc path query fragment]; try done.
      * case_bool_decide as Ht.
        -- left. apply splitnetloc_inv in Hloc as (Hu & ? & ?).
           ++ rewrite Ht in Hu. done.
           ++ apply take2_length. done.
        -- right. injection Hloc as <- <-. done.
      * exists []. rewrite app_nil_r. done.
      * exists [], []. rewrite !app_nil_r. auto.
Qed.

(** *** Where the query comes from *)

Lemma query_marked_before_fragment (u : str) : query_marked u -> 63 ∈ before_fragment u.
Proof.
  intros (a & b & -> & Ha). unfold before_fragment.
  destruct (decide (35 ∈ b)) as [Hb|Hb].
  - apply list_elem_of_split_l in Hb as (b1 & b2 & -> & Hb1).
    replace (a ++ 63 :: b1 ++ 35 :: b2) with ((a ++ 63 :: b1) ++ 35 :: b2)
      by (rewrite <- app_assoc; done).
    rewrite str_split1_app.
    + cbn [fst]. apply elem_of_app. right. apply elem_of_cons. auto.
    + apply not_elem_of_app. split; [done|]. apply not_elem_of_cons. done.
  - rewrite str_split1_notin.
    + cbn [fst]. apply elem_of_app. right. apply elem_of_cons. auto.
    + apply not_elem_of_app. split; [done|]. apply not_elem_of_cons. done.
Qed.

Lemma query_marked_cons c (u : str) : c <> 35 -> query_marked u -> query_marked (c :: u).
Proof.
  intros Hc (a & b & -> & Ha). exists (c :: a), b. split; [done|].
  apply not_elem_of_cons. done.
Qed.

Lemma query_marked_remove x (u : str) :
  x <> 35 -> query_marked (str_remove x u) -> query_marked u.
Proof.
  intros Hx. unfold str_remove. induction u as [|y u IH].
  - intros (a & b & H & _). destruct a; done.
  - destruct (decide (y = x)) as [->|Hy].
    + rewrite filter_cons_False by (intros H; apply H; reflexivity).
      intros H. apply query_marked_cons; auto.
    + rewrite filter_cons_True by done. intros (a & b & H & Ha).
      destruct a as [|c a]; simpl in H.
      * injection H as -> _. exists [], u. split; [done | apply not_elem_of_nil].
      * injection H as -> H. apply not_elem_of_cons in Ha as [Hc Ha].
        apply query_marked_cons; [done|]. apply IH. exists a, b. done.
Qed.

Lemma query_marked_lstrip (u : str) :
  query_marked (str_lstrip is_c0_or_space u) -> query_marked u.
Proof.
  induction u as [|y u IH]; [done|]. simpl.
  destruct (is_c0_or_space y) eqn:Hy; [|done].
  intros H. apply query_marked_cons; [|auto]. intros ->. done.
Qed.

Lemma query_marked_cleanup (u : str) : query_marked (url_cleanup u) -> query_marked u.
Proof.
  unfold url_cleanup, UNSAFE_URL_BYTES_TO_REMOVE. cbn [fold_left]. intros H.
  apply query_marked_lstrip.
  apply (query_marked_remove 9); [done|]. apply (query_marked_remove 13); [done|].
  apply (query_marked_remove 10); done.
Qed.

Lemma urlsplit_clean_query P url0 p :
  urlsplit_clean P url0 = Ok p -> query p <> [] -> query_marked url0.
Proof.
  unfold urlsplit_clean.
  destruct (split_scheme url0) as [sch url1] eqn:Hsch.
  destruct (if bool_decide (take 2 url1 = py "//") then splitnetloc url1 2 else ([], url1))
    as [loc url2] eqn:Hloc.
  destruct (netloc_brackets_invalid P loc); [done|].
  assert (Hq : query_marked url2 -> query_marked url0).
  { intros (a & b & -> & Ha).
    assert (query_marked url1) as (a1 & b1 & -> & Ha1).
    { case_bool_decide as Ht.
      - apply splitnetloc_inv in Hloc as (Hu & Hl & _); [|apply take2_length; done].
        rewrite Ht in Hu. apply no_delim_notin in Hl as (_ & _ & Hl).
        exists (py "//" ++ loc ++ a), b. rewrite Hu, <- !app_assoc. split; [done|].
        rewrite !not_elem_of_app. repeat split; try done.
        change (py "//") with [47; 47]. rewrite !not_elem_of_cons. repeat split; try done.
        apply not_elem_of_nil.
      - injection Hloc as _ ->. exists a, b. done. }
    apply split_scheme_inv in Hsch as [(pre & Hs & -> & _)|(_ & <- & _)]; [|exists a1, b1; done].
    destruct (is_scheme_inv _ Hs) as (c0 & t & _ & _ & Hall).
    exists (pre ++ 58 :: a1), b1. rewrite <- app_assoc. split; [done|].
    apply not_elem_of_app. split; [apply scheme_char_notin; done|].
    apply not_elem_of_cons. done. }
  destruct (str_split1 35 url2) as [url3 [f|]] eqn:Hf.
  - apply str_split1_Some in Hf as [-> Hn35].
    destruct (str_split1 63 url3) as [pth [q|]] eqn:Hq3;
      (destruct (checknetloc_invalid P loc); [done|]); intros [= <-]; [|done].
    intros _. apply Hq. apply str_split1_Some in Hq3 as [-> _].
    exists pth, (q ++ 35 :: f). rewrite <- app_assoc. split; [done|].
    apply not_elem_of_app in Hn35 as [? _]. done.
  - apply str_split1_None in Hf as [-> Hn35].
    destruct (str_split1 63 url2) as [pth [q|]] eqn:Hq3;
      (destruct (checknetloc_invalid P loc); [done|]); intros [= <-]; [|done].
    intros _. apply Hq. apply str_split1_Some in Hq3 as [-> _].
    exists pth, q. split; [done|]. apply not_elem_of_app in Hn35 as [? _]. done.
Qed.

(** A link with a query has a question mark before any fragment mark. *)
Lemma urlsplit_query_mark P link p :
  urlsplit P link = Ok p -> query p <> [] -> 63 ∈ before_fragment link.
Proof.
  rewrite urlsplit_unfold. intros [_ H]%urllib_parse_Ok Hq.
  apply query_marked_before_fragment, query_marked_cleanup.
  eapply urlsplit_clean_query; done.
Qed.

(** *** What [urlsplit] guarantees of its result *)

Lemma delim_head_rooted (pth t0 : str) :
  delim_head (pth ++ t0) -> 63 ∉ pth -> 35 ∉ pth -> path_rooted pth.
Proof.
  destruct pth as [|c pth]; [left; done|].
  simpl. intros Hd H63 H35. right. exists pth. f_equal.
  apply not_elem_of_cons in H63 as [? _]. apply not_elem_of_cons in H35 as [? _].
  unfold is_delim in Hd.
  destruct (N.eqb_spec c 47); [done|].
  destruct (N.eqb_spec c 63); [done|]. destruct (N.eqb_spec c 35); done.
Qed.

Lemma is_scheme_unsafe_free s : is_scheme s = true -> unsafe_free s.
Proof.
  intros Hs. destruct (is_scheme_inv _ Hs) as (c0 & t & -> & _ & Hall).
  rewrite forallb_forall in Hall. apply Forall_forall. intros x Hx.
  apply list_elem_of_In in Hx. apply Hall in Hx.
  repeat split; intros ->; done.
Qed.

Lemma rooted_tail_no_scheme (pth t' : str) :
  path_rooted pth -> tail_ok t' -> no_scheme (pth ++ t').
Proof.
  intros [->|[t ->]] Ht; apply no_scheme_head; simpl.
  - destruct t'; [done|]. destruct Ht; subst; done.
  - done.
Qed.

Lemma urlsplit_facts P u p : urlsplit P u = Ok p -> split_facts P p.
Proof.
  rewrite urlsplit_unfold. intros [_ H]%urllib_parse_Ok.
  pose proof (url_cleanup_unsafe_free u) as Hun.
  pose proof (url_cleanup_head u) as Hhd.
  set (url0 := url_cleanup u) in *.
  destruct (urlsplit_clean_inv _ _ _ H) as (url1 & url2 & [Hsch Hnet Htail Hpath Hparts] & Hbr & Hck).
  destruct Htail as (t0 & Hu2 & Ht0). destruct Hpath as [H63 H35].
  destruct Hparts as (q0 & f0 & Hu2' & Hf0 & Hf0').
  apply split_scheme_inv in Hsch.
  (* the characters of the text after the scheme, and of its parts *)
  assert (Hun1 : unsafe_free url1).
  { destruct Hsch as [(pre & _ & Hu0 & _)|(_ & -> & _)]; [|done].
    unfold unsafe_free in *. rewrite Hu0 in Hun.
    apply Forall_app in Hun as [_ Hun]. apply Forall_cons in Hun as [_ Hun]. done. }
  assert (Hun2 : unsafe_free url2 /\ unsafe_free (netloc p)).
  { destruct Hnet as [(_ & Hu1 & _)|(_ & -> & ->)]; [|split; [done|apply Forall_nil_2]].
    unfold unsafe_free in *. rewrite Hu1 in Hun1.
    apply Forall_app in Hun1 as [_ Hun1]. apply Forall_app in Hun1 as [? ?]. done. }
  destruct Hun2 as [Hun2 Hunl].
  assert (Hunp : unsafe_free (path p) /\ unsafe_free (fragment p)).
  { unfold unsafe_free in *. rewrite Hu2' in Hun2.
    apply Forall_app in Hun2 as [? Hun2]. apply Forall_app in Hun2 as [_ Hun2].
    split; [done|]. destruct Hf0' as [->| ->]; [apply Forall_nil_2|].
    apply Forall_cons in Hun2 as [_ ?]. done. }
  destruct Hunp as [Hunp Hunf].
  split; try done.
  - destruct Hsch as [(pre & Hs & _ & ->)|(-> & _)]; [right|left; done].
    split; [apply is_scheme_lower; done | apply map_lower_idem].
  - destruct Hnet as [(_ & _ & ? & _)|(_ & -> & _)]; done.
  - intros Hne. destruct Hnet as [(_ & _ & _ & Hd)|(_ & ? & _)]; [|done].
    rewrite Hu2 in Hd. eapply delim_head_rooted; done.
  - intros Hs Hl t' Ht'.
    destruct Hsch as [(pre & Hpre & _ & Hmap)|(_ & -> & Hno)].
    { rewrite Hs in Hmap. destruct pre; done. }
    destruct Hnet as [(_ & _ & _ & Hd)|(_ & _ & ->)].
    + apply rooted_tail_no_scheme; [|done].
      rewrite Hu2 in Hd. eapply delim_head_rooted; done.
    + rewrite Hu2 in Hno. eapply no_scheme_tail; done.
  - intros Hs Hl.
    destruct Hsch as [(pre & Hpre & _ & Hmap)|(_ & -> & Hno)].
    { rewrite Hs in Hmap. destruct pre; done. }
    destruct Hnet as [(_ & _ & _ & Hd)|(_ & _ & ->)].
    + rewrite Hu2 in Hd.
      destruct (delim_head_rooted _ _ Hd H63 H35) as [->|[t ->]]; done.
    + rewrite Hu2 in Hhd. destruct (path p); done.
  - repeat split; try done.
    destruct Hsch as [(pre & Hs & _ & ->)|(-> & _)]; [|apply Forall_nil_2].
    apply is_scheme_unsafe_free, is_scheme_lower. done.
Qed.

(** *** [urlunsplit], part by part *)

Lemma nonempty_false (s : str) : nonempty s = false <-> s = [].
Proof. destruct s; done. Qed.

Lemma nonempty_true (s : str) : nonempty s = true <-> s <> [].
Proof. destruct s; done. Qed.

Lemma rooted_id (pth : str) : path_rooted pth -> rooted pth = pth.
Proof. intros [->|[t ->]]; done. Qed.

Lemma rooted_path_rooted (pth : str) : path_rooted (rooted pth).
Proof.
  unfold rooted. destruct pth as [|c t]; [left; done|]. cbn [nonempty andb].
  destruct (bool_decide_reflect (take 1 (c :: t) = py "/")) as [H|H]; cbn [negb].
  - right. exists t. injection H as ->. done.
  - right. exists (c :: t). done.
Qed.

Lemma rooted_take2 (pth : str) : take 2 pth <> py "//" -> take 2 (rooted pth) <> py "//".
Proof.
  unfold rooted. destruct pth as [|c t]; [done|]. cbn [nonempty andb].
  destruct (bool_decide_reflect (take 1 (c :: t) = py "/")) as [H|H]; cbn [negb]; [done|].
  intros _ [= ->]. apply H. done.
Qed.

Lemma take2_rooted (pth : str) : take 2 pth = py "//" -> rooted pth = pth.
Proof. intros H. apply rooted_id. right. destruct pth as [|c t]; [done|]. injection H as -> _. eauto. Qed.

(** [urlunsplit] writes the scheme, the netloc and the path, the query
    and the fragment. *)
Lemma urlunsplit_netpath P sch loc pth q f :
  urlunsplit P sch loc pth q f = spart sch ++ netpath P sch loc pth ++ qpart q ++ fpart f.
Proof.
  unfold urlunsplit. cbv zeta. fold (rooted pth). fold (scheme_uses_netloc P sch).
  fold (netpath P sch loc pth). unfold spart, qpart, fpart.
  change (py ":") with [58]. change (py "?") with [63]. change (py "#") with [35].
  destruct (nonempty sch), (nonempty q), (nonempty f);
    rewrite <- ?app_assoc, ?app_nil_r; reflexivity.
Qed.

Lemma npart_rooted P sch (pth : str) :
  scheme_uses_netloc P sch = true -> npart P sch [] (rooted pth) = [47; 47].
Proof.
  intros Hu. unfold npart. cbn [nonempty]. rewrite Hu. cbn [andb].
  destruct (bool_decide (take 2 (rooted pth) = py "//")); [done|].
  destruct (rooted_path_rooted pth) as [-> | [t ->]]; done.
Qed.

(** What [urlunsplit] writes for the netloc and the path is what stands
    there in a text of the parts as written. *)
Lemma netpath_written P p :
  (netloc p <> [] -> path_rooted (path p)) -> slashes_safe P p ->
  netpath P (scheme p) (netloc p) (path p)
  = npart P (scheme (written P p)) (netloc (written P p)) (path (written P p))
    ++ path (written P p).
Proof.
  intros Hr Hs. unfold netpath, written, slashes_safe in *.
  change (py "//") with [47; 47] in *.
  destruct (nonempty (netloc p)) eqn:Hl.
  - (* with a netloc all forms agree *)
    apply nonempty_true in Hl. rewrite (rooted_id _ (Hr Hl)). cbn [negb andb orb].
    assert (npart P (scheme p) (netloc p) (path p) = [47; 47] ++ netloc p) as Hn.
    { unfold npart. apply nonempty_true in Hl. rewrite Hl. done. }
    destruct (netloc_step P); rewrite Hn, <- app_assoc; reflexivity.
  - apply nonempty_false in Hl. rewrite Hl in *. cbn [negb andb orb app].
    destruct (scheme_uses_netloc P (scheme p)) eqn:Hu; cbn [andb orb negb].
    + destruct (netloc_step P) eqn:Hstep; cbn [scheme netloc path].
      * destruct (bool_decide_reflect (take 2 (path p) = [47; 47])) as [H2|H2].
        { destruct Hs as [?|[?|?]]; done. }
        cbn [negb]. rewrite npart_rooted by done. done.
      * rewrite npart_rooted by done. done.
      * unfold npart. rewrite Hl. cbn [nonempty]. rewrite Hu. cbn [andb].
        change (py "//") with [47; 47].
        destruct (bool_decide (take 2 (path p) = [47; 47])); [done|].
        destruct (negb (nonempty (path p)) || bool_decide (take 1 (path p) = py "/")); done.
    + assert (forall pth, npart P (scheme p) [] pth
                          = if bool_decide (take 2 pth = [47; 47]) then [47; 47] else []) as Hn.
      { intros pth. unfold npart. cbn [nonempty]. rewrite Hu. done. }
      destruct (netloc_step P) eqn:Hstep; rewrite Hl, Hn;
        destruct (bool_decide_reflect (take 2 (path p) = [47; 47])) as [H2|H2];
        rewrite ?(take2_rooted _ H2); try done.
      destruct Hs as [?|[?|?]]; done.
Qed.

Lemma written_cases P p :
  written P p = p
  \/ (netloc p = [] /\ scheme p <> []
      /\ written P p = {| scheme := scheme p; netloc := netloc p; path := rooted (path p);
                          query := query p; fragment := fragment p |}).
Proof.
  unfold written.
  destruct (netloc_step P); [| |left; done];
    (destruct (nonempty (netloc p)) eqn:Hl; cbn [negb andb]; [left; done|];
     destruct (scheme_uses_netloc P (scheme p)) eqn:Hu; [|left; done];
     right; apply nonempty_false in Hl; unfold scheme_uses_netloc in Hu;
     apply andb_true_iff in Hu as [Hu _]; apply nonempty_true in Hu; done).
Qed.

Lemma rooted_cases (pth : str) : rooted pth = pth \/ rooted pth = 47 :: pth.
Proof. unfold rooted. destruct (nonempty pth && _); auto. Qed.

Lemma split_facts_written P p : split_facts P p -> split_facts P (written P p).
Proof.
  intros F. destruct (written_cases P p) as [->|(Hl & Hs & ->)]; [done|].
  destruct F as [Fs Fn Fr [F63 F35] Frest Fh (Us & Ul & Up & Uf) Fb Fc].
  split; cbn [scheme netloc path query fragment]; try done.
  - destruct (rooted_cases (path p)) as [-> | ->]; [done|].
    split; apply not_elem_of_cons; done.
  - destruct (rooted_cases (path p)) as [-> | ->]; [done|].
    repeat split; try done. apply Forall_cons; done.
Qed.

Lemma written_idem P p : written P (written P p) = written P p.
Proof.
  unfold written. destruct (netloc_step P); [| |done];
    (destruct (negb (nonempty (netloc p)) && scheme_uses_netloc P (scheme p)) eqn:H; [|rewrite H; done];
     cbn [scheme netloc path query fragment]; rewrite H;
     rewrite (rooted_id _ (rooted_path_rooted _)); done).
Qed.

Lemma slashes_safe_written P p : slashes_safe P p -> slashes_safe P (written P p).
Proof.
  intros Hs. destruct (written_cases P p) as [->|(Hl & _ & ->)]; [done|].
  unfold slashes_safe in *. cbn [netloc path].
  destruct Hs as [?|[?|?]]; [auto | done |].
  right; right. apply rooted_take2. done.
Qed.

(** [urlunsplit] writes the text of the parts as written. *)
Lemma urlunsplit_joined P p q :
  split_facts P p -> slashes_safe P p ->
  urlunsplit P (scheme p) (netloc p) (path p) q (fragment p) = joined P (written P p) q.
Proof.
  intros F Hs. rewrite urlunsplit_netpath, netpath_written by (done || apply (fact_rooted P p F)).
  unfold joined. rewrite <- app_assoc.
  destruct (written_cases P p) as [->|(_ & _ & ->)]; done.
Qed.

(** Writing the parts as written again gives the same text. *)
Lemma urlunsplit_written P p q :
  split_facts P p -> slashes_safe P p ->
  urlunsplit P (scheme p) (netloc p) (path (written P p)) q (fragment p)
  = urlunsplit P (scheme p) (netloc p) (path p) q (fragment p).
Proof.
  intros F Hs. rewrite (urlunsplit_joined P p) by done.
  rewrite <- (written_idem P p) at 2.
  rewrite <- (urlunsplit_joined P (written P p))
    by (apply split_facts_written || apply slashes_safe_written; done).
  destruct (written_cases P p) as [->|(_ & _ & ->)]; done.
Qed.

Lemma tail_ok_parts q f : tail_ok (qpart q ++ fpart f).
Proof. unfold qpart, fpart. destruct q, f; simpl; auto. Qed.

Lemma split_fragment (pth q f : str) :
  35 ∉ pth -> 35 ∉ q ->
  match str_split1 35 (pth ++ qpart q ++ fpart f) with
  | (u, Some f') => (u, f')
  | (u, None) => (u, [])
  end = (pth ++ qpart q, f).
Proof.
  intros Hp Hq.
  assert (Hn : 35 ∉ pth ++ qpart q).
  { apply not_elem_of_app. split; [done|]. unfold qpart. destruct (nonempty q); [|apply not_elem_of_nil].
    apply not_elem_of_cons. done. }
  unfold fpart. destruct f as [|c f]; cbn [nonempty].
  - rewrite app_nil_r, str_split1_notin by done. done.
  - rewrite app_assoc, str_split1_app by done. done.
Qed.

Lemma split_query (pth q : str) :
  63 ∉ pth ->
  match str_split1 63 (pth ++ qpart q) with
  | (u, Some q') => (u, q')
  | (u, None) => (u, [])
  end = (pth, q).
Proof.
  intros Hp. unfold qpart. destruct q as [|c q]; cbn [nonempty].
  - rewrite app_nil_r, str_split1_notin by done. done.
  - rewrite str_split1_app by done. done.
Qed.

Lemma rooted_delim_head (pth t' : str) :
  path_rooted pth -> tail_ok t' -> delim_head (pth ++ t').
Proof.
  intros [->|[t ->]] Ht; simpl; [|done].
  destruct t'; [done|]. destruct Ht; subst; done.
Qed.

Lemma take2_app_tail (pth t' : str) :
  tail_ok t' -> take 2 (pth ++ t') = py "//" -> take 2 pth = py "//".
Proof.
  change (py "//") with [47; 47].
  intros Ht. destruct pth as [|c1 [|c2 pth]]; simpl.
  - destruct t' as [|x [|y t']]; simpl in *; try done; intros [= -> _]; destruct Ht; done.
  - destruct t' as [|x t']; simpl in *; try done. intros [= -> ->]. destruct Ht; done.
  - done.
Qed.

(** The netloc step of [urlsplit] on the text [urlunsplit] puts after the
    scheme. *)
Lemma joined_netloc_step P p (t' : str) :
  split_facts P p -> tail_ok t' ->
  (if bool_decide (take 2 (npart P (scheme p) (netloc p) (path p) ++ path p ++ t') = py "//")
   then splitnetloc (npart P (scheme p) (netloc p) (path p) ++ path p ++ t') 2
   else ([], npart P (scheme p) (netloc p) (path p) ++ path p ++ t'))
  = (netloc p, path p ++ t').
Proof.
  intros F Ht. unfold npart.
  destruct (nonempty (netloc p)) eqn:Hl.
  - apply nonempty_true in Hl.
    rewrite <- app_assoc. rewrite bool_decide_eq_true_2 by reflexivity.
    apply splitnetloc_app; [done | apply (fact_netloc P p F) |].
    apply rooted_delim_head; [apply (fact_rooted P p F); done | done].
  - apply nonempty_false in Hl. rewrite Hl.
    destruct (bool_decide_reflect (take 2 (path p) = py "//")) as [H2|H2].
    + rewrite bool_decide_eq_true_2 by reflexivity.
      apply (splitnetloc_app [47; 47] []); [done | done |].
      change (py "//") with [47; 47] in H2. destruct (path p) as [|? [|? ?]]; try done.
      injection H2 as -> ->. done.
    + destruct (scheme_uses_netloc P (scheme p)
                && (negb (nonempty (path p)) || bool_decide (take 1 (path p) = py "/"))) eqn:H3.
      * rewrite bool_decide_eq_true_2 by reflexivity.
        apply (splitnetloc_app [47; 47] []); [done | done |].
        apply rooted_delim_head; [|done].
        apply andb_true_iff in H3 as [_ H3]. apply orb_true_iff in H3 as [H3|H3].
        -- left. apply negb_true_iff, nonempty_false in H3. done.
        -- right. apply bool_decide_eq_true in H3. change (py "/") with [47] in H3.
           destruct (path p) as [|c t]; [done|]. injection H3 as ->. eauto.
      * cbn [app]. rewrite bool_decide_eq_false_2; [done|].
        intros H4. apply H2. eapply take2_app_tail; done.
Qed.

(** The scheme step. *)
Lemma joined_scheme_step P p (t' : str) :
  split_facts P p -> tail_ok t' ->
  split_scheme (spart (scheme p) ++ npart P (scheme p) (netloc p) (path p) ++ path p ++ t')
  = (scheme p, npart P (scheme p) (netloc p) (path p) ++ path p ++ t').
Proof.
  intros F Ht. unfold spart.
  destruct (nonempty (scheme p)) eqn:Hs.
  - apply nonempty_true in Hs.
    destruct (fact_scheme P p F) as [?|[His Hlow]]; [done|].
    rewrite <- app_assoc. cbn [app]. rewrite split_scheme_app by done.
    rewrite Hlow. done.
  - apply nonempty_false in Hs. cbn [app].
    rewrite split_scheme_no; [rewrite Hs; done|].
    unfold npart. rewrite Hs. cbn [nonempty andb].
    destruct (nonempty (netloc p)) eqn:Hl.
    + apply no_scheme_head. done.
    + destruct (bool_decide_reflect (take 2 (path p) = py "//")).
      * apply no_scheme_head. done.
      * apply nonempty_false in Hl. apply (fact_rest P p F); done.
Qed.

Lemma unsafe_free_app a b : unsafe_free a -> unsafe_free b -> unsafe_free (a ++ b).
Proof. unfold unsafe_free. intros. apply Forall_app. done. Qed.

Lemma unsafe_free_cons c s :
  c <> 9 -> c <> 13 -> c <> 10 -> unsafe_free s -> unsafe_free (c :: s).
Proof. unfold unsafe_free. intros. apply Forall_cons. done. Qed.

Lemma unsafe_free_nil : unsafe_free [].
Proof. apply Forall_nil_2. Qed.

Lemma joined_clean P p q' :
  split_facts P p -> unsafe_free q' ->
  url_cleanup (joined P p q') = joined P p q'.
Proof.
  intros F Hq. unfold joined.
  destruct (fact_unsafe P p F) as (Us & Ul & Up & Uf).
  apply url_cleanup_id.
  - unfold spart, npart, qpart, fpart.
    repeat first
      [ apply unsafe_free_app | apply unsafe_free_cons | apply unsafe_free_nil | done
      | match goal with |- unsafe_free (if ?b then _ else _) => destruct b end ].
  - unfold spart. destruct (nonempty (scheme p)) eqn:Hs.
    + apply nonempty_true in Hs.
      destruct (fact_scheme P p F) as [?|[His _]]; [done|].
      destruct (is_scheme_inv _ His) as (c0 & t & -> & Ha & _). simpl.
      unfold is_c0_or_space. unfold is_ascii_alpha, is_ascii_upper, is_ascii_lower in Ha.
      bool_to_prop; apply N.leb_gt; lia.
    + cbn [app]. apply nonempty_false in Hs. unfold npart. rewrite Hs. cbn [nonempty andb].
      destruct (nonempty (netloc p)) eqn:Hl; [done|].
      destruct (bool_decide_reflect (take 2 (path p) = py "//")); [done|]. cbn [app].
      apply nonempty_false in Hl. pose proof (fact_head P p F Hs Hl) as Hh.
      destruct (path p); [|done]. cbn [app].
      pose proof (tail_ok_parts q' (fragment p)) as Ht.
      destruct (qpart q' ++ fpart (fragment p)); [done|]. destruct Ht; subst; done.
Qed.

(** Splitting the text of the parts gives the parts back. *)
Lemma urlsplit_joined P p q' :
  urllib_parse_bound P = true -> split_facts P p -> unsafe_free q' -> 35 ∉ q' ->
  urlsplit P (joined P p q') =
    Ok {| scheme := scheme p; netloc := netloc p; path := path p;
          query := q'; fragment := fragment p |}.
Proof.
  intros Hb F Hq Hq35. rewrite urlsplit_unfold, urllib_parse_bound_eq, (joined_clean P) by done.
  unfold joined, urlsplit_clean.
  rewrite (joined_scheme_step P p) by (done || apply tail_ok_parts).
  rewrite (joined_netloc_step P p) by (done || apply tail_ok_parts).
  rewrite (fact_brackets P p F).
  destruct (fact_path P p F) as [H63 H35].
  rewrite split_fragment by done.
  rewrite split_query by done.
  rewrite (fact_checknetloc P p F). done.
Qed.

(** Splitting what [urlunsplit] wrote gives the parts back, as written. *)
Lemma urlsplit_urlunsplit_facts P p q' :
  urllib_parse_bound P = true ->
  split_facts P p -> slashes_safe P p -> unsafe_free q' -> 35 ∉ q' ->
  urlsplit P (urlunsplit P (scheme p) (netloc p) (path p) q' (fragment p)) =
    Ok {| scheme := scheme p; netloc := netloc p; path := path (written P p);
          query := q'; fragment := fragment p |}.
Proof.
  intros Hb F Hs Hq Hq35. rewrite urlunsplit_joined by done.
  rewrite urlsplit_joined by (done || apply split_facts_written; done).
  destruct (written_cases P p) as [->|(_ & _ & ->)]; done.
Qed.

Lemma urlsplit_urlunsplit P u p q' :
  urlsplit P u = Ok p -> slashes_safe P p -> unsafe_free q' -> 35 ∉ q' ->
  urlsplit P (urlunsplit P (scheme p) (netloc p) (path p) q' (fragment p)) =
    Ok {| scheme := scheme p; netloc := netloc p; path := path (written P p);
          query := q'; fragment := fragment p |}.
Proof.
  intros H. apply urlsplit_urlunsplit_facts; [eapply urlsplit_bound | eapply urlsplit_facts]; done.
Qed.

Lemma unmarked_notin (s : str) : unmarked s <-> (63 ∉ s) /\ (35 ∉ s).
Proof.
  unfold unmarked. rewrite Forall_forall. split.
  - intros H. split; intros Hin; apply H in Hin; destruct Hin; done.
  - intros [H1 H2] c Hc. split; intros ->; done.
Qed.

Lemma unmarked_netpath P p :
  split_facts P p -> unmarked (spart (scheme p) ++ netpath P (scheme p) (netloc p) (path p)).
Proof.
  intros F.
  assert (Hs : unmarked (spart (scheme p))).
  { unfold spart. destruct (nonempty (scheme p)) eqn:Hs; [|apply Forall_nil_2].
    apply nonempty_true in Hs. destruct (fact_scheme P p F) as [?|[His _]]; [done|].
    destruct (is_scheme_inv _ His) as (c0 & t & _ & _ & Hall).
    apply Forall_app. split; [|apply Forall_cons; split; [done | apply Forall_nil_2]].
    apply unmarked_notin. split; apply scheme_char_notin; done. }
  assert (Hl : unmarked (netloc p)).
  { apply unmarked_notin. destruct (no_delim_notin _ (fact_netloc P p F)) as (_ & ? & ?). done. }
  assert (Hp : unmarked (path p)) by (apply unmarked_notin, (fact_path P p F)).
  assert (Hr : unmarked (rooted (path p))).
  { destruct (rooted_cases (path p)) as [-> | ->]; [done|]. apply Forall_cons. done. }
  assert (H2 : forall t, unmarked t -> unmarked (py "//" ++ t)).
  { intros t Ht. repeat (apply Forall_cons; split; [done|]). done. }
  apply Forall_app. split; [done|]. unfold netpath. fold (unmarked (path p)).
  change (Forall (fun c => c <> 63 /\ c <> 35)) with unmarked.
  repeat match goal with
         | |- unmarked (match ?b with _ => _ end) => destruct b
         | |- unmarked (py "//" ++ _) => apply H2
         | |- unmarked (_ ++ _) => apply Forall_app; split
         end; done.
Qed.

(** The text [urlunsplit] writes for an empty query has no question mark
    before its fragment mark. *)
Lemma urlunsplit_no_query P p :
  split_facts P p ->
  63 ∉ before_fragment (urlunsplit P (scheme p) (netloc p) (path p) [] (fragment p)).
Proof.
  intros F. rewrite urlunsplit_netpath. cbn [qpart nonempty app]. rewrite app_assoc.
  destruct (proj1 (unmarked_notin _) (unmarked_netpath P p F)) as [H63 H35].
  unfold before_fragment, fpart. destruct (fragment p) as [|c f]; cbn [nonempty].
  - rewrite app_nil_r, str_split1_notin by done. done.
  - rewrite str_split1_app by done. done.
Qed.

(** *** The bytes of an encoded string *)

Lemma utf8_encode_char_bytes c e :
  utf8_encode_char c = Some e ->
  (e = [c] /\ c < 128) \/ (e <> [] /\ Forall (fun b => 128 <= b < 256) e).
Proof.
  unfold utf8_encode_char.
  destruct (c <? 128) eqn:H1.
  { intros [= <-]. bool_to_prop. left. done. }
  destruct (c <? 2048) eqn:H2.
  { intros [= <-]. bool_to_prop. right. split; [done|].
    repeat apply Forall_cons_2; try apply Forall_nil_2; div_lia. }
  destruct (c <? 65536) eqn:H3.
  { destruct ((55296 <=? c) && (c <=? 57343)); [done|].
    intros [= <-]. bool_to_prop. right. split; [done|].
    repeat apply Forall_cons_2; try apply Forall_nil_2; div_lia. }
  destruct (c <? 1114112) eqn:H4; [|done].
  intros [= <-]. bool_to_prop. right. split; [done|].
  repeat apply Forall_cons_2; try apply Forall_nil_2; div_lia.
Qed.

Lemma utf8_encode_bytes s bs :
  utf8_encode s = Some bs -> Forall (fun b => b < 256) bs.
Proof.
  revert bs. induction s as [|c s IH]; intros bs; cbn [utf8_encode].
  - intros [= <-]. apply Forall_nil_2.
  - destruct (utf8_encode_char c) as [e|] eqn:He; [|done].
    destruct (utf8_encode s) as [b|]; [|done]. intros [= <-].
    apply Forall_app. split; [|auto].
    destruct (utf8_encode_char_bytes _ _ He) as [[-> ?]|[_ H]].
    + apply Forall_cons_2; [lia | apply Forall_nil_2].
    + eapply Forall_impl; [exact H|]. simpl. intros; lia.
Qed.

Lemma utf8_encode_space s bs :
  utf8_encode s = Some bs -> 32 ∈ bs -> 32 ∈ s.
Proof.
  revert bs. induction s as [|c s IH]; intros bs; cbn [utf8_encode].
  - intros [= <-]. done.
  - destruct (utf8_encode_char c) as [e|] eqn:He; [|done].
    destruct (utf8_encode s) as [b|]; [|done]. intros [= <-].
    intros [Hin|Hin]%elem_of_app.
    + destruct (utf8_encode_char_bytes _ _ He) as [[-> ?]|[_ H]].
      * apply list_elem_of_singleton in Hin as <-. apply elem_of_cons. auto.
      * rewrite Forall_forall in H. apply H in Hin. lia.
    + apply elem_of_cons. right. eauto.
Qed.

Lemma utf8_encode_nil s : utf8_encode s = Some [] -> s = [].
Proof.
  destruct s as [|c s]; [done|]. cbn [utf8_encode].
  destruct (utf8_encode_char c) as [e|] eqn:He; [|done].
  destruct (utf8_encode s) as [b|]; [|done]. intros [= H].
  apply app_eq_nil in H as [-> _].
  destruct (utf8_encode_char_bytes _ _ He) as [[? ?]|[? _]]; done.
Qed.

(** *** [quote_plus], byte by byte *)

Lemma always_safe_ascii b : always_safe b = true -> b < 128 /\ b <> 37 /\ b <> 43 /\ b <> 32.
Proof.
  unfold always_safe, is_ascii_alpha, is_ascii_upper, is_ascii_lower, is_ascii_digit.
  intros H. bool_to_prop; lia.
Qed.

Lemma always_safe_range b : always_safe b = true -> 45 <= b < 128 /\ b <> 61.
Proof.
  unfold always_safe, is_ascii_alpha, is_ascii_upper, is_ascii_lower, is_ascii_digit.
  intros H. bool_to_prop; lia.
Qed.

Lemma hexdigit_safe n : n < 16 -> always_safe (hexdigit n) = true.
Proof.
  intros Hn. unfold hexdigit, always_safe, is_ascii_alpha, is_ascii_upper, is_ascii_lower,
    is_ascii_digit.
  destruct (N.ltb_spec n 10).
  - replace ((48 <=? 48 + n) && (48 + n <=? 57)) with true; [rewrite orb_true_r; done|].
    symmetry. apply andb_true_iff. split; apply N.leb_le; lia.
  - replace ((65 <=? 55 + n) && (55 + n <=? 90)) with true; [done|].
    symmetry. apply andb_true_iff. split; apply N.leb_le; lia.
Qed.

Lemma hexval_hexdigit n : n < 16 -> hexval (hexdigit n) = Some n.
Proof.
  intros Hn. unfold hexdigit, hexval, is_ascii_digit, in_range.
  destruct (N.ltb_spec n 10).
  - replace ((48 <=? 48 + n) && (48 + n <=? 57)) with true.
    + f_equal. lia.
    + symmetry. apply andb_true_iff. split; apply N.leb_le; lia.
  - replace ((48 <=? 55 + n) && (55 + n <=? 57)) with false.
    + replace ((65 <=? 55 + n) && (55 + n <=? 70)) with true.
      * f_equal. lia.
      * symmetry. apply andb_true_iff. split; apply N.leb_le; lia.
    + symmetry. apply andb_false_iff. right. apply N.leb_gt. lia.
Qed.

Lemma str_replace_app a b (x y : str) :
  str_replace a b (x ++ y) = str_replace a b x ++ str_replace a b y.
Proof. apply map_app. Qed.

Lemma quote_byte_nosafe b : b <> 32 -> quote_byte [] b = qp_byte b.
Proof.
  intros Hb. unfold quote_byte, qp_byte. cbn [existsb]. rewrite orb_false_r.
  destruct (always_safe b); [done|]. destruct (N.eqb_spec b 32); done.
Qed.

Lemma quote_byte_space b :
  b < 256 -> str_replace SPACE PLUS (quote_byte [SPACE] b) = qp_byte b.
Proof.
  intros Hb. unfold quote_byte, qp_byte. cbn [existsb]. rewrite orb_false_r.
  destruct (always_safe b) eqn:Hs.
  - cbn [orb str_replace map]. apply always_safe_ascii in Hs as (_ & _ & _ & Hn).
    unfold SPACE. destruct (N.eqb_spec b 32); done.
  - cbn [orb]. unfold SPACE, PLUS, PERCENT. destruct (N.eqb_spec b 32) as [->|Hne].
    + done.
    + cbn [str_replace map].
      assert (H1 : b / 16 < 16) by div_lia. assert (H2 : b mod 16 < 16) by div_lia.
      apply hexdigit_safe, always_safe_ascii in H1 as (_ & _ & _ & H1).
      apply hexdigit_safe, always_safe_ascii in H2 as (_ & _ & _ & H2).
      destruct (N.eqb_spec (hexdigit (b / 16)) 32); [done|].
      destruct (N.eqb_spec (hexdigit (b mod 16)) 32); done.
Qed.

(** [quote_plus] encodes, then writes every byte as [qp_byte] does. *)
Lemma quote_plus_bytes s e :
  quote_plus s = Some e -> exists bs, utf8_encode s = Some bs /\ e = quoted bs.
Proof.
  unfold quote_plus, quote, quoted.
  destruct s as [|c s].
  { cbn. intros [= <-]. exists []. done. }
  set (s' := c :: s). clearbody s'.
  destruct (utf8_encode s') as [bs|] eqn:He; cbn [mbind option_bind fmap option_map];
    [|destruct (negb (str_contains SPACE s')); done].
  pose proof (utf8_encode_bytes _ _ He) as Hb.
  destruct (str_contains SPACE s') eqn:Hsp; cbn [negb option_fmap option_map].
  - intros [= <-]. exists bs. split; [done|].
    clear He. induction Hb as [|b bs Hb _ IH]; [done|].
    cbn [map concat]. rewrite str_replace_app, IH, quote_byte_space by done. done.
  - intros [= <-]. exists bs. split; [done|].
    apply str_contains_false in Hsp.
    assert (Hn : 32 ∉ bs) by (intros Hin; apply Hsp; eapply utf8_encode_space; done).
    clear He Hb. induction bs as [|b bs IH]; [done|].
    apply not_elem_of_cons in Hn as [Hne Hn].
    cbn [map concat]. rewrite IH, quote_byte_nosafe by done. done.
Qed.

Lemma qp_byte_chars b : b < 256 -> Forall qchar (qp_byte b) /\ qp_byte b <> [].
Proof.
  intros Hb. unfold qp_byte, qchar, PERCENT.
  destruct (always_safe b) eqn:Hs; [split; [|done]; apply Forall_cons_2; auto|].
  destruct (b =? 32); [split; [|done]; apply Forall_cons_2; auto|].
  split; [|done].
  repeat apply Forall_cons_2; try apply Forall_nil_2; auto;
    left; apply hexdigit_safe; div_lia.
Qed.

Lemma quoted_chars bs : Forall (fun b => b < 256) bs -> Forall qchar (quoted bs).
Proof.
  unfold quoted. induction 1 as [|b bs Hb _ IH]; [apply Forall_nil_2|].
  cbn [map concat]. apply Forall_app. split; [apply qp_byte_chars; done | done].
Qed.

Lemma quoted_nil bs : Forall (fun b => b < 256) bs -> quoted bs = [] -> bs = [].
Proof.
  unfold quoted. destruct 1 as [|b bs Hb _]; [done|].
  cbn [map concat]. intros [H _]%app_eq_nil. apply qp_byte_chars in Hb as [_ ?]. done.
Qed.

Lemma quote_plus_chars s e : quote_plus s = Some e -> Forall qchar e.
Proof.
  intros (bs & He & ->)%quote_plus_bytes. apply quoted_chars. eapply utf8_encode_bytes. done.
Qed.

Lemma quote_plus_nil s e : quote_plus s = Some e -> e = [] -> s = [].
Proof.
  intros (bs & He & ->)%quote_plus_bytes Hq.
  apply quoted_nil in Hq; [|eapply utf8_encode_bytes; done]. subst.
  apply utf8_encode_nil. done.
Qed.

(** *** [unquote] on ASCII text *)

Lemma utf8_decode_ascii (x : str) : Forall (fun c => c < 128) x -> utf8_decode x = x.
Proof.
  induction 1 as [|c x Hc _ IH]; [done|].
  cbn [utf8_decode]. rewrite (ltb_true c 128) by done. rewrite IH. done.
Qed.

Lemma unquote_to_bytes_plain (x : str) : 37 ∉ x -> unquote_to_bytes x = x.
Proof.
  induction x as [|c x IH]; [done|].
  intros [Hc Hx]%not_elem_of_cons. cbn [unquote_to_bytes]. unfold PERCENT.
  destruct (N.eqb_spec c 37); [done|]. rewrite IH by done. done.
Qed.

Lemma unquote_parts_ascii (x run : str) :
  Forall (fun c => c < 128) x ->
  unquote_parts x run = utf8_decode (unquote_to_bytes (run ++ x)).
Proof.
  intros H. revert run. induction H as [|c x Hc _ IH]; intros run; cbn [unquote_parts].
  - rewrite app_nil_r. done.
  - unfold is_ascii. rewrite (ltb_true c 128) by done.
    rewrite IH, <- app_assoc. done.
Qed.

Lemma unquote_ascii (x : str) :
  Forall (fun c => c < 128) x -> unquote x = utf8_decode (unquote_to_bytes x).
Proof.
  intros H. unfold unquote. destruct (str_contains PERCENT x) eqn:Hp; cbn [negb].
  - apply (unquote_parts_ascii x []). done.
  - apply str_contains_false in Hp.
    rewrite unquote_to_bytes_plain, utf8_decode_ascii by done. done.
Qed.

Lemma replace_plus_qp_byte b :
  b < 256 -> str_replace PLUS SPACE (qp_byte b) = qp_byte' b.
Proof.
  intros Hb. unfold qp_byte, qp_byte', PLUS, SPACE, PERCENT.
  destruct (always_safe b) eqn:Hs.
  - cbn [str_replace map]. apply always_safe_ascii in Hs as (_ & _ & Hn & _).
    destruct (N.eqb_spec b 43); done.
  - destruct (N.eqb_spec b 32); [done|]. cbn [str_replace map].
    assert (H1 : b / 16 < 16) by div_lia. assert (H2 : b mod 16 < 16) by div_lia.
    apply hexdigit_safe, always_safe_ascii in H1 as (_ & _ & H1 & _).
    apply hexdigit_safe, always_safe_ascii in H2 as (_ & _ & H2 & _).
    destruct (N.eqb_spec (hexdigit (b / 16)) 43); [done|].
    destruct (N.eqb_spec (hexdigit (b mod 16)) 43); done.
Qed.

Lemma replace_plus_quoted bs :
  Forall (fun b => b < 256) bs ->
  str_replace PLUS SPACE (quoted bs) = concat (map qp_byte' bs).
Proof.
  unfold quoted. induction 1 as [|b bs Hb _ IH]; [done|].
  cbn [map concat]. rewrite str_replace_app, IH, replace_plus_qp_byte by done. done.
Qed.

Lemma qp_byte'_ascii b : b < 256 -> Forall (fun c => c < 128) (qp_byte' b).
Proof.
  intros Hb. unfold qp_byte', PERCENT.
  destruct (always_safe b) eqn:Hs.
  { apply always_safe_ascii in Hs as (? & _). apply Forall_cons_2; [done | apply Forall_nil_2]. }
  destruct (b =? 32); [apply Forall_cons_2; [done | apply Forall_nil_2]|].
  assert (H1 : b / 16 < 16) by div_lia. assert (H2 : b mod 16 < 16) by div_lia.
  apply hexdigit_safe, always_safe_ascii in H1 as (H1 & _).
  apply hexdigit_safe, always_safe_ascii in H2 as (H2 & _).
  repeat apply Forall_cons_2; try apply Forall_nil_2; done.
Qed.

Lemma unquote_to_bytes_qp_byte' b (rest : str) :
  b < 256 -> unquote_to_bytes (qp_byte' b ++ rest) = b :: unquote_to_bytes rest.
Proof.
  intros Hb. unfold qp_byte', PERCENT.
  destruct (always_safe b) eqn:Hs.
  { apply always_safe_ascii in Hs as (_ & Hn & _). cbn [app unquote_to_bytes].
    unfold PERCENT. destruct (N.eqb_spec b 37); done. }
  destruct (N.eqb_spec b 32) as [->|Hne]; [done|].
  cbn [app unquote_to_bytes]. unfold PERCENT. cbn [N.eqb Pos.eqb].
  rewrite !hexval_hexdigit by div_lia. f_equal. div_lia.
Qed.

Lemma unquote_to_bytes_quoted bs :
  Forall (fun b => b < 256) bs -> unquote_to_bytes (concat (map qp_byte' bs)) = bs.
Proof.
  induction 1 as [|b bs Hb _ IH]; [done|].
  cbn [map concat]. rewrite unquote_to_bytes_qp_byte', IH by done. done.
Qed.

(** [parse_qsl] reads back what [quote_plus] wrote. *)
Lemma unquote_quote_plus s e :
  quote_plus s = Some e -> unquote (str_replace PLUS SPACE e) = s.
Proof.
  intros (bs & He & ->)%quote_plus_bytes.
  pose proof (utf8_encode_bytes _ _ He) as Hb.
  rewrite replace_plus_quoted by done.
  rewrite unquote_ascii.
  - rewrite unquote_to_bytes_quoted by done. apply utf8_decode_encode. done.
  - clear He. induction Hb as [|b bs Hb _ IH]; [apply Forall_nil_2|].
    cbn [map concat]. apply Forall_app. split; [apply qp_byte'_ascii; done | done].
Qed.

(** *** [unquote] never empties a text *)

Lemma utf8_decode_nil bs : utf8_decode bs = [] -> bs = [].
Proof.
  destruct bs as [|b0 t0]; [done|]. cbn [utf8_decode].
  repeat match goal with
         | |- context [if ?b then _ else _] => destruct b
         | |- context [match ?l with [] => _ | _ :: _ => _ end] => destruct l
         end; done.
Qed.

Lemma unquote_to_bytes_nil x : unquote_to_bytes x = [] -> x = [].
Proof.
  destruct x as [|c x]; [done|]. cbn [unquote_to_bytes].
  repeat match goal with
         | |- context [if ?b then _ else _] => destruct b
         | |- context [match ?l with [] => _ | _ :: _ => _ end] => destruct l
         | |- context [match ?o with Some _ => _ | None => _ end] => destruct o
         end; done.
Qed.

Lemma unquote_parts_nil x run : unquote_parts x run = [] -> x = [] /\ run = [].
Proof.
  revert run. induction x as [|c x IH]; intros run; cbn [unquote_parts].
  - intros H. apply utf8_decode_nil, unquote_to_bytes_nil in H. done.
  - destruct (is_ascii c).
    + intros H. apply IH in H as [_ H]. destruct run; done.
    + intros H. apply app_eq_nil in H as [_ H]. done.
Qed.

Lemma unquote_nil x : unquote x = [] -> x = [].
Proof.
  unfold unquote. destruct (negb (str_contains PERCENT x)); [done|].
  intros H. apply unquote_parts_nil in H as [? _]. done.
Qed.

(** *** Splitting a joined text *)

Lemma str_split_notin sep (x : str) : sep ∉ x -> str_split sep x = [x].
Proof.
  induction x as [|c x IH]; [done|].
  intros [Hc Hx]%not_elem_of_cons. cbn [str_split].
  destruct (N.eqb_spec c sep); [congruence|]. rewrite IH by done. done.
Qed.

Lemma str_split_app sep (x y : str) :
  sep ∉ x -> str_split sep (x ++ sep :: y) = x :: str_split sep y.
Proof.
  induction x as [|c x IH].
  - intros _. cbn [app str_split]. rewrite N.eqb_refl. done.
  - intros [Hc Hx]%not_elem_of_cons. cbn [app str_split].
    destruct (N.eqb_spec c sep); [congruence|]. rewrite IH by done. done.
Qed.

Lemma str_split_join sep (l : list str) :
  l <> [] -> Forall (fun x => sep ∉ x) l -> str_split sep (str_join [sep] l) = l.
Proof.
  intros Hne H. induction H as [|x l Hx Hl IH]; [done|].
  destruct l as [|y l].
  - cbn [str_join]. apply str_split_notin. done.
  - change (str_join [sep] (x :: y :: l)) with (x ++ sep :: str_join [sep] (y :: l)).
    rewrite str_split_app by done. rewrite IH by done. done.
Qed.

(** *** What [urlencode] writes and [parse_qsl] reads *)

Lemma urlencode_fields d q :
  urlencode d = Some q ->
  exists pieces, Forall2 field_of (dict_pairs d) pieces /\ q = str_join (py "&") pieces.
Proof.
  unfold urlencode. intros H.
  apply bind_Some in H as (l & Hl & [= <-]).
  exists (concat l). split; [|done].
  apply mapM_Some in Hl. unfold dict_pairs.
  induction Hl as [|kv ps d l Hkv _ IH]; [apply Forall2_nil_2|].
  cbn [flat_map concat]. apply Forall2_app; [|done].
  apply bind_Some in Hkv as (k' & Hk & Hvs).
  apply mapM_Some in Hvs. clear IH.
  induction Hvs as [|v piece vs ps Hv _ IH]; [apply Forall2_nil_2|].
  cbn [map]. apply Forall2_cons_2; [|done].
  apply bind_Some in Hv as (v' & Hv & [= <-]).
  exists k', v'. done.
Qed.

Lemma qchar_notin c (x : str) :
  Forall qchar x -> always_safe c = false -> c <> 43 -> c <> 37 -> c ∉ x.
Proof.
  intros H Hs H1 H2 Hin. rewrite Forall_forall in H. apply H in Hin as [?|[?|?]]; congruence.
Qed.

Lemma parse_field nv piece :
  nv.2 <> [] -> field_of nv piece ->
  (38 ∉ piece)
  /\ match piece with
     | [] => []
     | _ =>
         match str_split1 61 piece with
         | (_, None) => []
         | (_, Some []) => []
         | (n, Some v) =>
             [(unquote (str_replace PLUS SPACE n), unquote (str_replace PLUS SPACE v))]
         end
     end = [nv].
Proof.
  destruct nv as [n v]. cbn [fst snd].
  intros Hv (k' & v' & Hk & Hv' & ->). cbn [fst snd] in *. change (py "=") with [61]. cbn [app].
  pose proof (quote_plus_chars _ _ Hk) as Ck.
  pose proof (quote_plus_chars _ _ Hv') as Cv.
  split.
  - apply not_elem_of_app. split; [apply qchar_notin; done|].
    apply not_elem_of_cons. split; [done | apply qchar_notin; done].
  - rewrite str_split1_app by (apply qchar_notin; done).
    assert (Hne : v' <> []) by (intros ->; apply Hv; eapply quote_plus_nil; done).
    pose proof (unquote_quote_plus _ _ Hk) as Ek.
    pose proof (unquote_quote_plus _ _ Hv') as Ev.
    destruct v' as [|c w]; [done|]. rewrite Ek, Ev. destruct k'; done.
Qed.

Lemma parse_qsl_join pairs pieces :
  Forall (fun nv => nv.2 <> []) pairs ->
  Forall2 field_of pairs pieces ->
  parse_qsl (str_join (py "&") pieces) = pairs.
Proof.
  intros Hv Hf. unfold parse_qsl. change (py "&") with [38].
  destruct pieces as [|p0 pieces].
  { apply Forall2_nil_inv_r in Hf as ->. done. }
  rewrite str_split_join; [|done|].
  - revert Hv. induction Hf as [|nv piece pairs' pieces' Hp _ IH]; [done|].
    intros [Hnv Hv]%Forall_cons. cbn [flat_map].
    destruct (parse_field _ _ Hnv Hp) as [_ ->]. rewrite IH by done. done.
  - revert Hv. induction Hf as [|nv piece pairs' pieces' Hp _ IH]; [intros; apply Forall_nil_2|].
    intros [Hnv Hv]%Forall_cons. apply Forall_cons_2; [|auto].
    apply (parse_field _ _ Hnv Hp).
Qed.

(** *** Dicts built by [parse_qs] *)

Lemma dict_add_fresh name value (d : qdict) :
  name ∉ map fst d -> dict_add name value d = d ++ [(name, [value])].
Proof.
  induction d as [|[k vs] d IH]; [done|].
  cbn [map fst]. intros [Hk Hd]%not_elem_of_cons. cbn [dict_add app].
  rewrite bool_decide_eq_false_2 by congruence. rewrite IH by done. done.
Qed.

Lemma dict_add_last name value vs (d : qdict) :
  name ∉ map fst d ->
  dict_add name value (d ++ [(name, vs)]) = d ++ [(name, vs ++ [value])].
Proof.
  induction d as [|[k vs'] d IH].
  - intros _. cbn [app dict_add]. rewrite bool_decide_eq_true_2 by done. done.
  - cbn [map fst]. intros [Hk Hd]%not_elem_of_cons. cbn [dict_add app].
    rewrite bool_decide_eq_false_2 by congruence. rewrite IH by done. done.
Qed.

Lemma dict_add_keys name value (d : qdict) :
  map fst (dict_add name value d) = map fst d ++ (if bool_decide (name ∈ map fst d) then [] else [name]).
Proof.
  induction d as [|[k vs] d IH]; [done|].
  cbn [dict_add map fst]. destruct (bool_decide_reflect (k = name)) as [->|Hne].
  - cbn [map fst]. rewrite bool_decide_eq_true_2 by (apply elem_of_cons; auto).
    rewrite app_nil_r. done.
  - cbn [map fst app]. rewrite IH. f_equal. f_equal.
    destruct (bool_decide_reflect (name ∈ map fst d)) as [Hin|Hnin].
    + rewrite bool_decide_eq_true_2 by (apply elem_of_cons; auto). done.
    + rewrite bool_decide_eq_false_2; [done|].
      intros [?|?]%elem_of_cons; congruence.
Qed.

Lemma dict_add_wf name value (d : qdict) :
  value <> [] -> wf_dict d -> wf_dict (dict_add name value d).
Proof.
  intros Hv [Hnd Hall]. split.
  - rewrite dict_add_keys. destruct (bool_decide_reflect (name ∈ map fst d)).
    + rewrite app_nil_r. done.
    + apply NoDup_app. repeat split; [done | | apply NoDup_singleton].
      intros x Hx ->%list_elem_of_singleton. done.
  - clear Hnd. induction Hall as [|[k vs] d [Hk1 Hk2] Hd IH]; cbn [dict_add].
    + apply Forall_cons_2; [|apply Forall_nil_2]. split; [done|].
      apply Forall_cons_2; [done | apply Forall_nil_2].
    + destruct (bool_decide (k = name)).
      * apply Forall_cons_2; [|done]. cbn [snd] in *. split; [destruct vs; done|].
        apply Forall_app. split; [done|]. apply Forall_cons_2; [done | apply Forall_nil_2].
      * apply Forall_cons_2; [done | done].
Qed.

Lemma parse_qsl_values qs : Forall (fun nv => nv.2 <> []) (parse_qsl qs).
Proof.
  unfold parse_qsl. apply Forall_forall. intros nv Hin.
  apply list_elem_of_In, in_flat_map in Hin as (piece & _ & Hin).
  destruct piece as [|c piece]; [done|].
  destruct (str_split1 61 (c :: piece)) as [n [v|]]; [|done].
  destruct v as [|c' v]; [done|].
  destruct Hin as [<-|[]]. cbn [snd]. intros H%unquote_nil. done.
Qed.

Lemma parse_qs_wf qs : wf_dict (parse_qs qs).
Proof.
  unfold parse_qs.
  assert (H0 : wf_dict []) by (split; [apply NoDup_nil_2 | apply Forall_nil_2]).
  revert H0. generalize (@nil (list N * list (list N))).
  induction (parse_qsl_values qs) as [|nv l Hnv _ IH]; intros d Hd; [done|].
  cbn [fold_left]. apply IH. apply dict_add_wf; done.
Qed.

(** Grouping the pairs of a well-formed dict gives the dict back. *)
Lemma group_pairs (d acc : qdict) :
  wf_dict d -> (forall k, k ∈ map fst d -> k ∉ map fst acc) ->
  fold_left (fun d nv => dict_add nv.1 nv.2 d) (dict_pairs d) acc = acc ++ d.
Proof.
  intros [Hnd Hall]. revert acc Hnd.
  induction Hall as [|[k vs] d [Hk1 Hk2] Hd IH]; intros acc Hnd Hdis.
  - rewrite app_nil_r. done.
  - cbn [map fst] in Hnd. apply NoDup_cons in Hnd as [Hk Hnd].
    assert (Hka : k ∉ map fst acc) by (apply Hdis; apply elem_of_cons; auto).
    cbn [dict_pairs flat_map fst snd]. rewrite fold_left_app.
    destruct vs as [|v vs]; [done|]. cbn [map fold_left fst snd].
    rewrite dict_add_fresh by done.
    assert (Hin : forall vs' done_vs,
               fold_left (fun d nv => dict_add nv.1 nv.2 d)
                         (map (fun v => (k, v)) vs') (acc ++ [(k, done_vs)])
               = acc ++ [(k, done_vs ++ vs')]).
    { induction vs' as [|v' vs' IHv]; intros done_vs; cbn [map fold_left fst snd].
      - rewrite app_nil_r. done.
      - rewrite dict_add_last by done. rewrite IHv, <- app_assoc. done. }
    rewrite Hin. fold (dict_pairs d). rewrite IH; [rewrite <- app_assoc; done | done |].
    intros k' Hk'. rewrite map_app. apply not_elem_of_app. split.
    + apply Hdis. apply elem_of_cons. auto.
    + cbn [map fst]. intros ->%list_elem_of_singleton. done.
Qed.

Lemma parse_qs_urlencode d q :
  wf_dict d -> urlencode d = Some q -> parse_qs q = d.
Proof.
  intros Hwf (pieces & Hf & ->)%urlencode_fields.
  unfold parse_qs. rewrite (parse_qsl_join (dict_pairs d)); [| |done].
  - rewrite group_pairs; [done | done |]. intros k _. apply not_elem_of_nil.
  - destruct Hwf as [_ Hall]. unfold dict_pairs. apply Forall_forall.
    intros nv Hin. apply list_elem_of_In, in_flat_map in Hin as (kv & Hkv & Hin).
    apply in_map_iff in Hin as (v & <- & Hv). cbn [snd].
    rewrite Forall_forall in Hall. apply list_elem_of_In, Hall in Hkv as [_ Hvs].
    rewrite Forall_forall in Hvs. apply Hvs, list_elem_of_In. done.
Qed.

Lemma urlencode_chars d q :
  urlencode d = Some q -> Forall (fun c => qchar c \/ c = 61 \/ c = 38) q.
Proof.
  intros (pieces & Hf & ->)%urlencode_fields. change (py "&") with [38].
  assert (Hp : Forall (Forall (fun c => qchar c \/ c = 61 \/ c = 38)) pieces).
  { clear -Hf. induction Hf as [|nv piece ? ? (k' & v' & Hk & Hv & ->) _ IH];
      [apply Forall_nil_2|].
    apply Forall_cons_2; [|done]. change (py "=") with [61].
    apply Forall_app. split.
    - eapply Forall_impl; [apply (quote_plus_chars _ _ Hk)|]. simpl. auto.
    - apply Forall_cons_2; [auto|].
      eapply Forall_impl; [apply (quote_plus_chars _ _ Hv)|]. simpl. auto. }
  clear Hf. induction Hp as [|x l Hx Hl IH]; [apply Forall_nil_2|].
  destruct l as [|y l]; [done|].
  change (str_join [38] (x :: y :: l)) with (x ++ 38 :: str_join [38] (y :: l)).
  apply Forall_app. split; [done|]. apply Forall_cons_2; [auto | done].
Qed.

(** *** [scrub_parameters] *)

Lemma dict_set_fresh {V} k (v : V) (d : list (str * V)) :
  k ∉ map fst d -> dict_set k v d = d ++ [(k, v)].
Proof.
  induction d as [|[k' v'] d IH]; [done|].
  cbn [map fst]. intros [Hk Hd]%not_elem_of_cons. cbn [dict_set app].
  rewrite bool_decide_eq_false_2 by congruence. rewrite IH by done. done.
Qed.

Lemma scrub_fold (d a1 : qdict) (a2 : list str) :
  NoDup (map fst d) -> (forall k, k ∈ map fst d -> k ∉ map fst a1) ->
  fold_left (fun acc kv =>
               if bool_decide (kv.1 ∈ TRACKING_PARAMETERS)
               then (acc.1, acc.2 ++ [kv.1])
               else (dict_set kv.1 kv.2 acc.1, acc.2)) d (a1, a2)
  = (a1 ++ filter (fun kv => ~ tracked kv) d, a2 ++ map fst (filter tracked d)).
Proof.
  revert a1 a2. induction d as [|[k vs] d IH]; intros a1 a2 Hnd Hdis.
  - rewrite !app_nil_r. done.
  - cbn [map fst] in Hnd. apply NoDup_cons in Hnd as [Hk Hnd].
    cbn [fold_left fst snd].
    destruct (bool_decide_reflect (k ∈ TRACKING_PARAMETERS)) as [Ht|Ht].
    + rewrite IH; [| done |].
      * rewrite filter_cons_False by (intros H; apply H; exact Ht).
        rewrite (filter_cons_True tracked) by exact Ht.
        cbn [map fst]. rewrite <- app_assoc. done.
      * intros k' Hk'. apply Hdis. apply elem_of_cons. auto.
    + rewrite dict_set_fresh by (apply Hdis; apply elem_of_cons; auto).
      rewrite IH; [| done |].
      * rewrite (filter_cons_True (fun kv => ~ tracked kv)) by exact Ht.
        rewrite (filter_cons_False tracked) by exact Ht.
        rewrite <- app_assoc. done.
      * intros k' Hk'. rewrite map_app. apply not_elem_of_app. split.
        -- apply Hdis. apply elem_of_cons. auto.
        -- cbn [map fst]. intros ->%list_elem_of_singleton. done.
Qed.

Lemma scrub_loop_spec q :
  scrub_loop (parse_qs q) = (kept_parameters q, found_tracking q).
Proof.
  unfold scrub_loop. rewrite scrub_fold; [done | apply parse_qs_wf |].
  intros k _. apply not_elem_of_nil.
Qed.

Lemma scrub_parameters_eq url q s :
  scrub_parameters url q s =
    let s' := if bool_decide (found_tracking q ≠ [])
              then add_warning (TrackingParameters url (found_tracking q)) s else s in
    match kept_parameters q with
    | [] => (Ok [], s')
    | _ => match urlencode (kept_parameters q) with
           | Some q' => (Ok q', s')
           | None => (Raise UnicodeEncodeError, s')
           end
    end.
Proof.
  unfold scrub_parameters. rewrite scrub_loop_spec. unfold bind, when, warn, ret, raise.
  destruct (bool_decide (found_tracking q ≠ [])); cbn zeta;
    destruct (kept_parameters q); [done | | done |];
    destruct (urlencode _); done.
Qed.

Lemma filter_none {A} (P : A -> Prop) `{!forall x, Decision (P x)} (l : list A) :
  Forall (fun x => ~ P x) l -> filter P l = [].
Proof.
  induction 1 as [|x l Hx _ IH]; [done|]. rewrite filter_cons_False by done. done.
Qed.

Lemma NoDup_keys_filter {V} (P : str * V -> Prop) `{!forall x, Decision (P x)}
    (d : list (str * V)) :
  NoDup (map fst d) -> NoDup (map fst (filter P d)).
Proof.
  induction d as [|kv d IH]; [done|]. cbn [map].
  intros [Hk Hd]%NoDup_cons. destruct (decide (P kv)).
  - rewrite filter_cons_True by done. cbn [map]. apply NoDup_cons. split; [|auto].
    intros Hin. apply Hk.
    apply list_elem_of_In, in_map_iff in Hin as (kv' & <- & Hin).
    apply list_elem_of_In, list_elem_of_filter in Hin as [_ Hin].
    apply list_elem_of_In, in_map, list_elem_of_In. done.
  - rewrite filter_cons_False by done. auto.
Qed.

Lemma kept_parameters_wf q : wf_dict (kept_parameters q).
Proof.
  destruct (parse_qs_wf q) as [Hnd Hall]. unfold kept_parameters. split.
  - apply NoDup_keys_filter. done.
  - apply Forall_forall. intros kv [_ Hin]%list_elem_of_filter.
    rewrite Forall_forall in Hall. auto.
Qed.

(** The query [scrub_parameters] writes is left as it is by a second
    pass. *)
Lemma scrub_parameters_stable q q' url s :
  urlencode (kept_parameters q) = Some q' ->
  kept_parameters q <> [] ->
  scrub_parameters url q' s = (Ok q', s).
Proof.
  intros He Hne.
  pose proof (parse_qs_urlencode _ _ (kept_parameters_wf q) He) as Hp.
  assert (Hk : kept_parameters q' = kept_parameters q).
  { unfold kept_parameters at 1. rewrite Hp. unfold kept_parameters.
    apply list_filter_filter_l. done. }
  assert (Hf : found_tracking q' = []).
  { unfold found_tracking. rewrite Hp. unfold kept_parameters.
    rewrite list_filter_filter.
    rewrite filter_none; [done|].
    apply Forall_forall. intros kv _ [? ?]. done. }
  rewrite scrub_parameters_eq, Hk, Hf, He.
  rewrite bool_decide_eq_false_2 by (intros H; done).
  destruct (kept_parameters q); done.
Qed.

(** *** [parse_url] *)

Lemma add_warnings_nil s : add_warnings [] s = s.
Proof. destruct s. unfold add_warnings. cbn. rewrite app_nil_r. done. Qed.

Lemma add_warnings_app ws1 ws2 s :
  add_warnings ws2 (add_warnings ws1 s) = add_warnings (ws1 ++ ws2) s.
Proof. unfold add_warnings. cbn. rewrite app_assoc. done. Qed.

Lemma scheme_check_eq link p s :
  when (negb (bool_decide (scheme p ∈ [py "mailto"; py "http"; py "https"])))
       (warn (MalformedLink link)) s
  = (Ok tt, add_warnings (scheme_warning link p) s).
Proof.
  unfold scheme_warning, add_warnings, when, warn, ret.
  destruct (bool_decide (scheme p ∈ [py "mailto"; py "http"; py "https"])); cbn [negb]; [|done].
  rewrite app_nil_r. destruct s; done.
Qed.

Lemma simplified_check_eq (r link : str) s :
  when (bool_decide (r ≠ link)) (warn (CanBeSimplified link r)) s
  = (Ok tt, add_warnings (if bool_decide (r ≠ link) then [CanBeSimplified link r] else []) s).
Proof.
  unfold when. destruct (bool_decide (r ≠ link)); [done|].
  rewrite add_warnings_nil. done.
Qed.

(** [parse_url] on a link without query string. *)
Lemma parse_url_no_query P link s p :
  urlsplit P link = Ok p -> query p = [] ->
  parse_url P link s =
    let r := urlunsplit P (scheme p) (netloc p) (path p) [] (fragment p) in
    (Ok r, add_warnings (scheme_warning link p
                         ++ if bool_decide (r ≠ link) then [CanBeSimplified link r] else []) s).
Proof.
  intros Hsp Hq. unfold parse_url, bind, lift. rewrite Hsp, scheme_check_eq, Hq.
  cbn [nonempty]. unfold ret at 1. rewrite simplified_check_eq.
  cbn zeta. rewrite add_warnings_app. done.
Qed.

(** [parse_url] on a link with a query string that [scrub_parameters]
    turns into [q']. *)
Lemma parse_url_query P link s p q' s2 :
  urlsplit P link = Ok p -> query p <> [] ->
  scrub_parameters link (query p) (add_warnings (scheme_warning link p) s) = (Ok q', s2) ->
  parse_url P link s =
    let r := urlunsplit P (scheme p) (netloc p) (path p) q' (fragment p) in
    (Ok r, add_warnings (if bool_decide (r ≠ link) then [CanBeSimplified link r] else []) s2).
Proof.
  intros Hsp Hq Hscrub. unfold parse_url, bind, lift. rewrite Hsp, scheme_check_eq.
  apply nonempty_true in Hq. rewrite Hq, Hscrub, simplified_check_eq. done.
Qed.

Lemma parse_url_ok_split P link s r s' :
  parse_url P link s = (Ok r, s') -> exists p, urlsplit P link = Ok p.
Proof.
  unfold parse_url, bind, lift. destruct (urlsplit P link) as [p|e]; [eauto | done].
Qed.

Lemma qchars_unsafe_free (q : str) :
  Forall (fun c => qchar c \/ c = 61 \/ c = 38) q -> unsafe_free q /\ 35 ∉ q.
Proof.
  intros H. split.
  - eapply Forall_impl; [exact H|]. simpl.
    intros c [[Hs|[->| ->]]|[->| ->]]; try done.
    apply always_safe_range in Hs. lia.
  - intros Hin. rewrite Forall_forall in H. apply H in Hin as [[Hs|[?|?]]|[?|?]]; done.
Qed.

Lemma stable_query_nil : stable_query [].
Proof. split; [apply Forall_nil_2|]. split; [apply not_elem_of_nil | done]. Qed.

Lemma scrub_parameters_result url q s q' s2 :
  scrub_parameters url q s = (Ok q', s2) -> stable_query q'.
Proof.
  rewrite scrub_parameters_eq. cbn zeta.
  destruct (kept_parameters q) as [|kv d] eqn:Hk.
  { intros [= <- _]. apply stable_query_nil. }
  destruct (urlencode (kv :: d)) as [q1|] eqn:He; [|done].
  intros [= <- _]. rewrite <- Hk in He.
  destruct (qchars_unsafe_free _ (urlencode_chars _ _ He)) as [? ?].
  repeat split; try done. intros _ url' s'.
  eapply scrub_parameters_stable; [done | rewrite Hk; done].
Qed.

(** What [parse_url] returns is [urlunsplit] of the parts with a stable
    query. *)
Lemma parse_url_inv P link s r s' :
  parse_url P link s = (Ok r, s') ->
  exists p q', urlsplit P link = Ok p /\ stable_query q'
               /\ r = urlunsplit P (scheme p) (netloc p) (path p) q' (fragment p).
Proof.
  intros H. destruct (parse_url_ok_split _ _ _ _ _ H) as [p Hsp].
  destruct (query p) as [|c q] eqn:Hq.
  - rewrite (parse_url_no_query _ _ _ _ Hsp Hq) in H. cbn zeta in H.
    injection H as <- _. exists p, []. split; [done|]. split; [apply stable_query_nil | done].
  - destruct (scrub_parameters link (query p) (add_warnings (scheme_warning link p) s))
      as [[q'|e] s2] eqn:Hscrub.
    + rewrite (parse_url_query _ _ _ _ _ _ Hsp (ltac:(rewrite Hq; done)) Hscrub) in H.
      cbn zeta in H. injection H as <- _. exists p, q'. split; [done|].
      split; [eapply scrub_parameters_result; done | done].
    + exfalso. revert H. unfold parse_url, bind, lift. rewrite Hsp, scheme_check_eq.
      rewrite Hq in *. cbn [nonempty]. rewrite Hscrub. done.
Qed.

(** [parse_url] on a link it has already normalised. *)
Lemma parse_url_normalised P p q' s :
  urllib_parse_bound P = true ->
  split_facts P p -> slashes_safe P p -> stable_query q' ->
  let r := urlunsplit P (scheme p) (netloc p) (path p) q' (fragment p) in
  parse_url P r s =
    (Ok r, add_warnings (if bool_decide (scheme p ∈ [py "mailto"; py "http"; py "https"])
                         then [] else [MalformedLink r]) s).
Proof.
  intros Hb F Hs (Hu & H35 & Hst). cbn zeta.
  pose proof (urlsplit_urlunsplit_facts P p q' Hb F Hs Hu H35) as Hsp.
  pose proof (urlunsplit_written P p q' F Hs) as Hw.
  set (r := urlunsplit P (scheme p) (netloc p) (path p) q' (fragment p)) in *.
  destruct (decide (q' = [])) as [Hq|Hq].
  - rewrite (parse_url_no_query _ _ _ _ Hsp Hq).
    cbn [scheme netloc path query fragment]. cbn zeta. rewrite <- Hq, Hw.
    rewrite bool_decide_eq_false_2 by (intros H; apply H; reflexivity).
    rewrite app_nil_r. done.
  - rewrite (parse_url_query _ _ _ _ q' _ Hsp Hq (Hst Hq _ _)).
    cbn [scheme netloc path query fragment]. cbn zeta. rewrite Hw.
    rewrite bool_decide_eq_false_2 by (intros H; apply H; reflexivity).
    rewrite add_warnings_nil. done.
Qed.

(** C2, as amended.  Normalisation is idempotent wherever [urlunsplit]
    keeps the two slashes of an empty netloc before a path that starts with
    [//], and under the earliest form of [urlunsplit] for the links with a
    netloc or with a path that does not start with [//]: when [parse_url]
    returns [r] for such a link, [parse_url] applied to [r] returns [r]
    again, and the only warning the second application can record is the
    one about the scheme (never "link can be simplified"). *)
Theorem parse_url_idempotent P (u : str) s r s' p :
  parse_url P u s = (Ok r, s') ->
  urlsplit P u = Ok p ->
  netloc_step P <> SlashesDropped \/ netloc p <> [] \/ take 2 (path p) <> py "//" ->
  exists ws, parse_url P r s' = (Ok r, add_warnings ws s')
             /\ Forall (fun w => w = MalformedLink r) ws.
Proof.
  intros H Hsp Hs. destruct (parse_url_inv _ _ _ _ _ H) as (p' & q' & Hsp' & Hq & ->).
  rewrite Hsp in Hsp'. injection Hsp' as <-.
  rewrite (parse_url_normalised P p q' s' (urlsplit_bound _ _ _ Hsp)
             (urlsplit_facts _ _ _ Hsp) Hs Hq).
  eexists. split; [reflexivity|].
  destruct (bool_decide _); [apply Forall_nil_2 | apply Forall_cons_2; [done | apply Forall_nil_2]].
Qed.

(** C1.  The scenario of the specification.  Where the attribute
    [urllib.parse] is bound, the tracking parameter is dropped, and exactly
    two warnings are recorded, the one listing ['utm_source'] and the one
    showing the link before and after.  Where it is not bound (the script
    imports [urllib] only), the first statement of [parse_url] raises
    AttributeError, and nothing is returned or recorded. *)
Theorem parse_url_scenario P s :
  parse_url P (py "https://example.com/a?utm_source=x&ref=y") s =
    if urllib_parse_bound P then
      (Ok (py "https://example.com/a?ref=y"),
       add_warnings
         [TrackingParameters (py "https://example.com/a?utm_source=x&ref=y") [py "utm_source"];
          CanBeSimplified (py "https://example.com/a?utm_source=x&ref=y")
                          (py "https://example.com/a?ref=y")] s)
    else (Raise AttributeError, s).
Proof.
  set (link := py "https://example.com/a?utm_source=x&ref=y").
  set (p := {| scheme := py "https"; netloc := py "example.com"; path := py "/a";
               query := py "utm_source=x&ref=y"; fragment := [] |}).
  destruct (urllib_parse_bound P) eqn:Hb.
  2:{ unfold parse_url, bind, lift, urlsplit, urllib_parse. rewrite Hb. reflexivity. }
  assert (Hsp : urlsplit P link = Ok p)
    by (unfold urlsplit; rewrite urllib_parse_bound_eq by done; reflexivity).
  rewrite (parse_url_query P link s p (py "ref=y")
             (add_warnings [TrackingParameters link [py "utm_source"]] s) Hsp); [| done |].
  - assert (Hr : urlunsplit P (scheme p) (netloc p) (path p) (py "ref=y") (fragment p)
                 = py "https://example.com/a?ref=y")
      by (unfold urlunsplit; destruct (netloc_step P); reflexivity).
    cbn zeta. rewrite Hr, add_warnings_app. reflexivity.
  - rewrite scrub_parameters_eq.
    change (found_tracking (query p)) with [py "utm_source"].
    change (kept_parameters (query p)) with [(py "ref", [py "y"])].
    change (scheme_warning link p) with (@nil warning).
    rewrite add_warnings_nil. reflexivity.
Qed.

Lemma no_query_mark_no_query P link p :
  urlsplit P link = Ok p -> query p = [] \/ (63 ∉ before_fragment link) -> query p = [].
Proof.
  intros Hsp [Hq|Hn]; [done|]. destruct (query p) as [|c q] eqn:Hq; [done|].
  exfalso. apply Hn. eapply urlsplit_query_mark; [exact Hsp | rewrite Hq; done].
Qed.

(** C6, as amended.  A link without query string that [urlsplit] accepts
    (a link whose parts have an empty query, as every link without a
    question mark before its fragment mark has): [parse_url] returns the
    parts reassembled with an empty query, a text without question mark
    before its fragment mark, and records the warning about the scheme if
    the scheme is not a recognised one and the warning about
    simplification if the text returned differs from the link, and
    nothing else: never a warning about tracking parameters. *)
Theorem parse_url_without_query P link s p :
  urlsplit P link = Ok p ->
  query p = [] \/ (63 ∉ before_fragment link) ->
  let r := urlunsplit P (scheme p) (netloc p) (path p) [] (fragment p) in
  query p = []
  /\ parse_url P link s =
       (Ok r,
        {| warnings := warnings s
                       ++ (if bool_decide (scheme p ∈ [py "mailto"; py "http"; py "https"])
                           then [] else [MalformedLink link])
                       ++ (if bool_decide (r = link) then [] else [CanBeSimplified link r]);
           log := log s |})
  /\ (63 ∉ before_fragment r).
Proof.
  intros Hsp Hno r. pose proof (no_query_mark_no_query _ _ _ Hsp Hno) as Hq.
  split; [done|]. split.
  - rewrite (parse_url_no_query _ _ _ _ Hsp Hq). cbn zeta. fold r.
    unfold add_warnings, scheme_warning. cbn [warnings log]. do 4 f_equal.
    destruct (decide (r = link)) as [Hr|Hr].
    + rewrite bool_decide_eq_false_2 by (intros H; done).
      rewrite bool_decide_eq_true_2 by done. done.
    + rewrite bool_decide_eq_true_2 by done. rewrite bool_decide_eq_false_2 by done. done.
  - apply urlunsplit_no_query. eapply urlsplit_facts. exact Hsp.
Qed.

Lemma parse_qs_nil : parse_qs [] = [].
Proof. reflexivity. Qed.

(** C3, as amended.  When [parse_qs] reads at least one parameter from the
    query string and every parameter it reads is on the block-list,
    [parse_url] returns the link written with an empty query component,
    a text without question mark before its fragment mark, and records,
    after the warning about the scheme if there is one, exactly one warning
    about tracking parameters and exactly one about simplification. *)
Theorem parse_url_only_tracking P link s p :
  urlsplit P link = Ok p ->
  parse_qs (query p) <> [] ->
  Forall (fun kv => kv.1 ∈ TRACKING_PARAMETERS) (parse_qs (query p)) ->
  let r := urlunsplit P (scheme p) (netloc p) (path p) [] (fragment p) in
  parse_url P link s =
    (Ok r, add_warnings (scheme_warning link p
                         ++ [TrackingParameters link (map fst (parse_qs (query p)));
                             CanBeSimplified link r]) s)
  /\ 63 ∉ before_fragment r.
Proof.
  intros Hsp Hne Hall r.
  assert (Hq : query p <> []) by (intros Hq; rewrite Hq in Hne; done).
  pose proof (urlunsplit_no_query P p (urlsplit_facts _ _ _ Hsp)) as Hr63. fold r in Hr63.
  split; [|done].
  assert (Hk : kept_parameters (query p) = []).
  { unfold kept_parameters. apply filter_none.
    eapply Forall_impl; [exact Hall|]. unfold tracked. simpl. auto. }
  assert (Hf : found_tracking (query p) = map fst (parse_qs (query p))).
  { unfold found_tracking. f_equal. clear -Hall.
    induction Hall as [|kv d Hkv _ IH]; [done|].
    rewrite filter_cons_True by exact Hkv. f_equal. done. }
  erewrite parse_url_query; [| done | done |].
  2:{ rewrite scrub_parameters_eq, Hk, Hf. cbn zeta.
      rewrite bool_decide_eq_true_2; [reflexivity|].
      destruct (parse_qs (query p)); done. }
  cbn zeta. fold r. rewrite bool_decide_eq_true_2.
  - unfold add_warning, add_warnings. cbn [warnings log]. rewrite <- !app_assoc. done.
  - intros Hr. (* the link has a question mark before its fragment mark *)
    apply Hr63. rewrite Hr. eapply urlsplit_query_mark; done.
Qed.

(** *** Computations only add to the state *)

Lemma ext_nil s : ext [] [] s = s.
Proof. destruct s. unfold ext. cbn. rewrite !app_nil_r. done. Qed.

Lemma ext_ext ws1 lg1 ws2 lg2 s :
  ext ws2 lg2 (ext ws1 lg1 s) = ext (ws1 ++ ws2) (lg1 ++ lg2) s.
Proof. unfold ext. cbn. rewrite !app_assoc. done. Qed.

Section Appends.
Context (Q : warning -> Prop).

Lemma appends_ret {A} (a : A) : appends Q (ret a).
Proof. exists (Ok a), [], []. split; [apply Forall_nil_2|]. intros s. rewrite ext_nil. done. Qed.

Lemma appends_raise {A} e : appends Q (@raise A e).
Proof. exists (Raise e), [], []. split; [apply Forall_nil_2|]. intros s. rewrite ext_nil. done. Qed.

Lemma appends_lift {A} (r : result A) : appends Q (lift r).
Proof. exists r, [], []. split; [apply Forall_nil_2|]. intros s. rewrite ext_nil. done. Qed.

Lemma appends_warn w : Q w -> appends Q (warn w).
Proof.
  intros Hw. exists (Ok tt), [w], []. split; [apply Forall_cons_2; [done | apply Forall_nil_2]|].
  intros s. unfold warn, ext. rewrite app_nil_r. done.
Qed.

Lemma appends_log r : appends Q (log_info r).
Proof.
  exists (Ok tt), [], [r]. split; [apply Forall_nil_2|].
  intros s. unfold log_info, ext. rewrite app_nil_r. done.
Qed.

Lemma appends_bind {A B} (m : M A) (k : A -> M B) :
  appends Q m -> (forall a, appends Q (k a)) -> appends Q (bind m k).
Proof.
  intros (r & ws & lg & Hws & Hm) Hk. destruct r as [a|e].
  - destruct (Hk a) as (r' & ws' & lg' & Hws' & Hk').
    exists r', (ws ++ ws'), (lg ++ lg'). split; [apply Forall_app; done|].
    intros s. unfold bind. rewrite Hm, Hk', ext_ext. done.
  - exists (Raise e), ws, lg. split; [done|]. intros s. unfold bind. rewrite Hm. done.
Qed.

Lemma appends_when b (m : M unit) : appends Q m -> appends Q (when b m).
Proof. intros Hm. destruct b; [done | apply appends_ret]. Qed.
End Appends.

Lemma scrub_parameters_appends url q : appends link_warning (scrub_parameters url q).
Proof.
  unfold scrub_parameters. destruct (scrub_loop (parse_qs q)) as [filtered found].
  apply appends_bind.
  - apply appends_when, appends_warn. done.
  - intros _. destruct filtered; [apply appends_ret|].
    destruct (urlencode _); [apply appends_ret | apply appends_raise].
Qed.

Lemma parse_url_appends P link : appends link_warning (fun s => parse_url P link s).
Proof.
  unfold parse_url.
  apply appends_bind; [apply appends_lift|]. intros p.
  apply appends_bind; [apply appends_when, appends_warn; done|]. intros _.
  apply appends_bind.
  { destruct (nonempty (query p)); [apply scrub_parameters_appends | apply appends_ret]. }
  intros q. apply appends_bind; [apply appends_when, appends_warn; done|]. intros _.
  apply appends_ret.
Qed.

Lemma parse_href_appends P link : appends link_warning (parse_href P link).
Proof.
  destruct link as [l|]; cbn [parse_href].
  - apply appends_bind; [apply parse_url_appends|]. intros r. apply appends_ret.
  - unfold parse_url_None. apply appends_bind; [apply appends_lift|]. intros _.
    repeat (apply appends_bind; [apply appends_warn; done|]; intros _).
    apply appends_ret.
Qed.

Lemma extract_links_loop_appends P tags strict_mode urls :
  appends link_warning (extract_links_loop P tags strict_mode urls).
Proof.
  revert strict_mode urls. induction tags as [|tag rest IH]; intros strict_mode urls;
    cbn [extract_links_loop].
  - apply appends_ret.
  - destruct (bool_decide (tag_name tag = py "a")); [|apply IH].
    destruct strict_mode; [|apply IH].
    apply appends_bind; [apply parse_href_appends|]. intros u. apply IH.
Qed.

Lemma inspect_file_appends P W filename : appends link_warning (inspect_file P W filename).
Proof.
  unfold inspect_file.
  apply appends_bind; [apply appends_log|]. intros _.
  apply appends_bind; [apply appends_lift|]. intros md_text.
  apply appends_bind; [apply extract_links_loop_appends|]. intros links.
  apply appends_ret.
Qed.

Lemma inspect_file_extracted P W filename :
  exists ws lg, Forall link_warning ws
                /\ forall s, inspect_file P W filename s = (extracted P W filename, ext ws lg s).
Proof.
  destruct (inspect_file_appends P W filename) as (r & ws & lg & Hws & H).
  exists ws, lg. split; [done|]. intros s. unfold extracted. rewrite !H. done.
Qed.

(** *** The duplicate tracker, as a function of the links met *)

Lemma track_pairs_app ps1 ps2 linkset :
  track_pairs (ps1 ++ ps2) linkset =
    ((track_pairs ps1 linkset).1 ++ (track_pairs ps2 (track_pairs ps1 linkset).2).1,
     (track_pairs ps2 (track_pairs ps1 linkset).2).2).
Proof.
  revert linkset. induction ps1 as [|[f l] ps1 IH]; intros linkset; cbn [app track_pairs].
  - cbn [fst snd app]. destruct (track_pairs ps2 linkset); done.
  - destruct (linkset !! l) as [[|c0 c]|]; try apply IH.
    rewrite IH. cbn [fst snd app]. done.
Qed.

Lemma inspect_links_loop_eq file links linkset s :
  inspect_links_loop file links linkset s =
    (Ok (track_pairs (map (pair file) links) linkset).2,
     ext (track_pairs (map (pair file) links) linkset).1 [] s).
Proof.
  revert linkset s. induction links as [|l links IH]; intros linkset s;
    cbn [inspect_links_loop map track_pairs].
  - unfold ret. rewrite ext_nil. done.
  - destruct (linkset !! l) as [[|c0 c]|]; try apply IH.
    unfold bind, warn. rewrite IH. cbn [fst snd]. unfold ext. cbn [warnings log].
    rewrite !app_nil_r, <- app_assoc. done.
Qed.

Lemma occ_files_cons_eq link f ps : occ_files link ((f, link) :: ps) = f :: occ_files link ps.
Proof. unfold occ_files. rewrite filter_cons_True by done. done. Qed.

Lemma occ_files_cons_ne link f l ps : l <> link -> occ_files link ((f, l) :: ps) = occ_files link ps.
Proof. intros H. unfold occ_files. rewrite filter_cons_False by done. done. Qed.

Lemma occ_files_app link ps1 ps2 :
  occ_files link (ps1 ++ ps2) = occ_files link ps1 ++ occ_files link ps2.
Proof. unfold occ_files. rewrite filter_app, map_app. done. Qed.

Lemma track_pairs_dups link ps linkset :
  files_named linkset -> Forall (fun p => p.1 <> []) ps ->
  filter (dup_of link) (track_pairs ps linkset).1 =
    match linkset !! link with
    | Some first => dups_after link first (occ_files link ps)
    | None => dups_of link (occ_files link ps)
    end
  /\ (track_pairs ps linkset).2 !! link =
     match linkset !! link with
     | Some first => Some first
     | None => head (occ_files link ps)
     end.
Proof.
  intros Hn Hps. revert linkset Hn.
  induction Hps as [|[f l] ps Hf _ IH]; intros linkset Hn.
  - cbn. destruct (linkset !! link); done.
  - cbn [fst] in Hf. cbn [track_pairs].
    destruct (linkset !! l) as [c|] eqn:Hl.
    + destruct c as [|c0 c]; [exfalso; eapply Hn; done|].
      cbn [fst snd]. destruct (decide (l = link)) as [->|Hne].
      * rewrite filter_cons_True by done. rewrite occ_files_cons_eq.
        rewrite Hl. destruct (IH linkset Hn) as [IH1 IH2]. rewrite Hl in IH1, IH2.
        rewrite IH1, IH2. done.
      * rewrite filter_cons_False by done. rewrite occ_files_cons_ne by done.
        apply IH. done.
    + assert (Hn' : files_named (<[l := f]> linkset)).
      { intros l' f'. destruct (decide (l = l')) as [->|Hne].
        - rewrite lookup_insert_eq. intros [= <-]. done.
        - rewrite lookup_insert_ne by done. apply Hn. }
      destruct (IH _ Hn') as [IH1 IH2]. rewrite IH1, IH2.
      destruct (decide (l = link)) as [->|Hne].
      * rewrite occ_files_cons_eq, lookup_insert_eq, Hl. done.
      * rewrite occ_files_cons_ne by done.
        rewrite lookup_insert_ne by done. done.
Qed.

(** *** The whole run *)

Lemma filter_link_warnings link ws :
  Forall link_warning ws -> filter (dup_of link) ws = [].
Proof.
  intros H. apply filter_none. eapply Forall_impl; [exact H|].
  intros w Hw Hd. destruct w; done.
Qed.

Lemma inspect_files_loop_eq P W file_list linkset s :
  Forall (readable P W) file_list ->
  exists ws lg,
    inspect_files_loop P W file_list linkset s =
      (Ok (track_pairs (occurrences P W file_list) linkset).2, ext ws lg s)
    /\ forall link, filter (dup_of link) ws =
                    filter (dup_of link) (track_pairs (occurrences P W file_list) linkset).1.
Proof.
  intros H. revert linkset s. induction H as [|f fl [links Hf] _ IH]; intros linkset s.
  - exists [], []. cbn. rewrite ext_nil. done.
  - destruct (inspect_file_extracted P W f) as (ws1 & lg1 & Hws1 & H1).
    cbn [inspect_files_loop occurrences flat_map]. rewrite Hf.
    fold (occurrences P W fl). rewrite track_pairs_app. cbn [fst snd].
    set (r1 := track_pairs (map (pair f) links) linkset).
    destruct (IH r1.2 (ext r1.1 [] (ext ws1 lg1 s))) as (ws2 & lg2 & H2 & Hd2).
    exists (ws1 ++ r1.1 ++ ws2), (lg1 ++ lg2). split.
    + unfold bind. rewrite H1, Hf, inspect_links_loop_eq. fold r1. rewrite H2.
      rewrite !ext_ext. done.
    + intros link. rewrite !filter_app, Hd2, filter_link_warnings by done. done.
Qed.

(** The warnings about duplicates of a run, link by link. *)
Lemma inspect_files_duplicates P W file_list s :
  Forall (fun f => f <> []) file_list -> Forall (readable P W) file_list ->
  exists ws lg linkset,
    inspect_files_loop P W file_list ∅ s = (Ok linkset, ext ws lg s)
    /\ inspect_files P W file_list s = (Ok tt, ext ws lg s)
    /\ forall link,
         filter (dup_of link) ws = dups_of link (occ_files link (occurrences P W file_list))
         /\ linkset !! link = head (occ_files link (occurrences P W file_list)).
Proof.
  intros Hne Hr.
  destruct (inspect_files_loop_eq P W file_list ∅ s Hr) as (ws & lg & Hrun & Hd).
  exists ws, lg, (track_pairs (occurrences P W file_list) ∅).2.
  split; [done|]. split; [unfold inspect_files, bind; rewrite Hrun; done|].
  intros link. rewrite Hd.
  assert (Hps : Forall (fun p => p.1 <> []) (occurrences P W file_list)).
  { unfold occurrences. apply Forall_forall. intros p Hp.
    apply list_elem_of_In, in_flat_map in Hp as (f & Hf & Hp).
    destruct (extracted P W f); [|done].
    apply in_map_iff in Hp as (l & <- & _). cbn.
    rewrite Forall_forall in Hne. apply Hne, list_elem_of_In. done. }
  destruct (track_pairs_dups link (occurrences P W file_list) ∅) as [H1 H2];
    [intros l f; rewrite lookup_empty; done | done |].
  rewrite lookup_empty in H1, H2. done.
Qed.

Lemma occ_files_once link f links :
  length (filter (fun l => l = link) links) = 1%nat ->
  occ_files link (map (pair f) links) = [f].
Proof.
  unfold occ_files. induction links as [|l links IH]; [done|].
  cbn [map]. destruct (decide (l = link)) as [->|Hne].
  - rewrite (filter_cons_True (fun l => l = link)) by done.
    rewrite (filter_cons_True (fun p => p.2 = link)) by done.
    cbn [length map fst]. intros [= H]. f_equal.
    destruct (filter (fun l => l = link) links) eqn:E; [|done].
    clear -E. induction links as [|l links IH]; [done|].
    destruct (decide (l = link)) as [->|Hne].
    + rewrite filter_cons_True in E by done. done.
    + rewrite filter_cons_False in E by done.
      cbn [map]. rewrite (filter_cons_False (fun p => p.2 = link)) by done. auto.
  - rewrite (filter_cons_False (fun l => l = link)) by done.
    rewrite (filter_cons_False (fun p => p.2 = link)) by done.
    done.
Qed.

Lemma occ_files_count link f links :
  occ_files link (map (pair f) links)
  = replicate (length (filter (fun l => l = link) links)) f.
Proof.
  unfold occ_files. induction links as [|l links IH]; [done|].
  cbn [map]. destruct (decide (l = link)) as [->|Hne].
  - rewrite (filter_cons_True (fun l => l = link)) by done.
    rewrite (filter_cons_True (fun p => p.2 = link)) by done.
    cbn [length replicate map fst]. f_equal. done.
  - rewrite (filter_cons_False (fun l => l = link)) by done.
    rewrite (filter_cons_False (fun p => p.2 = link)) by done.
    done.
Qed.

(** C5.  The mapping has one entry for a link, and meeting a link that has
    an entry records a warning and leaves the mapping as it is.  For a link
    met once in each of three files, exactly two warnings about it are
    recorded, both naming the first file as the earlier occurrence, and the
    mapping still holds the first file for it at the end. *)
Theorem three_files_two_warnings P W (f1 f2 f3 : str) links1 links2 links3 link s :
  f1 <> [] -> f2 <> [] -> f3 <> [] ->
  extracted P W f1 = Ok links1 ->
  extracted P W f2 = Ok links2 ->
  extracted P W f3 = Ok links3 ->
  length (filter (fun l => l = link) links1) = 1%nat ->
  length (filter (fun l => l = link) links2) = 1%nat ->
  length (filter (fun l => l = link) links3) = 1%nat ->
  (forall file collision rest (linkset : gmap nlink str) s',
      linkset !! link = Some collision -> collision <> [] ->
      inspect_links_loop file (link :: rest) linkset s'
      = inspect_links_loop file rest linkset
          (add_warnings [DuplicateLink link file collision] s'))
  /\ exists ws lg linkset,
       inspect_files_loop P W [f1; f2; f3] ∅ s = (Ok linkset, ext ws lg s)
       /\ inspect_files P W [f1; f2; f3] s = (Ok tt, ext ws lg s)
       /\ filter (dup_of link) ws = [DuplicateLink link f2 f1; DuplicateLink link f3 f1]
       /\ linkset !! link = Some f1.
Proof.
  intros N1 N2 N3 E1 E2 E3 C1 C2 C3. split.
  { intros file collision rest linkset s' Hl Hc. cbn [inspect_links_loop]. rewrite Hl.
    destruct collision as [|c0 c]; [done|]. reflexivity. }
  destruct (inspect_files_duplicates P W [f1; f2; f3] s) as (ws & lg & linkset & Hl & Hr & Hd).
  { repeat apply Forall_cons_2; try done. }
  { repeat apply Forall_cons_2; try apply Forall_nil_2; eexists; done. }
  exists ws, lg, linkset. split; [done|]. split; [done|].
  destruct (Hd link) as [H1 H2]. rewrite H1, H2.
  unfold occurrences. cbn [flat_map]. rewrite E1, E2, E3, app_nil_r.
  rewrite !occ_files_app, !occ_files_once by done. done.
Qed.

(** C4, as amended.  A link met [k] times in one file and in no other
    file of the run is reported [k - 1] times: every occurrence after the
    first is compared with the first one in the same file. *)
Theorem same_file_duplicates P W (before after : list str) (f : str) links link s :
  Forall (fun f => f <> []) (before ++ f :: after) ->
  Forall (readable P W) (before ++ f :: after) ->
  extracted P W f = Ok links ->
  (forall f' links', f' ∈ before ++ after -> extracted P W f' = Ok links' -> link ∉ links') ->
  exists ws lg,
    inspect_files P W (before ++ f :: after) s = (Ok tt, ext ws lg s)
    /\ filter (dup_of link) ws =
       replicate (length (filter (fun l => l = link) links) - 1) (DuplicateLink link f f).
Proof.
  intros Hne Hr Hf Hother.
  destruct (inspect_files_duplicates P W _ s Hne Hr) as (ws & lg & linkset & _ & Hrun & Hd).
  exists ws, lg. split; [done|]. destruct (Hd link) as [-> _].
  assert (Hnone : forall fl, (forall f', f' ∈ fl -> f' ∈ before ++ after) ->
                             occ_files link (occurrences P W fl) = []).
  { induction fl as [|f' fl IH]; intros Hin; [done|].
    unfold occurrences. cbn [flat_map]. fold (occurrences P W fl).
    rewrite occ_files_app, IH, app_nil_r by (intros; apply Hin; apply elem_of_cons; auto).
    destruct (extracted P W f') as [links'|] eqn:E; [|done].
    rewrite occ_files_count.
    rewrite filter_none; [done|]. apply Forall_forall. intros l Hl ->.
    eapply (Hother f' links'); [apply Hin; apply elem_of_cons; auto | done | done]. }
  unfold occurrences. rewrite flat_map_app. cbn [flat_map]. rewrite Hf.
  fold (occurrences P W before). fold (occurrences P W after).
  rewrite !occ_files_app, !Hnone, occ_files_count.
  - cbn [app]. rewrite app_nil_r.
    destruct (length (filter (fun l => l = link) links)) as [|k]; [done|].
    cbn [replicate dups_of]. replace (S k - 1)%nat with k by lia.
    unfold dups_after. induction k; [done|]. cbn [replicate map]. f_equal. done.
  - intros f' Hin. apply elem_of_app. auto.
  - intros f' Hin. apply elem_of_app. auto.
Qed.

(** C10.  A heading of level 5 or 6 is not among the tags the loop of
    [extract_links] sees.  From every state of the loop, the tags that
    start with such a heading are handled as the tags after it are, with
    the strict flag as it was; and a document with such a heading gives the
    same links and the same warnings as the document without it. *)
Theorem extract_links_ignores_h5_h6 P (before after : html) (tag : Tag) :
  tag_name tag ∈ [py "h5"; py "h6"] ->
  (forall strict_mode urls,
      extract_links_loop P (find_all LINK_AND_HEADING_TAGS (tag :: after)) strict_mode urls
      = extract_links_loop P (find_all LINK_AND_HEADING_TAGS after) strict_mode urls)
  /\ extract_links P (before ++ tag :: after) = extract_links P (before ++ after).
Proof.
  intros Hn.
  assert (Hf : forall rest, find_all LINK_AND_HEADING_TAGS (tag :: rest)
                            = find_all LINK_AND_HEADING_TAGS rest);
    [|split; [intros; rewrite Hf; done
             |unfold extract_links, find_all in *; rewrite !filter_app, Hf; done]].
  intros rest. unfold find_all. rewrite filter_cons_False; [done|].
  intros Hin. apply elem_of_cons in Hn as [Hn|Hn%list_elem_of_singleton];
    rewrite Hn in Hin; vm_compute in Hin; 
    repeat (apply elem_of_cons in Hin as [Hin|Hin]; [discriminate|]);
    apply not_elem_of_nil in Hin; done.
Qed.

(** C9.  A directory with no files, or with no file whose name matches:
    [get_recent_files] raises, [main] ends with that exception before any
    file is inspected, nothing is recorded or logged, and the process ends
    with the uncaught exception (status 1, nothing on standard output). *)
Theorem no_matching_files_is_fatal P W args listing :
  listdir W (arg_path args) = Ok listing ->
  filter (fun f => re_match P RE_FILENAME f = true) listing = [] ->
  script P W args =
    {| exit_code := 1; stdout := [];
       uncaught := Some (if bool_decide (listing = []) then NoFilesFound (arg_path args)
                         else NoMatchingFiles (arg_path args));
       final := initial_state |}.
Proof.
  intros Hl Hf. unfold script, main, get_recent_files, bind, lift. rewrite Hl.
  destruct listing as [|f listing].
  - done.
  - rewrite bool_decide_eq_true_2 by done. cbn [negb]. rewrite Hf. done.
Qed.


(** *** Sorting file names *)

Lemma str_leb_total s1 s2 : str_leb s1 s2 = false -> str_leb s2 s1 = true.
Proof.
  revert s2. induction s1 as [|a t1 IH]; intros [|b t2]; cbn [str_leb]; try done.
  destruct (N.ltb_spec a b), (N.eqb_spec a b), (N.ltb_spec b a), (N.eqb_spec b a);
    cbn [orb andb]; try done; try lia. apply IH.
Qed.

Lemma str_leb_trans s1 s2 s3 :
  str_leb s1 s2 = true -> str_leb s2 s3 = true -> str_leb s1 s3 = true.
Proof.
  revert s2 s3. induction s1 as [|a t1 IH]; intros [|b t2] [|c t3]; cbn [str_leb]; try done.
  destruct (N.ltb_spec a b), (N.eqb_spec a b), (N.ltb_spec b c), (N.eqb_spec b c),
    (N.ltb_spec a c), (N.eqb_spec a c); cbn [orb andb]; try done; try lia.
  apply IH.
Qed.

Lemma sort_insert_perm x l : sort_insert x l ≡ₚ x :: l.
Proof.
  induction l as [|y l IH]; cbn [sort_insert]; [done|].
  destruct (str_leb x y); [done|]. rewrite IH. apply Permutation_swap.
Qed.

Lemma sort_insert_sorted x l :
  StronglySorted str_le l -> StronglySorted str_le (sort_insert x l).
Proof.
  induction 1 as [|y l Hs IH Hy]; cbn [sort_insert].
  - apply SSorted_cons; [apply SSorted_nil | apply Forall_nil_2].
  - destruct (str_leb x y) eqn:E.
    + apply SSorted_cons; [apply SSorted_cons; done|].
      apply Forall_cons_2; [exact E|].
      eapply Forall_impl; [exact Hy|]. intros z Hz. eapply str_leb_trans; done.
    + apply SSorted_cons; [done|].
      rewrite sort_insert_perm. apply Forall_cons_2; [apply str_leb_total; done | done].
Qed.

Lemma list_sort_perm l : list_sort l ≡ₚ l.
Proof.
  unfold list_sort. induction l as [|x l IH]; [done|].
  cbn [foldr]. rewrite sort_insert_perm, IH. done.
Qed.

Lemma list_sort_sorted l : StronglySorted str_le (list_sort l).
Proof.
  unfold list_sort. induction l as [|x l IH]; [apply SSorted_nil|].
  cbn [foldr]. apply sort_insert_sorted. done.
Qed.

Lemma StronglySorted_app_inv (l1 l2 : list str) :
  StronglySorted str_le (l1 ++ l2) ->
  StronglySorted str_le l2 /\ forall x y, x ∈ l1 -> y ∈ l2 -> str_le x y.
Proof.
  induction l1 as [|a l1 IH]; cbn [app].
  - intros H. split; [done|]. intros x y Hx. apply not_elem_of_nil in Hx. done.
  - intros H. apply StronglySorted_inv in H as [Hs Ha].
    destruct (IH Hs) as [H2 H12]. split; [done|].
    intros x y [->|Hx]%elem_of_cons Hy.
    + rewrite Forall_forall in Ha. apply Ha. apply elem_of_app. auto.
    + auto.
Qed.

(** [l[-count:]] for a positive [count]: the last [count] items. *)
Lemma slice_from_last {A} (count : Z) (l : list A) :
  (1 <= count)%Z ->
  slice_from (- count) l = drop (length l - Z.to_nat count) l.
Proof.
  intros Hc. unfold slice_from.
  destruct (Z.ltb_spec (- count) 0); [|lia]. f_equal. lia.
Qed.

(** C8, as amended.  When at least one file name of the directory matches
    and the count is at least 1, [get_recent_files] returns, joined with
    the directory, the [count] greatest matching names in ascending order
    (all of them when fewer match): the names returned are sorted, they are
    [min count m] of the [m] matching names, and every matching name left
    out is at most every name returned. *)
Theorem get_recent_files_last P W dir count listing s :
  listdir W dir = Ok listing ->
  filter (fun f => re_match P RE_FILENAME f = true) listing <> [] ->
  (1 <= count)%Z ->
  exists older recent,
    get_recent_files P W dir count s = (Ok (map (path_join dir) recent), ext [] [RecentFiles recent] s)
    /\ filter (fun f => re_match P RE_FILENAME f = true) listing ≡ₚ older ++ recent
    /\ StronglySorted str_le recent
    /\ length recent
       = Nat.min (Z.to_nat count)
                 (length (filter (fun f => re_match P RE_FILENAME f = true) listing))
    /\ forall x y, x ∈ older -> y ∈ recent -> str_le x y.
Proof.
  intros Hl Hm Hc.
  set (matching := filter (fun f => re_match P RE_FILENAME f = true) listing) in *.
  set (n := (length (list_sort matching) - Z.to_nat count)%nat).
  exists (take n (list_sort matching)), (drop n (list_sort matching)).
  assert (Hne : listing <> []) by (intros ->; done).
  split; [|split; [|split; [|split]]].
  - unfold get_recent_files, bind, lift. rewrite Hl.
    rewrite bool_decide_eq_true_2 by done. cbn [negb]. fold matching.
    rewrite bool_decide_eq_true_2 by done. cbn [negb].
    rewrite slice_from_last by done. fold n.
    unfold log_info, ret, ext. cbn [warnings log]. rewrite app_nil_r. done.
  - rewrite take_drop. symmetry. apply list_sort_perm.
  - pose proof (list_sort_sorted matching) as Hs.
    rewrite <- (take_drop n (list_sort matching)) in Hs.
    apply StronglySorted_app_inv in Hs as [? _]. done.
  - rewrite length_drop. unfold n.
    pose proof (Permutation_length (list_sort_perm matching)). lia.
  - pose proof (list_sort_sorted matching) as Hs.
    rewrite <- (take_drop n (list_sort matching)) in Hs.
    apply StronglySorted_app_inv in Hs as [_ ?]. done.
Qed.

(** With the count 0 the slice [listing[-0:]] is the whole list. *)
Lemma get_recent_files_zero P W dir listing s :
  listdir W dir = Ok listing ->
  filter (fun f => re_match P RE_FILENAME f = true) listing <> [] ->
  get_recent_files P W dir 0 s =
    (Ok (map (path_join dir)
             (list_sort (filter (fun f => re_match P RE_FILENAME f = true) listing))),
     ext [] [RecentFiles (list_sort (filter (fun f => re_match P RE_FILENAME f = true) listing))] s).
Proof.
  intros Hl Hm.
  assert (Hne : listing <> []) by (intros ->; done).
  unfold get_recent_files, bind, lift. rewrite Hl.
  rewrite bool_decide_eq_true_2 by done. cbn [negb].
  rewrite bool_decide_eq_true_2 by done. cbn [negb].
  unfold slice_from. cbn. unfold log_info, ret, ext. cbn [warnings log].
  rewrite app_nil_r. done.
Qed.

(** C2: a link with six slashes after the scheme, under the earliest form
    of [urlunsplit].  [parse_url] returns it with four slashes, and
    [parse_url] of that returns it with two and records that "link can be
    simplified". *)
Lemma parse_url_twice_simplifies_twice :
  parse_url ascii_platform_before (py "https://////x") initial_state
  = (Ok (py "https:////x"),
     {| warnings := [CanBeSimplified (py "https://////x") (py "https:////x")]; log := [] |})
  /\ parse_url ascii_platform_before (py "https:////x")
       {| warnings := [CanBeSimplified (py "https://////x") (py "https:////x")]; log := [] |}
     = (Ok (py "https://x"),
        {| warnings := [CanBeSimplified (py "https://////x") (py "https:////x");
                        CanBeSimplified (py "https:////x") (py "https://x")];
           log := [] |}).
Proof. split; reflexivity. Defined.

(** C2, as amended, on the scenario of C1 under the earliest form of
    [urlunsplit]: the link has a netloc, and the normalised link is
    returned unchanged. *)
Lemma parse_url_idempotent_witness :
  exists ws,
    parse_url ascii_platform_before (py "https://example.com/a?ref=y")
      (add_warnings
         [TrackingParameters (py "https://example.com/a?utm_source=x&ref=y") [py "utm_source"];
          CanBeSimplified (py "https://example.com/a?utm_source=x&ref=y")
                          (py "https://example.com/a?ref=y")] initial_state)
    = (Ok (py "https://example.com/a?ref=y"),
       add_warnings ws
         (add_warnings
            [TrackingParameters (py "https://example.com/a?utm_source=x&ref=y") [py "utm_source"];
             CanBeSimplified (py "https://example.com/a?utm_source=x&ref=y")
                             (py "https://example.com/a?ref=y")] initial_state))
    /\ Forall (fun w => w = MalformedLink (py "https://example.com/a?ref=y")) ws.
Proof.
  apply (parse_url_idempotent ascii_platform_before
           (py "https://example.com/a?utm_source=x&ref=y") initial_state _ _
           {| scheme := py "https"; netloc := py "example.com"; path := py "/a";
              query := py "utm_source=x&ref=y"; fragment := [] |}).
  - reflexivity.
  - reflexivity.
  - right; left. discriminate.
Defined.

(** C3: a link whose only parameter is a tracking parameter with a blank
    value.  The query string is not empty and no parameter outside the
    block-list is read from it, yet the only warning is the one about
    simplification. *)
Lemma blank_tracking_parameter_not_reported :
  urlsplit ascii_platform (py "https://example.com/a?utm_source=")
  = Ok {| scheme := py "https"; netloc := py "example.com"; path := py "/a";
          query := py "utm_source="; fragment := [] |}
  /\ parse_qs (py "utm_source=") = []
  /\ parse_url ascii_platform (py "https://example.com/a?utm_source=") initial_state
     = (Ok (py "https://example.com/a"),
        {| warnings := [CanBeSimplified (py "https://example.com/a?utm_source=")
                                        (py "https://example.com/a")];
           log := [] |}).
Proof. repeat split; reflexivity. Defined.

(** C3, as amended, on a link with two tracking parameters. *)
Lemma parse_url_only_tracking_witness :
  parse_url ascii_platform (py "http://example.com/?utm_source=a&utm_medium=b") initial_state
  = (Ok (py "http://example.com/"),
     add_warnings
       ([] ++ [TrackingParameters (py "http://example.com/?utm_source=a&utm_medium=b")
                                  [py "utm_source"; py "utm_medium"];
               CanBeSimplified (py "http://example.com/?utm_source=a&utm_medium=b")
                               (py "http://example.com/")]) initial_state)
  /\ 63 ∉ before_fragment (py "http://example.com/").
Proof.
  apply (parse_url_only_tracking ascii_platform
           (py "http://example.com/?utm_source=a&utm_medium=b") initial_state
           {| scheme := py "http"; netloc := py "example.com"; path := py "/";
              query := py "utm_source=a&utm_medium=b"; fragment := [] |}).
  - reflexivity.
  - discriminate.
  - repeat apply Forall_cons_2; try apply Forall_nil_2; vm_compute;
      repeat first [apply list_elem_of_here | apply list_elem_of_further].
Defined.

(** C4: one file that links to the same page twice, and no other file.  A
    warning about the link is recorded, naming the file itself as the
    earlier occurrence. *)
Lemma same_file_duplicate_reported :
  extracted ascii_platform (world_of [issue_1] doc_twice) issue_1
  = Ok [NStr (py "https://example.com/x"); NStr (py "https://example.com/x")]
  /\ inspect_files ascii_platform (world_of [issue_1] doc_twice) [issue_1] initial_state
     = (Ok tt,
        {| warnings := [DuplicateLink (NStr (py "https://example.com/x")) issue_1 issue_1];
           log := [InspectingFile issue_1] |}).
Proof. split; vm_compute; reflexivity. Defined.

(** C4, as amended, on the same run. *)
Lemma same_file_duplicates_witness :
  exists ws lg,
    inspect_files ascii_platform (world_of [issue_1] doc_twice) ([] ++ issue_1 :: []) initial_state
    = (Ok tt, ext ws lg initial_state)
    /\ filter (dup_of (NStr (py "https://example.com/x"))) ws
       = replicate
           (length (filter (fun l => l = NStr (py "https://example.com/x"))
                           [NStr (py "https://example.com/x"); NStr (py "https://example.com/x")])
            - 1)
           (DuplicateLink (NStr (py "https://example.com/x")) issue_1 issue_1).
Proof.
  apply (same_file_duplicates ascii_platform (world_of [issue_1] doc_twice) [] [] issue_1).
  - apply Forall_cons_2; [discriminate | apply Forall_nil_2].
  - apply Forall_cons_2; [eexists; reflexivity | apply Forall_nil_2].
  - reflexivity.
  - intros f' links' Hin. apply not_elem_of_nil in Hin. destruct Hin.
Defined.

(** C5, on three issues that each link to the same page once. *)
Lemma three_files_two_warnings_witness :
  (forall file collision rest (linkset : gmap nlink str) s',
      linkset !! NStr (py "https://example.com/x") = Some collision -> collision <> [] ->
      inspect_links_loop file (NStr (py "https://example.com/x") :: rest) linkset s'
      = inspect_links_loop file rest linkset
          (add_warnings [DuplicateLink (NStr (py "https://example.com/x")) file collision] s'))
  /\ exists ws lg linkset,
       inspect_files_loop ascii_platform (world_of [] doc_once) [issue_1; issue_2; issue_3] ∅
         initial_state = (Ok linkset, ext ws lg initial_state)
       /\ inspect_files ascii_platform (world_of [] doc_once) [issue_1; issue_2; issue_3]
            initial_state = (Ok tt, ext ws lg initial_state)
       /\ filter (dup_of (NStr (py "https://example.com/x"))) ws
          = [DuplicateLink (NStr (py "https://example.com/x")) issue_2 issue_1;
             DuplicateLink (NStr (py "https://example.com/x")) issue_3 issue_1]
       /\ linkset !! NStr (py "https://example.com/x") = Some issue_1.
Proof.
  apply (three_files_two_warnings ascii_platform (world_of [] doc_once)
           issue_1 issue_2 issue_3
           [NStr (py "https://example.com/x")] [NStr (py "https://example.com/x")]
           [NStr (py "https://example.com/x")]);
    try discriminate; reflexivity.
Defined.

(** C6: a link without query string that [urlsplit] refuses, for the
    bracket that is not closed.  [parse_url] raises ValueError: it returns
    no string. *)
Lemma parse_url_without_query_raises :
  parse_url ascii_platform (py "http://[::1/x") initial_state = (Raise ValueError, initial_state)
  /\ str_contains 63 (py "http://[::1/x") = false.
Proof. split; reflexivity. Defined.

(** C6, as amended, on a link with a fragment and no query string. *)
Lemma parse_url_without_query_witness :
  @nil N = []
  /\ parse_url ascii_platform (py "HTTPS://example.com/a#top") initial_state
     = (Ok (urlunsplit ascii_platform (py "https") (py "example.com") (py "/a") [] (py "top")),
        {| warnings :=
             warnings initial_state
             ++ (if bool_decide (py "https" ∈ [py "mailto"; py "http"; py "https"])
                 then [] else [MalformedLink (py "HTTPS://example.com/a#top")])
             ++ (if bool_decide
                      (urlunsplit ascii_platform (py "https") (py "example.com") (py "/a") []
                                  (py "top") = py "HTTPS://example.com/a#top")
                 then []
                 else [CanBeSimplified (py "HTTPS://example.com/a#top")
                         (urlunsplit ascii_platform (py "https") (py "example.com") (py "/a") []
                                     (py "top"))]);
           log := log initial_state |})
  /\ (63 ∉ before_fragment
             (urlunsplit ascii_platform (py "https") (py "example.com") (py "/a") [] (py "top"))).
Proof.
  apply (parse_url_without_query ascii_platform (py "HTTPS://example.com/a#top") initial_state
           {| scheme := py "https"; netloc := py "example.com"; path := py "/a";
              query := []; fragment := py "top" |}).
  - reflexivity.
  - left. reflexivity.
Defined.



(** C8: a directory without a matching name makes [get_recent_files]
    raise instead of returning no names, and the count 0 makes it return
    every matching name instead of none. *)
Lemma get_recent_files_not_last_n :
  get_recent_files ascii_platform (world_of [py "README.md"] []) (py "content") 5 initial_state
  = (Raise (NoMatchingFiles (py "content")), initial_state)
  /\ get_recent_files ascii_platform (world_of [issue_2; py "README.md"; issue_1] [])
       (py "content") 0 initial_state
     = (Ok [py "content/2024-01-03-this-week-in-rust.md";
            py "content/2024-01-10-this-week-in-rust.md"],
        {| warnings := []; log := [RecentFiles [issue_1; issue_2]] |}).
Proof. split; reflexivity. Defined.

(** C8, as amended, on a directory with three issues and the count 2. *)
Lemma get_recent_files_last_witness :
  exists older recent,
    get_recent_files ascii_platform (world_of [issue_3; py "README.md"; issue_1; issue_2] [])
      (py "content") 2 initial_state
    = (Ok (map (path_join (py "content")) recent), ext [] [RecentFiles recent] initial_state)
    /\ filter (fun f => re_match ascii_platform RE_FILENAME f = true)
              [issue_3; py "README.md"; issue_1; issue_2] ≡ₚ older ++ recent
    /\ StronglySorted str_le recent
    /\ length recent
       = Nat.min (Z.to_nat 2)
           (length (filter (fun f => re_match ascii_platform RE_FILENAME f = true)
                           [issue_3; py "README.md"; issue_1; issue_2]))
    /\ forall x y, x ∈ older -> y ∈ recent -> str_le x y.
Proof.
  apply (get_recent_files_last ascii_platform
           (world_of [issue_3; py "README.md"; issue_1; issue_2] []) (py "content") 2
           [issue_3; py "README.md"; issue_1; issue_2] initial_state).
  - reflexivity.
  - vm_compute. discriminate.
  - lia.
Defined.

(** C9, on a directory that holds only a file with another name. *)
Lemma no_matching_files_is_fatal_witness :
  script ascii_platform (world_of [py "README.md"] doc_once) default_args
  = {| exit_code := 1; stdout := [];
       uncaught := Some (if bool_decide ([py "README.md"] = [])
                         then NoFilesFound (arg_path default_args)
                         else NoMatchingFiles (arg_path default_args));
       final := initial_state |}.
Proof.
  apply (no_matching_files_is_fatal ascii_platform (world_of [py "README.md"] doc_once)
           default_args [py "README.md"]); reflexivity.
Defined.

(** C10, on a strict section interrupted by a level-5 heading: the link
    after it is still extracted. *)
Lemma extract_links_ignores_h5_h6_witness :
  (forall strict_mode urls,
      extract_links_loop ascii_platform
        (find_all LINK_AND_HEADING_TAGS
           (heading "h5" "Crate of the Week" :: [anchor "https://example.com/x"]))
        strict_mode urls
      = extract_links_loop ascii_platform
          (find_all LINK_AND_HEADING_TAGS [anchor "https://example.com/x"]) strict_mode urls)
  /\ extract_links ascii_platform
       ([heading "h2" "Miscellaneous"] ++ heading "h5" "Crate of the Week"
                                       :: [anchor "https://example.com/x"])
     = extract_links ascii_platform
         ([heading "h2" "Miscellaneous"] ++ [anchor "https://example.com/x"]).
Proof.
  apply (extract_links_ignores_h5_h6 ascii_platform).
  vm_compute. apply list_elem_of_here.
Defined.

(** *** What [scrub_parameters] keeps and what it reports *)


Lemma scrub_parameters_kept url q s q' s' :
  scrub_parameters url q s = (Ok q', s') -> parse_qs q' = kept_parameters q.
Proof.
  rewrite scrub_parameters_eq. cbn zeta.
  destruct (kept_parameters q) as [|kv d] eqn:Hk.
  - intros [= <- _]. done.
  - destruct (urlencode (kv :: d)) as [q1|] eqn:He; [|done].
    intros [= <- _]. rewrite <- Hk in *. apply parse_qs_urlencode; [apply kept_parameters_wf | done].
Qed.

(** X1.  The query string [scrub_parameters] returns holds the parameters
    that are not on the block-list, and only them: read again by
    [parse_qs], it gives the dict of the original query without the
    tracking names, in the same order and with the same values. *)
Theorem scrub_parameters_keeps url q s q' s' :
  scrub_parameters url q s = (Ok q', s') ->
  parse_qs q' = filter (fun kv => kv.1 ∉ TRACKING_PARAMETERS) (parse_qs q).
Proof. apply scrub_parameters_kept. Qed.


(** *** Text that UTF-8 can encode *)

Lemma utf8_decode_scalar_upto (n : nat) (bs : list N) :
  (length bs <= n)%nat -> Forall scalar (utf8_decode bs).
Proof.
  revert bs. induction n as [|n IH]; intros bs Hn.
  - destruct bs; [apply Forall_nil_2 | simpl in Hn; lia].
  - destruct bs as [|b0 t0]; [apply Forall_nil_2|]. cbn [utf8_decode].
    assert (R : scalar REPLACEMENT) by (unfold scalar, REPLACEMENT; lia).
    repeat match goal with
           | |- Forall scalar (if ?b then _ else _) => destruct b eqn:?
           | |- Forall scalar (match ?t with [] => _ | _ :: _ => _ end) => destruct t
           | |- Forall scalar (_ :: _) => apply Forall_cons; split
           | |- Forall scalar [] => apply Forall_nil_2
           | |- Forall scalar (utf8_decode _) => apply IH; simpl in *; lia
           | |- scalar REPLACEMENT => exact R
           end.
    all: unfold second_ok, in_range in *;
      repeat match goal with
             | H : (if ?c then _ else _) = true |- _ => destruct c eqn:?
             end;
      bool_to_prop; unfold scalar; lia.
Qed.

Lemma utf8_decode_scalar (bs : list N) : Forall scalar (utf8_decode bs).
Proof. apply (utf8_decode_scalar_upto (length bs)). done. Qed.

Lemma unquote_parts_scalar (s run : str) :
  Forall scalar s -> Forall scalar (unquote_parts s run).
Proof.
  intros H. revert run. induction H as [|c s Hc _ IH]; intros run; cbn [unquote_parts].
  - apply utf8_decode_scalar.
  - destruct (is_ascii c); [apply IH|].
    apply Forall_app. split; [apply utf8_decode_scalar|]. apply Forall_cons. split; [done | apply IH].
Qed.

Lemma unquote_scalar (s : str) : Forall scalar s -> Forall scalar (unquote s).
Proof.
  intros H. unfold unquote. destruct (negb _); [done | apply unquote_parts_scalar; done].
Qed.

Lemma str_replace_scalar a b (s : str) :
  scalar b -> Forall scalar s -> Forall scalar (str_replace a b s).
Proof.
  intros Hb H. unfold str_replace. apply Forall_fmap. eapply Forall_impl; [exact H|].
  intros c Hc. simpl. destruct (c =? a); done.
Qed.

Lemma str_split_Forall (Q : char -> Prop) sep (s : str) :
  Forall Q s -> Forall (Forall Q) (str_split sep s).
Proof.
  induction 1 as [|c s Hc _ IH]; cbn [str_split].
  - apply Forall_cons. split; apply Forall_nil_2.
  - destruct (c =? sep); [apply Forall_cons; split; [apply Forall_nil_2 | done]|].
    destruct (str_split sep s) as [|p ps].
    + apply Forall_cons. split; [apply Forall_cons; split; [done | apply Forall_nil_2] | done].
    + apply Forall_cons in IH as [Hp Hps]. apply Forall_cons. split; [|done].
      apply Forall_cons. done.
Qed.

Lemma str_split1_Forall (Q : char -> Prop) sep (s a : str) ob :
  Forall Q s -> str_split1 sep s = (a, ob) ->
  Forall Q a /\ match ob with Some b => Forall Q b | None => True end.
Proof.
  intros H. unfold str_split1. destruct (str_find sep s) as [i|]; intros [= <- <-].
  - split; [apply Forall_take | apply Forall_drop]; done.
  - done.
Qed.

Lemma parse_qsl_scalar (qs : str) :
  Forall scalar qs -> Forall (fun nv => Forall scalar nv.1 /\ Forall scalar nv.2) (parse_qsl qs).
Proof.
  intros H. unfold parse_qsl. apply Forall_flat_map.
  eapply Forall_impl; [apply (str_split_Forall scalar 38 qs H)|].
  intros piece Hp. cbn beta. destruct piece as [|c piece]; [apply Forall_nil_2|].
  destruct (str_split1 61 (c :: piece)) as [n ov] eqn:Hs.
  destruct (str_split1_Forall scalar _ _ _ _ Hp Hs) as [Hn Hv].
  assert (Hsp : scalar SPACE) by (unfold scalar, SPACE; lia).
  destruct ov as [[|v0 v]|]; try apply Forall_nil_2.
  apply Forall_cons. split; [|apply Forall_nil_2]. cbn [fst snd].
  split; apply unquote_scalar, str_replace_scalar; done.
Qed.

Lemma dict_add_scalar name value (d : qdict) :
  Forall scalar name -> Forall scalar value -> scalar_dict d ->
  scalar_dict (dict_add name value d).
Proof.
  intros Hn Hv. unfold scalar_dict. induction 1 as [|[k vs] d [Hk Hvs] Hd IH]; cbn [dict_add].
  - apply Forall_cons. split; [|apply Forall_nil_2]. cbn [fst snd].
    split; [done|]. apply Forall_cons. split; [done | apply Forall_nil_2].
  - destruct (bool_decide (k = name)).
    + apply Forall_cons. split; [|done]. cbn [fst snd] in *. split; [done|].
      apply Forall_app. split; [done|]. apply Forall_cons. split; [done | apply Forall_nil_2].
    + apply Forall_cons. split; [done | apply IH].
Qed.

Lemma parse_qs_scalar (qs : str) : Forall scalar qs -> scalar_dict (parse_qs qs).
Proof.
  intros H. unfold parse_qs.
  assert (H0 : scalar_dict []) by apply Forall_nil_2.
  revert H0. generalize (@nil (list N * list (list N))).
  induction (parse_qsl_scalar qs H) as [|nv l [Hn Hv] _ IH]; intros d Hd; [done|].
  cbn [fold_left]. apply IH. apply dict_add_scalar; done.
Qed.

Lemma utf8_encode_scalar (s : str) : Forall scalar s -> is_Some (utf8_encode s).
Proof.
  induction 1 as [|c s Hc _ [bs IH]]; [eexists; reflexivity|]. cbn [utf8_encode]. rewrite IH.
  assert (is_Some (utf8_encode_char c)) as [e ->]; [|eexists; reflexivity].
  unfold utf8_encode_char, scalar in *.
  destruct (c <? 128); [eexists; reflexivity|].
  destruct (c <? 2048); [eexists; reflexivity|].
  destruct (c <? 65536) eqn:H3.
  - destruct ((55296 <=? c) && (c <=? 57343)) eqn:H4; [|eexists; reflexivity].
    bool_to_prop. lia.
  - destruct (c <? 1114112) eqn:H4; [eexists; reflexivity|]. bool_to_prop. lia.
Qed.

Lemma quote_plus_scalar (s : str) : Forall scalar s -> is_Some (quote_plus s).
Proof.
  intros H. destruct (utf8_encode_scalar s H) as [bs Hbs].
  unfold quote_plus, quote. destruct (negb _); destruct s; try (eexists; reflexivity);
    rewrite Hbs; eexists; reflexivity.
Qed.

Lemma urlencode_scalar (d : qdict) : scalar_dict d -> is_Some (urlencode d).
Proof.
  intros H. unfold urlencode.
  assert (is_Some (mapM (fun kv : list N * list (list N) =>
             k ← quote_plus kv.1;
             mapM (fun elt => e ← quote_plus elt; Some (k ++ py "=" ++ e)) kv.2) d)) as [l ->];
    [|eexists; reflexivity].
  apply mapM_is_Some. eapply Forall_impl; [exact H|].
  intros [k vs] [Hk Hvs]. unfold compose. cbn [fst snd] in *.
  destruct (quote_plus_scalar k Hk) as [k' ->]. cbn [mbind option_bind].
  apply mapM_is_Some. eapply Forall_impl; [exact Hvs|].
  intros v Hv. unfold compose. destruct (quote_plus_scalar v Hv) as [v' ->]. eexists; reflexivity.
Qed.

(** X3.  [scrub_parameters] returns for every query string UTF-8 can
    encode, whatever percent-escapes it holds: [urlencode] raises
    UnicodeEncodeError only for a surrogate, and [parse_qs] decodes
    ill-formed escapes to U+FFFD. *)
Theorem scrub_parameters_returns url q s :
  Forall scalar q -> exists q' s', scrub_parameters url q s = (Ok q', s').
Proof.
  intros H. rewrite scrub_parameters_eq. cbn zeta.
  destruct (kept_parameters q) as [|kv d] eqn:Hk; [eauto|].
  assert (is_Some (urlencode (kv :: d))) as [q' ->]; [|eauto].
  apply urlencode_scalar. rewrite <- Hk. unfold kept_parameters, scalar_dict.
  apply Forall_forall. intros x [_ Hx]%list_elem_of_filter.
  pose proof (parse_qs_scalar q H) as Hd. unfold scalar_dict in Hd.
  rewrite Forall_forall in Hd. auto.
Qed.

(** *** What [parse_url] returns *)

Lemma kept_parameters_nil : kept_parameters [] = [].
Proof. reflexivity. Qed.

(** The result of [parse_url] is a function of the parts of the link. *)
Lemma parse_url_result P link s p :
  urlsplit P link = Ok p ->
  (parse_url P link s).1 =
    match scrubbed_query p with
    | Ok q' => Ok (urlunsplit P (scheme p) (netloc p) (path p) q' (fragment p))
    | Raise e => Raise e
    end.
Proof.
  intros Hsp. unfold scrubbed_query. destruct (query p) as [|c q] eqn:Hq.
  - rewrite (parse_url_no_query _ _ _ _ Hsp Hq). done.
  - unfold parse_url, bind, lift. rewrite Hsp, scheme_check_eq, Hq. cbn [nonempty].
    rewrite scrub_parameters_eq. cbn zeta.
    destruct (kept_parameters (c :: q)) as [|kv d]; [rewrite simplified_check_eq; done|].
    destruct (urlencode (kv :: d)); [rewrite simplified_check_eq; done | done].
Qed.

Lemma parse_url_returns_query P link s r s' p :
  parse_url P link s = (Ok r, s') -> urlsplit P link = Ok p ->
  exists q', scrubbed_query p = Ok q'
             /\ r = urlunsplit P (scheme p) (netloc p) (path p) q' (fragment p)
             /\ stable_query q' /\ parse_qs q' = kept_parameters (query p).
Proof.
  intros H Hsp. pose proof (parse_url_result P link s p Hsp) as Hr. rewrite H in Hr. cbn [fst] in Hr.
  destruct (scrubbed_query p) as [q'|e] eqn:Hq; [|done]. injection Hr as ->.
  exists q'. split; [done|]. split; [done|].
  unfold scrubbed_query in Hq. destruct (kept_parameters (query p)) as [|kv d] eqn:Hk.
  - injection Hq as <-. split; [apply stable_query_nil | done].
  - destruct (urlencode (kv :: d)) as [q1|] eqn:He; [|done]. injection Hq as ->.
    rewrite <- Hk in *.
    destruct (qchars_unsafe_free _ (urlencode_chars _ _ He)) as [? ?].
    split.
    + repeat split; try done. intros _ url' s0.
      eapply scrub_parameters_stable; [done | rewrite Hk; done].
    + apply parse_qs_urlencode; [apply kept_parameters_wf | done].
Qed.

Lemma urlsplit_raises P link e :
  urlsplit P link = Raise e ->
  (e = AttributeError /\ urllib_parse_bound P = false)
  \/ (e = ValueError /\ urllib_parse_bound P = true).
Proof.
  unfold urlsplit, urllib_parse. destruct (urllib_parse_bound P); [|intros [= <-]; auto].
  intros H. right. split; [|done]. revert H. unfold parse_urlsplit.
  repeat match goal with
         | |- context [let '(_, _) := ?x in _] => destruct x
         | |- context [if ?b then _ else _] => destruct b
         | |- context [match ?x with (_, _) => _ end] => destruct x
         end; congruence.
Qed.

Lemma str_lstrip_Forall (Q : char -> Prop) p (s : str) : Forall Q s -> Forall Q (str_lstrip p s).
Proof.
  induction 1 as [|c s Hc Hs IH]; [done|]. cbn [str_lstrip].
  destruct (p c); [done | apply Forall_cons; done].
Qed.

Lemma url_cleanup_Forall (Q : char -> Prop) (u : str) : Forall Q u -> Forall Q (url_cleanup u).
Proof.
  intros H. unfold url_cleanup, UNSAFE_URL_BYTES_TO_REMOVE. cbn [fold_left].
  repeat apply str_remove_keeps. apply str_lstrip_Forall. done.
Qed.

Lemma urlsplit_clean_query_Forall (Q : char -> Prop) P url0 p :
  urlsplit_clean P url0 = Ok p -> Forall Q url0 -> Forall Q (query p).
Proof.
  unfold urlsplit_clean. intros H H0.
  destruct (split_scheme url0) as [sch url1] eqn:Hsch.
  assert (H1 : Forall Q url1).
  { apply split_scheme_inv in Hsch as [(pre & _ & -> & _)|(_ & -> & _)]; [|done].
    apply Forall_app in H0 as [_ H0]. apply Forall_cons in H0 as [_ H0]. done. }
  destruct (if bool_decide (take 2 url1 = py "//") then splitnetloc url1 2 else ([], url1))
    as [loc url2] eqn:Hloc.
  assert (H2 : Forall Q url2).
  { case_bool_decide as Ht.
    - apply splitnetloc_inv in Hloc as (Hu & _ & _); [|apply take2_length; done].
      rewrite Hu in H1. apply Forall_app in H1 as [_ H1]. apply Forall_app in H1 as [_ H1]. done.
    - injection Hloc as _ <-. done. }
  destruct (netloc_brackets_invalid P loc); [done|].
  destruct (str_split1 35 url2) as [url3 ofr] eqn:Hf.
  destruct (str_split1_Forall Q _ _ _ _ H2 Hf) as [H3 _].
  assert (Hq : forall f, (let '(url, query) :=
                            match str_split1 63 url3 with
                            | (u, Some q) => (u, q)
                            | (u, None) => (u, [])
                            end in
                          if checknetloc_invalid P loc then Raise ValueError
                          else Ok {| scheme := sch; netloc := loc; path := url;
                                     query := query; fragment := f |}) = Ok p ->
                         Forall Q (query p)).
  { intros f. destruct (str_split1 63 url3) as [pth oq] eqn:Hq3.
    destruct (str_split1_Forall Q _ _ _ _ H3 Hq3) as [_ Hq].
    destruct oq; (destruct (checknetloc_invalid P loc); [done|]); intros [= <-]; done. }
  destruct ofr; eapply Hq; exact H.
Qed.

(** The query of a link is made of characters of the link. *)
Lemma urlsplit_query_Forall (Q : char -> Prop) P link p :
  urlsplit P link = Ok p -> Forall Q link -> Forall Q (query p).
Proof.
  rewrite urlsplit_unfold. intros [_ H]%urllib_parse_Ok Hl.
  eapply urlsplit_clean_query_Forall; [exact H | apply url_cleanup_Forall; done].
Qed.

Lemma scrubbed_query_scalar p : Forall scalar (query p) -> exists q', scrubbed_query p = Ok q'.
Proof.
  intros H. unfold scrubbed_query.
  destruct (kept_parameters (query p)) as [|kv d] eqn:Hk; [eauto|].
  assert (is_Some (urlencode (kv :: d))) as [q' ->]; [|eauto].
  apply urlencode_scalar. rewrite <- Hk. unfold kept_parameters, scalar_dict.
  apply Forall_forall. intros x [_ Hx]%list_elem_of_filter.
  pose proof (parse_qs_scalar _ H) as Hd. unfold scalar_dict in Hd.
  rewrite Forall_forall in Hd. auto.
Qed.

(** X4.  What makes [parse_url] raise.  For a link UTF-8 can encode, the
    only exceptions are those of its first statement, the call
    [urllib.parse.urlsplit(link)]: the AttributeError of the look-up where
    [urllib.parse] is not bound, and the ValueError of [urlsplit] where it
    is.  Both are raised before anything is recorded: the warnings and the
    log are as they were. *)
Theorem parse_url_raises_only P link s e s' :
  Forall scalar link ->
  parse_url P link s = (Raise e, s') ->
  urlsplit P link = Raise e /\ s' = s
  /\ ((e = AttributeError /\ urllib_parse_bound P = false)
      \/ (e = ValueError /\ urllib_parse_bound P = true)).
Proof.
  intros Hl H. destruct (urlsplit P link) as [p|e0] eqn:Hsp.
  - exfalso. pose proof (parse_url_result P link s p Hsp) as Hr. rewrite H in Hr. cbn [fst] in Hr.
    destruct (scrubbed_query_scalar p (urlsplit_query_Forall _ _ _ _ Hsp Hl)) as [q' Hq].
    rewrite Hq in Hr. done.
  - revert H. unfold parse_url, bind, lift. rewrite Hsp. intros [= <- <-].
    split; [done|]. split; [done|]. eapply urlsplit_raises. exact Hsp.
Qed.

(** X5.  [parse_url] keeps the fragment: what it returns is a text without
    fragment mark followed by the fragment of the link with its mark (or
    by nothing for a link without fragment). *)
Theorem parse_url_keeps_fragment P link s r s' p :
  parse_url P link s = (Ok r, s') -> urlsplit P link = Ok p ->
  exists body, (35 ∉ body)
               /\ r = body ++ (if nonempty (fragment p) then 35 :: fragment p else []).
Proof.
  intros H Hsp.
  destruct (parse_url_returns_query _ _ _ _ _ _ H Hsp) as (q' & _ & -> & (_ & Hq35 & _) & _).
  pose proof (urlsplit_facts _ _ _ Hsp) as F.
  rewrite urlunsplit_netpath.
  exists ((spart (scheme p) ++ netpath P (scheme p) (netloc p) (path p)) ++ qpart q').
  split; [|rewrite <- !app_assoc; done].
  destruct (proj1 (unmarked_notin _) (unmarked_netpath P p F)) as [_ H35].
  apply not_elem_of_app. split; [done|].
  unfold qpart. destruct (nonempty q'); [|apply not_elem_of_nil].
  apply not_elem_of_cons. done.
Qed.

(** X6.  The link [parse_url] returns names the same place: split again,
    it has the scheme, the netloc and the fragment of the link, its path
    (with a slash put before it by the earlier forms of [urlunsplit] when
    it was relative and followed a scheme of [uses_netloc]), and a query
    from which [parse_qs] reads the parameters of the link that are not on
    the block-list.  Under the earliest form of [urlunsplit] this holds
    for the links with a netloc or a path that does not start with [//]. *)
Theorem parse_url_same_parts P link s r s' p :
  parse_url P link s = (Ok r, s') -> urlsplit P link = Ok p ->
  netloc_step P <> SlashesDropped \/ netloc p <> [] \/ take 2 (path p) <> py "//" ->
  exists p', urlsplit P r = Ok p'
             /\ scheme p' = scheme p /\ netloc p' = netloc p /\ fragment p' = fragment p
             /\ (path p' = path p \/ path p' = 47 :: path p)
             /\ parse_qs (query p')
                = filter (fun kv => kv.1 ∉ TRACKING_PARAMETERS) (parse_qs (query p)).
Proof.
  intros H Hsp Hs.
  destruct (parse_url_returns_query _ _ _ _ _ _ H Hsp) as (q' & _ & -> & (Hu & Hq35 & _) & Hk).
  pose proof (urlsplit_facts _ _ _ Hsp) as F.
  eexists. split; [apply urlsplit_urlunsplit_facts; [eapply urlsplit_bound|..]; done|].
  cbn [scheme netloc path query fragment]. repeat split; try done.
  destruct (written_cases P p) as [->|(_ & _ & ->)]; [auto|].
  cbn [path]. apply rooted_cases.
Qed.

(** X7.  Two links whose parts differ only in the query, and whose queries
    hold the same parameters apart from those on the block-list, are
    normalised to the same link (or both make [urlencode] raise). *)
Theorem parse_url_same_link P link1 link2 s1 s2 p1 p2 :
  urlsplit P link1 = Ok p1 -> urlsplit P link2 = Ok p2 ->
  scheme p1 = scheme p2 -> netloc p1 = netloc p2 -> path p1 = path p2 ->
  fragment p1 = fragment p2 ->
  filter (fun kv => kv.1 ∉ TRACKING_PARAMETERS) (parse_qs (query p1))
  = filter (fun kv => kv.1 ∉ TRACKING_PARAMETERS) (parse_qs (query p2)) ->
  (parse_url P link1 s1).1 = (parse_url P link2 s2).1.
Proof.
  intros H1 H2 Hs Hn Hp Hf Hk.
  rewrite (parse_url_result P link1 s1 p1 H1), (parse_url_result P link2 s2 p2 H2).
  unfold scrubbed_query.
  change (kept_parameters (query p1) = kept_parameters (query p2)) in Hk.
  rewrite Hk, Hs, Hn, Hp, Hf. done.
Qed.

(** X8.  A query string from which [parse_qs] reads nothing (fields with
    blank values or without [=]) is dropped: [parse_url] returns the link
    without query and records, after the warning about the scheme if
    there is one, that the link can be simplified, and nothing about
    tracking parameters. *)
Theorem parse_url_blank_query P link s p :
  urlsplit P link = Ok p -> query p <> [] -> parse_qs (query p) = [] ->
  let r := urlunsplit P (scheme p) (netloc p) (path p) [] (fragment p) in
  parse_url P link s =
    (Ok r, {| warnings := warnings s
                          ++ (if bool_decide (scheme p ∈ [py "mailto"; py "http"; py "https"])
                              then [] else [MalformedLink link])
                          ++ [CanBeSimplified link r];
              log := log s |}).
Proof.
  intros Hsp Hq Hqs r.
  pose proof (urlunsplit_no_query P p (urlsplit_facts _ _ _ Hsp)) as Hr63. fold r in Hr63.
  erewrite parse_url_query; [| done | done |].
  2:{ rewrite scrub_parameters_eq. unfold kept_parameters, found_tracking. rewrite Hqs.
      cbn zeta. rewrite !filter_nil. cbn [map].
      rewrite bool_decide_eq_false_2 by (intros H; done). reflexivity. }
  cbn zeta. fold r. rewrite bool_decide_eq_true_2.
  - unfold add_warnings, scheme_warning. cbn [warnings log]. rewrite <- app_assoc. done.
  - intros Hr. apply Hr63. rewrite Hr. eapply urlsplit_query_mark; done.
Qed.

(** *** Links that differ in what [urlsplit] removes *)

Lemma parse_url_result_raise P link s e :
  urlsplit P link = Raise e -> (parse_url P link s).1 = Raise e.
Proof. intros H. unfold parse_url, bind, lift. rewrite H. done. Qed.

Lemma parse_url_result_split P link1 link2 s1 s2 :
  urlsplit P link1 = urlsplit P link2 -> (parse_url P link1 s1).1 = (parse_url P link2 s2).1.
Proof.
  intros H. destruct (urlsplit P link2) as [p|e] eqn:H2.
  - rewrite (parse_url_result _ _ _ _ H), (parse_url_result _ _ _ _ H2). done.
  - rewrite (parse_url_result_raise _ _ _ _ H), (parse_url_result_raise _ _ _ _ H2). done.
Qed.

Lemma url_cleanup_eq u : url_cleanup u = remove_unsafe (str_lstrip is_c0_or_space u).
Proof. reflexivity. Qed.

Lemma remove_unsafe_app x y : remove_unsafe (x ++ y) = remove_unsafe x ++ remove_unsafe y.
Proof. unfold remove_unsafe, str_remove. rewrite !filter_app. done. Qed.

Lemma remove_unsafe_cons c y :
  c = 9 \/ c = 13 \/ c = 10 -> remove_unsafe (c :: y) = remove_unsafe y.
Proof.
  unfold remove_unsafe, str_remove. intros [->|[->| ->]].
  - rewrite (filter_cons_False _ 9) by (intros H; apply H; reflexivity). done.
  - rewrite (filter_cons_True _ 13) by done.
    rewrite (filter_cons_False _ 13) by (intros H; apply H; reflexivity). done.
  - rewrite (filter_cons_True _ 10) by done. rewrite (filter_cons_True _ 10) by done.
    rewrite (filter_cons_False _ 10) by (intros H; apply H; reflexivity). done.
Qed.

Lemma url_cleanup_leading ws link :
  Forall (fun c => c <= 32) ws -> url_cleanup (ws ++ link) = url_cleanup link.
Proof.
  intros H. rewrite !url_cleanup_eq. f_equal.
  induction H as [|c ws Hc _ IH]; [done|]. cbn [app str_lstrip].
  unfold is_c0_or_space at 1. rewrite (proj2 (N.leb_le c 32) Hc). done.
Qed.

Lemma url_cleanup_unsafe a c b :
  c = 9 \/ c = 13 \/ c = 10 -> url_cleanup (a ++ c :: b) = url_cleanup (a ++ b).
Proof.
  intros Hc. induction a as [|x a IH].
  - apply (url_cleanup_leading [c]). apply Forall_cons. split; [|apply Forall_nil_2].
    destruct Hc as [->|[->| ->]]; lia.
  - rewrite !url_cleanup_eq in *. cbn [app str_lstrip].
    destruct (is_c0_or_space x); [done|].
    rewrite !app_comm_cons, !remove_unsafe_app, (remove_unsafe_cons c b) by done. done.
Qed.

(** X9.  Control characters and spaces before a link do not count:
    [urlsplit] strips them, so that the link with and without them is
    split into the same parts and normalised to the same link. *)
Theorem parse_url_leading_space P ws link s1 s2 :
  Forall (fun c => c <= 32) ws ->
  urlsplit P (ws ++ link) = urlsplit P link
  /\ (parse_url P (ws ++ link) s1).1 = (parse_url P link s2).1.
Proof.
  intros H.
  assert (Hsp : urlsplit P (ws ++ link) = urlsplit P link)
    by (rewrite !urlsplit_unfold, url_cleanup_leading; done).
  split; [done | apply parse_url_result_split; done].
Qed.

(** X10.  A tab, carriage return or line feed anywhere in a link does not
    count: [urlsplit] removes it, so that the link with and without it is
    split into the same parts and normalised to the same link. *)
Theorem parse_url_line_break P a c b s1 s2 :
  c = 9 \/ c = 13 \/ c = 10 ->
  urlsplit P (a ++ c :: b) = urlsplit P (a ++ b)
  /\ (parse_url P (a ++ c :: b) s1).1 = (parse_url P (a ++ b) s2).1.
Proof.
  intros H.
  assert (Hsp : urlsplit P (a ++ c :: b) = urlsplit P (a ++ b))
    by (rewrite !urlsplit_unfold, url_cleanup_unsafe; done).
  split; [done | apply parse_url_result_split; done].
Qed.

(** X22.  [parse_url] records at most three warnings for a link (about the
    scheme, about tracking parameters, about simplification), each naming
    the link it was given, and leaves the warnings recorded before as they
    were, whether it returns or raises. *)
Theorem parse_url_at_most_three P link s :
  exists r ws,
    parse_url P link s = (r, {| warnings := warnings s ++ ws; log := log s |})
    /\ (length ws <= 3)%nat /\ Forall (about_link link) ws.
Proof.
  assert (Hend : forall (r : str) ws0 s0,
             (length ws0 <= 2)%nat -> Forall (about_link link) ws0 ->
             s0 = add_warnings ws0 s ->
             exists r' ws,
               (let* _ := when (bool_decide (r ≠ link)) (warn (CanBeSimplified link r)) in ret r) s0
               = (r', {| warnings := warnings s ++ ws; log := log s |})
               /\ (length ws <= 3)%nat /\ Forall (about_link link) ws).
  { intros r ws0 s0 Hlen Hall ->. unfold bind. rewrite simplified_check_eq, add_warnings_app.
    eexists _, _. split; [reflexivity|]. destruct (bool_decide (r ≠ link)).
    - rewrite length_app. cbn [length]. split; [lia|]. apply Forall_app. split; [done|].
      apply Forall_cons. split; [done | apply Forall_nil_2].
    - rewrite app_nil_r. split; [lia | done]. }
  unfold parse_url. unfold bind at 1, lift. destruct (urlsplit P link) as [p|e].
  2:{ exists (Raise e), []. rewrite app_nil_r. destruct s. split; [done|].
      split; [cbn; lia | apply Forall_nil_2]. }
  unfold bind at 1. rewrite scheme_check_eq.
  assert (Hsw : (length (scheme_warning link p) <= 1)%nat
                /\ Forall (about_link link) (scheme_warning link p)).
  { unfold scheme_warning. destruct (bool_decide _); cbn [length].
    - split; [lia | apply Forall_nil_2].
    - split; [lia|]. apply Forall_cons. split; [done | apply Forall_nil_2]. }
  destruct Hsw as [Hlen Hall]. unfold bind at 1.
  destruct (nonempty (query p)).
  - rewrite scrub_parameters_eq. cbn zeta.
    set (s1 := if bool_decide (found_tracking (query p) ≠ [])
               then add_warning (TrackingParameters link (found_tracking (query p)))
                                (add_warnings (scheme_warning link p) s)
               else add_warnings (scheme_warning link p) s).
    assert (Hs1 : exists ws1, s1 = add_warnings ws1 s /\ (length ws1 <= 2)%nat
                              /\ Forall (about_link link) ws1).
    { unfold s1. destruct (bool_decide _).
      - exists (scheme_warning link p ++ [TrackingParameters link (found_tracking (query p))]).
        split; [unfold add_warning, add_warnings; cbn; rewrite app_assoc; done|].
        rewrite length_app. cbn [length]. split; [lia|]. apply Forall_app. split; [done|].
        apply Forall_cons. split; [done | apply Forall_nil_2].
      - exists (scheme_warning link p). split; [done|]. split; [lia | done]. }
    destruct Hs1 as (ws1 & Hs1 & Hlen1 & Hall1).
    destruct (kept_parameters (query p)) as [|kv d].
    + eapply Hend; done.
    + destruct (urlencode (kv :: d)) as [q'|].
      * eapply Hend; done.
      * exists (Raise UnicodeEncodeError), ws1. rewrite Hs1.
        split; [done|]. split; [lia | done].
  - unfold ret at 1. eapply Hend; [|exact Hall|reflexivity]. lia.
Qed.

(** X23.  The query [scrub_parameters] returns is plain ASCII: letters,
    digits and [_.-~], and besides them only [%] (of the escapes), [+]
    (for a space), [=] and [&]. *)
Theorem scrub_parameters_plain url q s q' s' :
  scrub_parameters url q s = (Ok q', s') ->
  Forall (fun c => always_safe c = true \/ c ∈ [37; 43; 61; 38]) q'.
Proof.
  rewrite scrub_parameters_eq. cbn zeta.
  destruct (kept_parameters q) as [|kv d]; [intros [= <- _]; apply Forall_nil_2|].
  destruct (urlencode (kv :: d)) as [q1|] eqn:He; [|done]. intros [= <- _].
  eapply Forall_impl; [apply (urlencode_chars _ _ He)|].
  intros c [[?|[->| ->]]|[->| ->]]; [left; done | right..];
    repeat first [apply list_elem_of_here | apply list_elem_of_further].
Qed.

(** *** The sections of a document *)

Lemma tag_cases (tag : Tag) :
  (tag_name tag = py "a" /\ (tag_name tag ∉ SECTION_TAGS)
   /\ tag_name tag ∈ LINK_AND_HEADING_TAGS)
  \/ (tag_name tag <> py "a" /\ tag_name tag ∈ SECTION_TAGS
      /\ tag_name tag ∈ LINK_AND_HEADING_TAGS)
  \/ (tag_name tag <> py "a" /\ (tag_name tag ∉ SECTION_TAGS)
      /\ (tag_name tag ∉ LINK_AND_HEADING_TAGS)).
Proof.
  destruct (decide (tag_name tag = py "a")) as [Ha|Ha].
  - left. rewrite Ha. split; [done|]. split; [|apply list_elem_of_here].
    intros H. vm_compute in H.
    repeat (apply elem_of_cons in H as [H|H]; [discriminate|]). apply not_elem_of_nil in H. done.
  - right. destruct (decide (tag_name tag ∈ SECTION_TAGS)) as [Hs|Hs].
    + left. split; [done|]. split; [done|]. apply list_elem_of_further. exact Hs.
    + right. split; [done|]. split; [done|].
      intros [?|?]%elem_of_cons; done.
Qed.

Lemma in_strict_section_snoc P before tag :
  in_strict_section P (before ++ [tag])
  = if bool_decide (tag_name tag ∈ SECTION_TAGS) then is_strict_title P (tag_string tag)
    else in_strict_section P before.
Proof.
  unfold in_strict_section. rewrite filter_app.
  case_bool_decide as Hs.
  - rewrite filter_cons_True by done. rewrite filter_nil, last_snoc. done.
  - rewrite filter_cons_False by done. rewrite filter_nil, app_nil_r. done.
Qed.

Lemma extract_links_loop_sections P (rest before : html) urls s :
  extract_links_loop P (find_all LINK_AND_HEADING_TAGS rest) (in_strict_section P before) urls s
  = parse_anchors P (strict_anchors_after P before rest) urls s.
Proof.
  revert before urls s. induction rest as [|tag rest IH]; intros before urls s; [done|].
  cbn [strict_anchors_after]. unfold find_all in *.
  pose proof (IH (before ++ [tag])) as IH'. rewrite in_strict_section_snoc in IH'.
  destruct (tag_cases tag) as [(Ha & Hs & Hl)|[(Ha & Hs & Hl)|(Ha & Hs & Hl)]].
  - rewrite filter_cons_True by done. cbn [extract_links_loop].
    rewrite bool_decide_eq_false_2 in IH' by done.
    rewrite !bool_decide_eq_true_2 by done. cbn [andb].
    destruct (in_strict_section P before); cbn [app parse_anchors].
    + unfold bind. destruct (parse_href P (tag_href tag) s) as [[u|e] s1]; [|done].
      apply IH'.
    + apply IH'.
  - rewrite filter_cons_True by done. cbn [extract_links_loop].
    rewrite bool_decide_eq_true_2 in IH' by done.
    rewrite !bool_decide_eq_false_2 by done. cbn [andb app]. apply IH'.
  - rewrite filter_cons_False by done.
    rewrite bool_decide_eq_false_2 in IH' by done.
    rewrite !bool_decide_eq_false_2 by done. cbn [andb app]. apply IH'.
Qed.

(** X11.  [extract_links] normalises the targets of exactly those link
    tags whose nearest preceding heading of level 1 to 4 has a strict
    title, in document order; the other link tags are not looked at.  A
    link tag without [href] counts as one with the target [None]. *)
Theorem extract_links_strict_sections P (doc : html) s :
  extract_links P doc s = parse_anchors P (strict_anchors P doc) [] s.
Proof. apply (extract_links_loop_sections P doc []). Qed.

Lemma parse_anchors_links P anchors urls s links s' :
  parse_anchors P anchors urls s = (Ok links, s') ->
  exists new, links = urls ++ new
              /\ Forall2 (fun tag l => (parse_href P (tag_href tag) initial_state).1 = Ok l)
                         anchors new.
Proof.
  revert urls s. induction anchors as [|tag anchors IH]; intros urls s; cbn [parse_anchors].
  - intros [= <- _]. exists []. rewrite app_nil_r. split; [done | apply Forall2_nil_2].
  - unfold bind. destruct (parse_href_appends P (tag_href tag)) as (r & ws & lg & _ & Hr).
    rewrite Hr. destruct r as [u|e]; [|done].
    intros H. apply IH in H as (new & -> & Hnew).
    exists (u :: new). rewrite <- app_assoc. split; [done|].
    apply Forall2_cons. split; [rewrite Hr; done | done].
Qed.

(** X12.  When [extract_links] returns, it returns one link for every link
    tag of a strict section, in document order: the link [parse_url] gives
    for the tag's target. *)
Theorem extract_links_one_per_anchor P (doc : html) s links s' :
  extract_links P doc s = (Ok links, s') ->
  Forall2 (fun tag l => (parse_href P (tag_href tag) initial_state).1 = Ok l)
          (strict_anchors P doc) links.
Proof.
  intros H. pose proof (extract_links_loop_sections P doc [] [] s) as Heq.
  change (extract_links P doc s = parse_anchors P (strict_anchors P doc) [] s) in Heq.
  rewrite Heq in H. apply parse_anchors_links in H as (new & -> & Hnew). done.
Qed.

Lemma extract_links_loop_skip P (pre rest : html) urls s :
  Forall (fun tag => tag_name tag ∈ SECTION_TAGS -> is_strict_title P (tag_string tag) = false)
         pre ->
  extract_links_loop P (find_all LINK_AND_HEADING_TAGS (pre ++ rest)) false urls s
  = extract_links_loop P (find_all LINK_AND_HEADING_TAGS rest) false urls s.
Proof.
  unfold find_all. induction 1 as [|tag pre Htag _ IH]; [done|]. cbn [app].
  destruct (tag_cases tag) as [(Ha & Hs & Hl)|[(Ha & Hs & Hl)|(Ha & Hs & Hl)]].
  - rewrite filter_cons_True by done. cbn [extract_links_loop].
    rewrite bool_decide_eq_true_2 by done. done.
  - rewrite filter_cons_True by done. cbn [extract_links_loop].
    rewrite bool_decide_eq_false_2 by done. rewrite (Htag Hs). done.
  - rewrite filter_cons_False by done. done.
Qed.

(** X13.  What stands before the first strict heading is not looked at:
    when no heading of level 1 to 4 among the tags [pre] has a strict
    title, the document gives the links and the warnings of the document
    without [pre], whatever link tags [pre] holds. *)
Theorem extract_links_before_strict P (pre rest : html) s :
  Forall (fun tag => tag_name tag ∈ [py "h1"; py "h2"; py "h3"; py "h4"] ->
                     is_strict_title P (tag_string tag) = false) pre ->
  extract_links P (pre ++ rest) s = extract_links P rest s.
Proof. intros H. apply extract_links_loop_skip. exact H. Qed.

(** *** Every link met is entered or reported *)

(** X14.  The duplicates of a run, link by link: over files that can be
    read, a link met in the files [first :: later] (one entry per
    occurrence, in the order met) is reported once for every occurrence
    after the first, each warning naming the file of that occurrence and,
    as the earlier place, the file of the first occurrence. *)
Theorem duplicates_name_first_file P W file_list s :
  Forall (fun f => f <> []) file_list -> Forall (readable P W) file_list ->
  exists ws lg,
    inspect_files P W file_list s
    = (Ok tt, {| warnings := warnings s ++ ws; log := log s ++ lg |})
    /\ forall link,
         filter (dup_of link) ws
         = match occ_files link (occurrences P W file_list) with
           | [] => []
           | first :: later => map (fun f => DuplicateLink link f first) later
           end.
Proof.
  intros Hne Hr.
  destruct (inspect_files_duplicates P W file_list s Hne Hr) as (ws & lg & linkset & _ & H & Hd).
  exists ws, lg. split; [exact H|]. intros link. destruct (Hd link) as [-> _]. done.
Qed.

Lemma track_pairs_duplicates ps linkset :
  Forall (fun w => duplicate_warning w = true) (track_pairs ps linkset).1.
Proof.
  revert linkset. induction ps as [|[f l] ps IH]; intros linkset; cbn [track_pairs].
  - apply Forall_nil_2.
  - destruct (linkset !! l) as [[|c0 c]|]; cbn [fst]; [apply IH| |apply IH].
    apply Forall_cons. split; [done | apply IH].
Qed.

Lemma track_pairs_count ps linkset :
  files_named linkset -> Forall (fun p => p.1 <> []) ps ->
  (length (track_pairs ps linkset).1 + size (track_pairs ps linkset).2
   = length ps + size linkset)%nat.
Proof.
  intros Hn Hps. revert linkset Hn.
  induction Hps as [|[f l] ps Hf _ IH]; intros linkset Hn; [done|].
  cbn [fst] in Hf. cbn [track_pairs length].
  destruct (linkset !! l) as [c|] eqn:Hl.
  - destruct c as [|c0 c]; [exfalso; eapply Hn; done|].
    cbn [fst snd length]. pose proof (IH linkset Hn). lia.
  - assert (Hn' : files_named (<[l := f]> linkset)).
    { intros l' f'. destruct (decide (l = l')) as [->|Hne].
      - rewrite lookup_insert_eq. intros [= <-]. done.
      - rewrite lookup_insert_ne by done. apply Hn. }
    pose proof (IH _ Hn') as IH'. rewrite map_size_insert_None in IH' by done. lia.
Qed.

Lemma filter_duplicates_link_warnings ws :
  Forall link_warning ws -> filter (fun w => duplicate_warning w = true) ws = [].
Proof.
  intros H. apply filter_none. eapply Forall_impl; [exact H|].
  intros w Hw Hd. destruct w; done.
Qed.

Lemma filter_duplicates_id ws :
  Forall (fun w => duplicate_warning w = true) ws ->
  filter (fun w => duplicate_warning w = true) ws = ws.
Proof.
  induction 1 as [|w ws Hw _ IH]; [done|]. rewrite filter_cons_True by done. f_equal. done.
Qed.

Lemma inspect_files_loop_all P W file_list linkset s :
  Forall (readable P W) file_list ->
  exists ws lg,
    inspect_files_loop P W file_list linkset s =
      (Ok (track_pairs (occurrences P W file_list) linkset).2, ext ws lg s)
    /\ filter (fun w => duplicate_warning w = true) ws
       = (track_pairs (occurrences P W file_list) linkset).1.
Proof.
  intros H. revert linkset s. induction H as [|f fl [links Hf] _ IH]; intros linkset s.
  - exists [], []. cbn. rewrite ext_nil. done.
  - destruct (inspect_file_extracted P W f) as (ws1 & lg1 & Hws1 & H1).
    cbn [inspect_files_loop occurrences flat_map]. rewrite Hf.
    fold (occurrences P W fl). rewrite track_pairs_app. cbn [fst snd].
    set (r1 := track_pairs (map (pair f) links) linkset).
    destruct (IH r1.2 (ext r1.1 [] (ext ws1 lg1 s))) as (ws2 & lg2 & H2 & Hd2).
    exists (ws1 ++ r1.1 ++ ws2), (lg1 ++ lg2). split.
    + unfold bind. rewrite H1, Hf, inspect_links_loop_eq. fold r1. rewrite H2.
      rewrite !ext_ext. done.
    + rewrite !filter_app, Hd2, filter_duplicates_link_warnings by done.
      rewrite filter_duplicates_id by apply track_pairs_duplicates. done.
Qed.

Lemma occurrences_named P W file_list :
  Forall (fun f => f <> []) file_list -> Forall (fun p => p.1 <> []) (occurrences P W file_list).
Proof.
  intros Hne. unfold occurrences. apply Forall_forall. intros p Hp.
  apply list_elem_of_In, in_flat_map in Hp as (f & Hf & Hp).
  destruct (extracted P W f); [|done].
  apply in_map_iff in Hp as (l & <- & _). cbn.
  rewrite Forall_forall in Hne. apply Hne, list_elem_of_In. done.
Qed.

(** X15.  Every link met is either entered in the mapping or reported:
    over files that can be read, the number of warnings about duplicates
    and the number of entries of the mapping at the end add up to the
    number of links extracted from the files. *)
Theorem links_entered_or_reported P W file_list s :
  Forall (fun f => f <> []) file_list -> Forall (readable P W) file_list ->
  exists ws lg linkset,
    inspect_files_loop P W file_list ∅ s
    = (Ok linkset, {| warnings := warnings s ++ ws; log := log s ++ lg |})
    /\ (length (filter (fun w => duplicate_warning w = true) ws) + size linkset
        = length (occurrences P W file_list))%nat.
Proof.
  intros Hne Hr.
  destruct (inspect_files_loop_all P W file_list ∅ s Hr) as (ws & lg & H & Hd).
  exists ws, lg, (track_pairs (occurrences P W file_list) ∅).2. split; [exact H|].
  rewrite Hd, track_pairs_count; [rewrite map_size_empty; lia | | apply occurrences_named; done].
  intros l f. rewrite lookup_empty. done.
Qed.

(** *** What a run logs, and where it stops *)

Lemma keeps_log_bind {A B} (m : M A) (k : A -> M B) :
  keeps_log m -> (forall a, keeps_log (k a)) -> keeps_log (bind m k).
Proof.
  intros Hm Hk s. unfold bind. specialize (Hm s). destruct (m s) as [[a|e] s1]; [|done].
  rewrite Hk. done.
Qed.

Lemma keeps_log_when b (m : M unit) : keeps_log m -> keeps_log (when b m).
Proof. intros H. destruct b; [done|]. intros s. done. Qed.

Lemma keeps_log_warn w : keeps_log (warn w).
Proof. intros s. done. Qed.

Lemma scrub_parameters_keeps_log url q : keeps_log (scrub_parameters url q).
Proof.
  unfold scrub_parameters. destruct (scrub_loop (parse_qs q)) as [filtered found].
  apply keeps_log_bind; [apply keeps_log_when, keeps_log_warn|].
  intros _. destruct filtered; [done|]. destruct (urlencode _); done.
Qed.

Lemma parse_url_keeps_log P link : keeps_log (fun s => parse_url P link s).
Proof.
  unfold parse_url. apply keeps_log_bind; [done|]. intros p.
  apply keeps_log_bind; [apply keeps_log_when, keeps_log_warn|]. intros _.
  apply keeps_log_bind.
  { destruct (nonempty (query p)); [apply scrub_parameters_keeps_log | done]. }
  intros q. apply keeps_log_bind; [apply keeps_log_when, keeps_log_warn|]. done.
Qed.

Lemma parse_href_keeps_log P link : keeps_log (parse_href P link).
Proof.
  destruct link as [l|]; cbn [parse_href].
  - apply keeps_log_bind; [apply parse_url_keeps_log | done].
  - unfold parse_url_None. apply keeps_log_bind; [done|]. intros _.
    repeat (apply keeps_log_bind; [apply keeps_log_warn|]; intros _). done.
Qed.

Lemma extract_links_loop_keeps_log P tags strict_mode urls :
  keeps_log (extract_links_loop P tags strict_mode urls).
Proof.
  revert strict_mode urls. induction tags as [|tag rest IH]; intros strict_mode urls;
    cbn [extract_links_loop]; [done|].
  destruct (bool_decide (tag_name tag = py "a")); [|apply IH].
  destruct strict_mode; [|apply IH].
  apply keeps_log_bind; [apply parse_href_keeps_log|]. intros u. apply IH.
Qed.

Lemma inspect_file_log P W filename s :
  log (inspect_file P W filename s).2 = log s ++ [InspectingFile filename].
Proof.
  unfold inspect_file, bind, log_info, lift. cbn [fst snd].
  destruct (open_read W filename) as [md_text|e]; [|done].
  pose proof (extract_links_loop_keeps_log P
                (find_all LINK_AND_HEADING_TAGS (markdown W md_text)) false []
                {| warnings := warnings s; log := log s ++ [InspectingFile filename] |}) as H.
  unfold extract_links.
  destruct (extract_links_loop _ _ _ _ _) as [[links|e] s1]; exact H.
Qed.

Lemma inspect_file_run P W filename :
  exists ws, Forall link_warning ws
             /\ forall s, inspect_file P W filename s
                          = (extracted P W filename, ext ws [InspectingFile filename] s).
Proof.
  destruct (inspect_file_extracted P W filename) as (ws & lg & Hws & H).
  exists ws. split; [done|]. intros s. rewrite H. do 2 f_equal.
  pose proof (inspect_file_log P W filename initial_state) as Hl.
  rewrite H in Hl. cbn in Hl. done.
Qed.

Lemma inspect_files_loop_stops P W fs1 f fs2 e linkset s :
  Forall (readable P W) fs1 -> extracted P W f = Raise e ->
  exists ws, inspect_files_loop P W (fs1 ++ f :: fs2) linkset s
             = (Raise e, ext ws (map InspectingFile (fs1 ++ [f])) s).
Proof.
  intros H He. revert linkset s. induction H as [|f1 fs1 [links Hf] _ IH]; intros linkset s.
  - destruct (inspect_file_run P W f) as (ws & _ & Hr).
    exists ws. cbn [app inspect_files_loop]. unfold bind. rewrite Hr, He. done.
  - destruct (inspect_file_run P W f1) as (ws1 & _ & H1).
    cbn [app inspect_files_loop]. unfold bind. rewrite H1, Hf, inspect_links_loop_eq.
    set (r1 := track_pairs (map (pair f1) links) linkset).
    destruct (IH r1.2 (ext r1.1 [] (ext ws1 [InspectingFile f1] s))) as (ws2 & H2).
    rewrite H2. exists (ws1 ++ r1.1 ++ ws2). rewrite !ext_ext. done.
Qed.

(** X16.  The run stops at the first file that cannot be read, or that
    holds a link on which [parse_url] raises: [inspect_files] ends with
    that exception, the files before it were inspected, and the files
    after it are not (the log holds one "inspecting file" record for
    every file up to the failing one, and no other). *)
Theorem inspect_files_stops_at_failure P W fs1 f fs2 e s :
  Forall (readable P W) fs1 -> extracted P W f = Raise e ->
  exists ws,
    inspect_files P W (fs1 ++ f :: fs2) s
    = (Raise e, {| warnings := warnings s ++ ws;
                   log := log s ++ map InspectingFile (fs1 ++ [f]) |}).
Proof.
  intros H He. destruct (inspect_files_loop_stops P W fs1 f fs2 e ∅ s H He) as (ws & Hr).
  exists ws. unfold inspect_files, bind. rewrite Hr. done.
Qed.

(** *** The state is only added to *)

Lemma appends_impl {A} (Q Q' : warning -> Prop) (m : M A) :
  (forall w, Q w -> Q' w) -> appends Q m -> appends Q' m.
Proof.
  intros HQ (r & ws & lg & Hws & H). exists r, ws, lg. split; [|done].
  eapply Forall_impl; [exact Hws | exact HQ].
Qed.

Lemma inspect_files_loop_appends P W file_list linkset :
  appends (fun _ => True) (inspect_files_loop P W file_list linkset).
Proof.
  revert linkset. induction file_list as [|f fl IH]; intros linkset; cbn [inspect_files_loop].
  - apply appends_ret.
  - apply appends_bind.
    { eapply appends_impl; [|apply inspect_file_appends]. done. }
    intros links. apply appends_bind; [|apply IH].
    eexists _, _, []. split; [|intros s; apply inspect_links_loop_eq].
    apply Forall_forall. done.
Qed.

Lemma get_recent_files_appends P W dir count :
  appends (fun _ => True) (get_recent_files P W dir count).
Proof.
  unfold get_recent_files. apply appends_bind; [apply appends_lift|]. intros listing.
  destruct (negb _); [apply appends_raise|].
  destruct (negb _); [apply appends_raise|].
  apply appends_bind; [apply appends_log|]. intros _. apply appends_ret.
Qed.

(** X17.  A run only adds to the state, and what it adds does not depend
    on what was there: [main] gives the same result from every state, and
    leaves the warnings and the log as they were, with the same warnings
    and records appended. *)
Theorem main_only_appends P W args :
  exists r ws lg, forall s,
      main P W args s = (r, {| warnings := warnings s ++ ws; log := log s ++ lg |}).
Proof.
  assert (H : appends (fun _ => True) (main P W args)).
  { unfold main. apply appends_bind; [apply get_recent_files_appends|]. intros file_list.
    unfold inspect_files. apply appends_bind; [apply inspect_files_loop_appends|].
    intros _. apply appends_ret. }
  destruct H as (r & ws & lg & _ & H). exists r, ws, lg. exact H.
Qed.

Lemma inspect_files_loop_log P W file_list linkset s :
  Forall (readable P W) file_list ->
  exists ws linkset',
    inspect_files_loop P W file_list linkset s
    = (Ok linkset', ext ws (map InspectingFile file_list) s).
Proof.
  intros H. revert linkset s. induction H as [|f fl [links Hf] _ IH]; intros linkset s.
  - exists [], linkset. cbn. rewrite ext_nil. done.
  - destruct (inspect_file_run P W f) as (ws1 & _ & H1).
    cbn [inspect_files_loop]. unfold bind. rewrite H1, Hf, inspect_links_loop_eq.
    set (r1 := track_pairs (map (pair f) links) linkset).
    destruct (IH r1.2 (ext r1.1 [] (ext ws1 [InspectingFile f] s))) as (ws2 & ls & H2).
    rewrite H2. exists (ws1 ++ r1.1 ++ ws2), ls. rewrite !ext_ext. done.
Qed.

(** X24.  Over files that can be read, [inspect_files] inspects every file
    of the list once, in the order of the list: it returns, and the log
    holds one "inspecting file" record for each file, in that order. *)
Theorem inspect_files_inspects_all P W file_list s :
  Forall (readable P W) file_list ->
  exists ws,
    inspect_files P W file_list s
    = (Ok tt, {| warnings := warnings s ++ ws;
                 log := log s ++ map InspectingFile file_list |}).
Proof.
  intros H. destruct (inspect_files_loop_log P W file_list ∅ s H) as (ws & ls & Hr).
  exists ws. unfold inspect_files, bind. rewrite Hr. done.
Qed.

(** X25.  The mapping of a run: over files that can be read, the mapping
    at the end holds, for every link met, the file in which it was first
    met, and no entry for a link that was not met. *)
Theorem linkset_holds_first_file P W file_list s :
  Forall (fun f => f <> []) file_list -> Forall (readable P W) file_list ->
  exists linkset s',
    inspect_files_loop P W file_list ∅ s = (Ok linkset, s')
    /\ forall link,
         linkset !! link = head (map fst (filter (fun p => p.2 = link)
                                                 (occurrences P W file_list))).
Proof.
  intros Hne Hr.
  destruct (inspect_files_duplicates P W file_list s Hne Hr) as (ws & lg & linkset & H & _ & Hd).
  exists linkset, (ext ws lg s). split; [exact H|]. intros link. destruct (Hd link) as [_ ->]. done.
Qed.

(** *** The files of a run, for every count *)

Lemma get_recent_files_returns P W dir count listing s :
  listdir W dir = Ok listing ->
  filter (fun f => re_match P RE_FILENAME f = true) listing <> [] ->
  get_recent_files P W dir count s =
    let names := slice_from (- count)
                   (list_sort (filter (fun f => re_match P RE_FILENAME f = true) listing)) in
    (Ok (map (path_join dir) names),
     {| warnings := warnings s; log := log s ++ [RecentFiles names] |}).
Proof.
  intros Hl Hm.
  assert (Hne : listing <> []) by (intros ->; done).
  unfold get_recent_files, bind, lift. rewrite Hl.
  rewrite bool_decide_eq_true_2 by done. cbn [negb].
  rewrite bool_decide_eq_true_2 by done. cbn [negb]. done.
Qed.

(** X18.  A count of 0 or less: the slice [listing[-count:]] then starts
    at the index [-count], so that with the count 0 every matching name is
    returned, and with the count [-k] every matching name but the [k]
    least (none when there are no more than [k]). *)
Theorem get_recent_files_nonpositive P W dir count listing s :
  listdir W dir = Ok listing ->
  filter (fun f => re_match P RE_FILENAME f = true) listing <> [] ->
  (count <= 0)%Z ->
  let names := drop (Z.to_nat (- count))
                    (list_sort (filter (fun f => re_match P RE_FILENAME f = true) listing)) in
  get_recent_files P W dir count s
  = (Ok (map (path_join dir) names),
     {| warnings := warnings s; log := log s ++ [RecentFiles names] |}).
Proof.
  intros Hl Hm Hc. rewrite (get_recent_files_returns _ _ _ _ _ _ Hl Hm). cbn zeta.
  unfold slice_from. destruct (Z.ltb_spec (- count) 0); [lia|]. done.
Qed.

Lemma slice_from_suffix {A} (start : Z) (l : list A) : exists k, slice_from start l = drop k l.
Proof. unfold slice_from. destruct (start <? 0)%Z; eauto. Qed.

(** X19.  Whatever the count, the files [get_recent_files] returns are
    names of the directory listing that match the pattern, in ascending
    order and each joined with the directory; a file whose name does not
    match is never returned, and no warning is recorded. *)
Theorem get_recent_files_only_matching P W dir count s files s' :
  get_recent_files P W dir count s = (Ok files, s') ->
  exists listing names,
    listdir W dir = Ok listing
    /\ files = map (path_join dir) names
    /\ StronglySorted str_le names
    /\ Forall (fun f => f ∈ listing /\ re_match P RE_FILENAME f = true) names
    /\ warnings s' = warnings s.
Proof.
  intros H. destruct (listdir W dir) as [listing|e] eqn:Hl.
  2:{ revert H. unfold get_recent_files, bind, lift. rewrite Hl. done. }
  set (matching := filter (fun f => re_match P RE_FILENAME f = true) listing).
  assert (Hm : matching <> []).
  { intros Hm. revert H. unfold get_recent_files, bind, lift. rewrite Hl.
    destruct (negb (bool_decide (listing ≠ []))); [done|]. fold matching. rewrite Hm. done. }
  rewrite (get_recent_files_returns _ _ _ _ _ _ Hl Hm) in H. cbn zeta in H. fold matching in H.
  injection H as <- <-.
  destruct (slice_from_suffix (- count) (list_sort matching)) as [k ->].
  exists listing, (drop k (list_sort matching)).
  split; [done|]. split; [done|].
  pose proof (list_sort_sorted matching) as Hs.
  rewrite <- (take_drop k (list_sort matching)) in Hs.
  apply StronglySorted_app_inv in Hs as [Hs _].
  split; [done|]. split; [|done].
  apply Forall_forall. intros f Hf.
  assert (Hin : f ∈ matching).
  { rewrite <- (list_sort_perm matching), <- (take_drop k (list_sort matching)).
    apply elem_of_app. right. exact Hf. }
  apply list_elem_of_filter in Hin as [? ?]. done.
Qed.

(** *** What the pattern lets through *)

Lemma re_match_app P re (s t : str) : re_match P re s = true -> re_match P re (s ++ t) = true.
Proof.
  revert s. induction re as [|a re IH]; intros s; [done|].
  destruct s as [|c s]; [done|]. cbn [app re_match].
  intros [Ha Hs]%andb_true_iff. rewrite Ha. cbn [andb]. apply IH. done.
Qed.

(** X20.  The pattern is matched at the start of a name only: a name that
    goes on after a matching name (a backup beside the issue, say) matches
    too, and is filtered in by [get_recent_files]. *)
Theorem re_filename_not_anchored P (f t : str) (listing : list str) :
  re_match P RE_FILENAME f = true -> f ++ t ∈ listing ->
  f ++ t ∈ filter (fun f => re_match P RE_FILENAME f = true) listing.
Proof.
  intros Hf Hin. apply list_elem_of_filter. split; [|done]. apply re_match_app. done.
Qed.

Lemma re_match_any P re (s : str) (i : nat) c :
  re !! i = Some ReAny -> c <> 10 -> re_match P re s = true ->
  re_match P re (<[i := c]> s) = true.
Proof.
  revert s i. induction re as [|a re IH]; intros s i; [done|].
  destruct s as [|x s]; [done|]. cbn [re_match].
  intros Hi Hc [Ha Hs]%andb_true_iff. destruct i as [|i]; cbn [list_insert].
  - injection Hi as ->. change (<[0%nat := c]> (x :: s)) with (c :: s).
    cbn [re_match]. apply andb_true_iff. split; [|done].
    cbn [re_atom_matches]. apply negb_true_iff, N.eqb_neq. done.
  - change (<[S i := c]> (x :: s)) with (x :: <[i := c]> s).
    cbn [re_match]. rewrite Ha. cbn [andb]. apply IH; done.
Qed.

(** X21.  The dot of the pattern is not escaped: in a matching name the
    character before [md] (at index 28) may be replaced by any character
    but a line feed, and the name still matches. *)
Theorem re_filename_any_separator P (f : str) c :
  c <> 10 -> re_match P RE_FILENAME f = true ->
  re_match P RE_FILENAME (<[28%nat := c]> f) = true.
Proof. intros Hc Hf. apply re_match_any; done. Qed.

Lemma ascii_scalar (s : str) : forallb is_ascii s = true -> Forall scalar s.
Proof.
  rewrite forallb_forall, Forall_forall. intros H c Hc. apply list_elem_of_In, H in Hc.
  unfold is_ascii in Hc. apply N.ltb_lt in Hc. unfold scalar. lia.
Qed.

(** X1, on a query with a tracking parameter and an escaped slash. *)
Lemma scrub_parameters_keeps_witness :
  parse_qs (py "ref=y&a=%2F")
  = filter (fun kv => kv.1 ∉ TRACKING_PARAMETERS) (parse_qs (py "utm_source=x&ref=y&a=/")).
Proof.
  apply (scrub_parameters_keeps (py "u") (py "utm_source=x&ref=y&a=/") initial_state
           (py "ref=y&a=%2F")
           {| warnings := [TrackingParameters (py "u") [py "utm_source"]]; log := [] |}).
  reflexivity.
Defined.

(** X3, on a query with the escapes of a surrogate. *)
Lemma scrub_parameters_returns_witness :
  exists q' s', scrub_parameters (py "u") (py "a=%ED%A0%80&b=1") initial_state = (Ok q', s').
Proof.
  apply (scrub_parameters_returns (py "u") (py "a=%ED%A0%80&b=1") initial_state).
  apply ascii_scalar. reflexivity.
Defined.

(** X4, on a link with an opening bracket and no closing one. *)
Lemma parse_url_raises_only_witness :
  urlsplit ascii_platform (py "http://[::1/x") = Raise ValueError
  /\ initial_state = initial_state
  /\ ((ValueError = AttributeError /\ urllib_parse_bound ascii_platform = false)
      \/ (ValueError = ValueError /\ urllib_parse_bound ascii_platform = true)).
Proof.
  apply (parse_url_raises_only ascii_platform (py "http://[::1/x") initial_state
           ValueError initial_state).
  - apply ascii_scalar. reflexivity.
  - reflexivity.
Defined.

(** X5, on a link with a tracking parameter and a fragment. *)
Lemma parse_url_keeps_fragment_witness :
  exists body, (35 ∉ body)
               /\ py "https://example.com/a#top"
                  = body ++ (if nonempty (py "top") then 35 :: py "top" else []).
Proof.
  apply (parse_url_keeps_fragment ascii_platform (py "https://example.com/a?utm_source=x#top")
           initial_state (py "https://example.com/a#top")
           {| warnings := [TrackingParameters (py "https://example.com/a?utm_source=x#top")
                                              [py "utm_source"];
                           CanBeSimplified (py "https://example.com/a?utm_source=x#top")
                                           (py "https://example.com/a#top")];
              log := [] |}
           {| scheme := py "https"; netloc := py "example.com"; path := py "/a";
              query := py "utm_source=x"; fragment := py "top" |}); reflexivity.
Defined.

(** X6, on the scenario of C1 under the earliest form of [urlunsplit]. *)
Lemma parse_url_same_parts_witness :
  exists p', urlsplit ascii_platform_before (py "https://example.com/a?ref=y") = Ok p'
             /\ scheme p' = py "https" /\ netloc p' = py "example.com" /\ fragment p' = []
             /\ (path p' = py "/a" \/ path p' = 47 :: py "/a")
             /\ parse_qs (query p')
                = filter (fun kv => kv.1 ∉ TRACKING_PARAMETERS)
                         (parse_qs (py "utm_source=x&ref=y")).
Proof.
  apply (parse_url_same_parts ascii_platform_before
           (py "https://example.com/a?utm_source=x&ref=y") initial_state
           (py "https://example.com/a?ref=y")
           {| warnings := [TrackingParameters (py "https://example.com/a?utm_source=x&ref=y")
                                              [py "utm_source"];
                           CanBeSimplified (py "https://example.com/a?utm_source=x&ref=y")
                                           (py "https://example.com/a?ref=y")];
              log := [] |}
           {| scheme := py "https"; netloc := py "example.com"; path := py "/a";
              query := py "utm_source=x&ref=y"; fragment := [] |}).
  - reflexivity.
  - reflexivity.
  - right; left. discriminate.
Defined.

(** X7, on two links that differ in their tracking parameters and in the
    escapes of a value. *)
Lemma parse_url_same_link_witness :
  (parse_url ascii_platform (py "https://example.com/a?utm_source=x&ref=%79") initial_state).1
  = (parse_url ascii_platform (py "https://example.com/a?ref=y&utm_medium=z") initial_state).1.
Proof.
  apply (parse_url_same_link ascii_platform _ _ initial_state initial_state
           {| scheme := py "https"; netloc := py "example.com"; path := py "/a";
              query := py "utm_source=x&ref=%79"; fragment := [] |}
           {| scheme := py "https"; netloc := py "example.com"; path := py "/a";
              query := py "ref=y&utm_medium=z"; fragment := [] |}); reflexivity.
Defined.

(** X8, on a link whose only parameter has a blank value. *)
Lemma parse_url_blank_query_witness :
  parse_url ascii_platform (py "https://example.com/a?page=") initial_state
  = (Ok (urlunsplit ascii_platform (py "https") (py "example.com") (py "/a") [] []),
     {| warnings :=
          [] ++ (if bool_decide (py "https" ∈ [py "mailto"; py "http"; py "https"])
                 then [] else [MalformedLink (py "https://example.com/a?page=")])
          ++ [CanBeSimplified (py "https://example.com/a?page=")
                (urlunsplit ascii_platform (py "https") (py "example.com") (py "/a") [] [])];
        log := [] |}).
Proof.
  apply (parse_url_blank_query ascii_platform (py "https://example.com/a?page=") initial_state
           {| scheme := py "https"; netloc := py "example.com"; path := py "/a";
              query := py "page="; fragment := [] |}).
  - reflexivity.
  - discriminate.
  - reflexivity.
Defined.

(** X9, on a link after two spaces. *)
Lemma parse_url_leading_space_witness :
  urlsplit ascii_platform (py "  " ++ py "https://example.com/a")
  = urlsplit ascii_platform (py "https://example.com/a")
  /\ (parse_url ascii_platform (py "  " ++ py "https://example.com/a") initial_state).1
     = (parse_url ascii_platform (py "https://example.com/a") initial_state).1.
Proof.
  apply (parse_url_leading_space ascii_platform (py "  ") (py "https://example.com/a")).
  repeat (apply Forall_cons; split; [vm_compute; discriminate|]). apply Forall_nil_2.
Defined.

(** X10, on a link broken over two lines. *)
Lemma parse_url_line_break_witness :
  urlsplit ascii_platform (py "https://exam" ++ 10 :: py "ple.com/a")
  = urlsplit ascii_platform (py "https://exam" ++ py "ple.com/a")
  /\ (parse_url ascii_platform (py "https://exam" ++ 10 :: py "ple.com/a") initial_state).1
     = (parse_url ascii_platform (py "https://exam" ++ py "ple.com/a") initial_state).1.
Proof.
  apply (parse_url_line_break ascii_platform (py "https://exam") 10 (py "ple.com/a")). auto.
Defined.

(** X12, on a document that links to the same page twice. *)
Lemma extract_links_one_per_anchor_witness :
  Forall2 (fun tag l => (parse_href ascii_platform (tag_href tag) initial_state).1 = Ok l)
          (strict_anchors ascii_platform doc_twice)
          [NStr (py "https://example.com/x"); NStr (py "https://example.com/x")].
Proof.
  apply (extract_links_one_per_anchor ascii_platform doc_twice initial_state _ initial_state).
  reflexivity.
Defined.

(** X13, on a document whose first section is not strict. *)
Lemma extract_links_before_strict_witness :
  extract_links ascii_platform
    ([heading "h1" "Crate of the Week"; anchor "https://example.com/crate"]
     ++ [heading "h2" "Rust Walkthroughs"; anchor "https://example.com/x"]) initial_state
  = extract_links ascii_platform
      [heading "h2" "Rust Walkthroughs"; anchor "https://example.com/x"] initial_state.
Proof.
  apply (extract_links_before_strict ascii_platform
           [heading "h1" "Crate of the Week"; anchor "https://example.com/crate"]).
  repeat (apply Forall_cons; split; [intros _; reflexivity|]). apply Forall_nil_2.
Defined.

(** X14, on two issues that each link to the same page twice. *)
Lemma duplicates_name_first_file_witness :
  exists ws lg,
    inspect_files ascii_platform (world_of [] doc_twice) [issue_1; issue_2] initial_state
    = (Ok tt, {| warnings := warnings initial_state ++ ws; log := log initial_state ++ lg |})
    /\ forall link,
         filter (dup_of link) ws
         = match occ_files link (occurrences ascii_platform (world_of [] doc_twice)
                                            [issue_1; issue_2]) with
           | [] => []
           | first :: later => map (fun f => DuplicateLink link f first) later
           end.
Proof.
  apply (duplicates_name_first_file ascii_platform (world_of [] doc_twice) [issue_1; issue_2]).
  - repeat (apply Forall_cons; split; [discriminate|]). apply Forall_nil_2.
  - repeat (apply Forall_cons; split; [eexists; reflexivity|]). apply Forall_nil_2.
Defined.

(** X15, on the same run: four links, one entry and three warnings. *)
Lemma links_entered_or_reported_witness :
  exists ws lg linkset,
    inspect_files_loop ascii_platform (world_of [] doc_twice) [issue_1; issue_2] ∅ initial_state
    = (Ok linkset, {| warnings := warnings initial_state ++ ws;
                      log := log initial_state ++ lg |})
    /\ (length (filter (fun w => duplicate_warning w = true) ws) + size linkset
        = length (occurrences ascii_platform (world_of [] doc_twice) [issue_1; issue_2]))%nat.
Proof.
  apply (links_entered_or_reported ascii_platform (world_of [] doc_twice) [issue_1; issue_2]).
  - repeat (apply Forall_cons; split; [discriminate|]). apply Forall_nil_2.
  - repeat (apply Forall_cons; split; [eexists; reflexivity|]). apply Forall_nil_2.
Defined.

(** X16, on three issues of which the second cannot be opened. *)
Lemma inspect_files_stops_at_failure_witness :
  exists ws,
    inspect_files ascii_platform (world_without issue_2 doc_twice)
      ([issue_1] ++ issue_2 :: [issue_3]) initial_state
    = (Raise OSError,
       {| warnings := warnings initial_state ++ ws;
          log := log initial_state ++ map InspectingFile ([issue_1] ++ [issue_2]) |}).
Proof.
  apply (inspect_files_stops_at_failure ascii_platform (world_without issue_2 doc_twice)
           [issue_1] issue_2 [issue_3] OSError initial_state).
  - repeat (apply Forall_cons; split; [eexists; reflexivity|]). apply Forall_nil_2.
  - reflexivity.
Defined.

(** X18, on a directory with three issues and the count -1. *)
Lemma get_recent_files_nonpositive_witness :
  get_recent_files ascii_platform (world_of [issue_3; py "README.md"; issue_1; issue_2] [])
    (py "content") (-1) initial_state
  = (Ok (map (path_join (py "content"))
             (drop (Z.to_nat (- -1))
                   (list_sort (filter (fun f => re_match ascii_platform RE_FILENAME f = true)
                                      [issue_3; py "README.md"; issue_1; issue_2])))),
     {| warnings := warnings initial_state;
        log := log initial_state
               ++ [RecentFiles
                     (drop (Z.to_nat (- -1))
                        (list_sort (filter (fun f => re_match ascii_platform RE_FILENAME f = true)
                                           [issue_3; py "README.md"; issue_1; issue_2])))] |}).
Proof.
  apply (get_recent_files_nonpositive ascii_platform
           (world_of [issue_3; py "README.md"; issue_1; issue_2] []) (py "content") (-1)
           [issue_3; py "README.md"; issue_1; issue_2] initial_state).
  - reflexivity.
  - vm_compute. discriminate.
  - lia.
Defined.

(** X19, on the same directory and the count 2. *)
Lemma get_recent_files_only_matching_witness :
  exists listing names,
    listdir (world_of [issue_3; py "README.md"; issue_1; issue_2] []) (py "content") = Ok listing
    /\ [py "content/2024-01-10-this-week-in-rust.md";
        py "content/2024-01-17-this-week-in-rust.md"] = map (path_join (py "content")) names
    /\ StronglySorted str_le names
    /\ Forall (fun f => f ∈ listing /\ re_match ascii_platform RE_FILENAME f = true) names
    /\ warnings {| warnings := []; log := [RecentFiles [issue_2; issue_3]] |}
       = warnings initial_state.
Proof.
  apply (get_recent_files_only_matching ascii_platform
           (world_of [issue_3; py "README.md"; issue_1; issue_2] []) (py "content") 2
           initial_state). reflexivity.
Defined.

(** X20, on a backup beside an issue. *)
Lemma re_filename_not_anchored_witness :
  issue_1 ++ py ".bak"
  ∈ filter (fun f => re_match ascii_platform RE_FILENAME f = true)
           [py "README.md"; issue_1 ++ py ".bak"].
Proof.
  apply (re_filename_not_anchored ascii_platform issue_1 (py ".bak")
           [py "README.md"; issue_1 ++ py ".bak"]).
  - reflexivity.
  - apply list_elem_of_further, list_elem_of_here.
Defined.

(** X21, on an issue whose name has a dash where the dot belongs. *)
Lemma re_filename_any_separator_witness :
  re_match ascii_platform RE_FILENAME (<[28%nat := 45]> issue_1) = true.
Proof.
  apply (re_filename_any_separator ascii_platform issue_1 45); [discriminate | reflexivity].
Defined.

(** X23, on a query with a space and a slash in a value. *)
Lemma scrub_parameters_plain_witness :
  Forall (fun c => always_safe c = true \/ c ∈ [37; 43; 61; 38]) (py "q=a+b%2Fc").
Proof.
  apply (scrub_parameters_plain (py "u") (py "utm_source=x&q=a b/c") initial_state
           (py "q=a+b%2Fc")
           {| warnings := [TrackingParameters (py "u") [py "utm_source"]]; log := [] |}).
  reflexivity.
Defined.

(** X24, on three issues. *)
Lemma inspect_files_inspects_all_witness :
  exists ws,
    inspect_files ascii_platform (world_of [] doc_once) [issue_1; issue_2; issue_3] initial_state
    = (Ok tt, {| warnings := warnings initial_state ++ ws;
                 log := log initial_state ++ map InspectingFile [issue_1; issue_2; issue_3] |}).
Proof.
  apply (inspect_files_inspects_all ascii_platform (world_of [] doc_once)
           [issue_1; issue_2; issue_3]).
  repeat (apply Forall_cons; split; [eexists; reflexivity|]). apply Forall_nil_2.
Defined.

(** X25, on three issues that each link to the same page. *)
Lemma linkset_holds_first_file_witness :
  exists linkset s',
    inspect_files_loop ascii_platform (world_of [] doc_once) [issue_1; issue_2; issue_3] ∅
      initial_state = (Ok linkset, s')
    /\ forall link,
         linkset !! link
         = head (map fst (filter (fun p => p.2 = link)
                                 (occurrences ascii_platform (world_of [] doc_once)
                                              [issue_1; issue_2; issue_3]))).
Proof.
  apply (linkset_holds_first_file ascii_platform (world_of [] doc_once)
           [issue_1; issue_2; issue_3]).
  - repeat (apply Forall_cons; split; [discriminate|]). apply Forall_nil_2.
  - repeat (apply Forall_cons; split; [eexists; reflexivity|]). apply Forall_nil_2.
Defined.
